(** * CRISPResso2 analyzer: the ingestion, pairing, orchestration, parsing
    and aggregation pipeline of [modules/utils.py] and [modules/runner.py],
    as a shallow embedding.

  Conventions of the embedding.
  - A Python [str] is a [string]: one [ascii] per code point, so the model
    covers the strings whose code points are below 256.
  - A [pathlib.Path] is the list of its components ([Path]); the file
    system is a tree whose directories list their entries in the order
    [os.scandir] reports them.
  - A Python exception is a [Raise] result; [None] is [None].
  - A [float] is a binary64 [PrimFloat.float]. *)

From Stdlib Require Import Bool Arith ZArith List String Ascii Lia DecimalString.
From Stdlib Require Import Sorting.Permutation Sorting.Sorted.
From Stdlib Require Structures.OrderedTypeEx.
From Stdlib Require Import Floats.
Import ListNotations.
Local Open Scope string_scope.
Local Open Scope list_scope.

Set Implicit Arguments.

(* ================================================================= *)
(** ** Python strings *)

Module Str.

Abbreviation chars := (list ascii).

Definition of_chars : chars -> string := string_of_list_ascii.
Definition to_chars : string -> chars := list_ascii_of_string.

Definition code (a : ascii) : nat := nat_of_ascii a.

Definition is_digit (a : ascii) : bool :=
  ((48 <=? code a) && (code a <=? 57))%nat.

Definition is_upper (a : ascii) : bool :=
  (((65 <=? code a) && (code a <=? 90))
   || ((192 <=? code a) && (code a <=? 222) && negb (code a =? 215)))%nat.

(** [str.lower] on one code point below 256: A-Z and the Latin-1 capitals
    move up by 32. *)
Definition lower_char (a : ascii) : ascii :=
  if is_upper a then ascii_of_nat (code a + 32) else a.

Fixpoint lower (s : string) : string :=
  match s with
  | EmptyString => EmptyString
  | String a s' => String (lower_char a) (lower s')
  end.

(** [s.startswith(p)] *)
Definition startswith (s p : string) : bool := String.prefix p s.

(** [s.endswith(p)] *)
Fixpoint ends_with (s p : chars) : bool :=
  if (List.length s =? List.length p)%nat
  then if list_eq_dec ascii_dec s p then true else false
  else match s with
       | [] => false
       | _ :: s' => ends_with s' p
       end.
Definition endswith (s p : string) : bool := ends_with (to_chars s) (to_chars p).

(** Truthiness of a value that is a string or [None]. *)
Definition truthy (o : option string) : bool :=
  match o with
  | Some (String _ _) => true
  | _ => false
  end.

(** [x or d] for a string-or-None [x]. *)
Definition or_else (o : option string) (d : string) : string :=
  if truthy o then match o with Some s => s | None => d end else d.

(** [f"{x}"] for a string-or-None [x]. *)
Definition fmt (o : option string) : string :=
  match o with
  | Some s => s
  | None => "None"
  end.

(** [str(n)] for an [int] *)
Definition str_of_int (z : Z) : string := NilZero.string_of_int (Z.to_int z).

End Str.

(* ================================================================= *)
(** ** Regular expressions with Python's backtracking order

  [ms r s c] lists every way [r] can match a prefix of [s], as the text
  left over and the capture groups, in the order the backtracking matcher
  of [re] tries them: a greedy operator offers the longest alternative
  first, a lazy one the shortest.  [re.match] returns the first complete
  match of that enumeration. *)

Module Re.

Import Str.

Abbreviation captures := (list (string * list ascii)).

Inductive regex : Type :=
| Eps
| Chr (p : ascii -> bool)              (* one character of a class *)
| Seq (r1 r2 : regex)
| Opt (r : regex)                      (* r?   greedy *)
| Plus (p : ascii -> bool)             (* p+   greedy *)
| PlusLazy (p : ascii -> bool)         (* p+?  lazy   *)
| Star (p : ascii -> bool)             (* p*   greedy *)
| Group (name : string) (r : regex)    (* (?P<name>r) *)
| Eos.                                 (* $ without re.MULTILINE *)

(** Remainders after one or more characters of the class, longest run
    first. *)
Fixpoint plus_greedy (p : ascii -> bool) (s : chars) : list chars :=
  match s with
  | [] => []
  | a :: s' => if p a then plus_greedy p s' ++ [s'] else []
  end.

(** The same, shortest run first. *)
Fixpoint plus_lazy (p : ascii -> bool) (s : chars) : list chars :=
  match s with
  | [] => []
  | a :: s' => if p a then s' :: plus_lazy p s' else []
  end.

Definition newline : ascii := ascii_of_nat 10.

(** [$] matches at the end of the text and just before a final newline. *)
Definition at_end (s : chars) : bool :=
  match s with
  | [] => true
  | [a] => Ascii.eqb a newline
  | _ => false
  end.

Definition consumed (s s' : chars) : chars :=
  firstn (List.length s - List.length s') s.

Fixpoint ms (r : regex) (s : chars) (c : captures) : list (chars * captures) :=
  match r with
  | Eps => [(s, c)]
  | Chr p =>
      match s with
      | a :: s' => if p a then [(s', c)] else []
      | [] => []
      end
  | Seq r1 r2 => flat_map (fun m => ms r2 (fst m) (snd m)) (ms r1 s c)
  | Opt r1 => ms r1 s c ++ [(s, c)]
  | Plus p => map (fun s' => (s', c)) (plus_greedy p s)
  | PlusLazy p => map (fun s' => (s', c)) (plus_lazy p s)
  | Star p => map (fun s' => (s', c)) (plus_greedy p s ++ [s])
  | Group n r1 =>
      map (fun m => (fst m, (n, consumed s (fst m)) :: snd m)) (ms r1 s c)
  | Eos => if at_end s then [(s, c)] else []
  end.

(** [re.match(r, s)]: the capture groups of the first match, or [None]. *)
Definition re_match (r : regex) (s : string) : option captures :=
  match ms r (to_chars s) [] with
  | [] => None
  | m :: _ => Some (snd m)
  end.

(** [m.group(name)]: the text the group captured last, [None] when it took
    no part in the match. *)
Fixpoint group (m : captures) (name : string) : option string :=
  match m with
  | [] => None
  | (n, v) :: m' => if String.eqb n name then Some (of_chars v) else group m' name
  end.

(** Character classes.  Under [re.IGNORECASE] a letter of the pattern
    matches both of its cases. *)
Definition ci (x : ascii) : ascii -> bool :=
  fun a => Ascii.eqb (lower_char a) (lower_char x).
Definition digit : ascii -> bool := is_digit.                (* \d *)
Definition isnot (x : ascii) : ascii -> bool :=              (* [^x] *)
  fun a => negb (Ascii.eqb a x).
Definition dot : ascii -> bool := isnot newline.             (* . *)
Definition oneof (l : list ascii) : ascii -> bool :=         (* [abc] *)
  fun a => existsb (Ascii.eqb a) l.

(** A literal run of the pattern, case-insensitive. *)
Fixpoint lit (s : string) : regex :=
  match s with
  | EmptyString => Eps
  | String x s' => Seq (Chr (ci x)) (lit s')
  end.

(** A pattern without capture groups. *)
Fixpoint groupless (r : regex) : bool :=
  match r with
  | Seq r1 r2 => groupless r1 && groupless r2
  | Opt r1 => groupless r1
  | Group _ _ => false
  | _ => true
  end.

(** Two texts that differ by case only. *)
Definition same_ci (u w : chars) : Prop :=
  map lower_char u = map lower_char w.

(** The text begins with the word, whatever the case. *)
Definition starts_ci (w : string) (s : chars) : bool :=
  if list_eq_dec ascii_dec
       (map lower_char (firstn (String.length w) s))
       (map lower_char (to_chars w))
  then true else false.

(** The longest run of a class at the front of a text, and what follows. *)
Fixpoint span (p : ascii -> bool) (s : chars) : chars * chars :=
  match s with
  | [] => ([], [])
  | a :: s' => if p a then (a :: fst (span p s'), snd (span p s')) else ([], s)
  end.

End Re.

Declare Scope re_scope.
Delimit Scope re_scope with re.
Bind Scope re_scope with Re.regex.
Infix ">>" := Re.Seq (at level 61, right associativity) : re_scope.

(* ================================================================= *)
(** ** Sample classifier: [parse_fastq_metadata] (utils.py) *)

Module Classifier.

Import Str Re.

(** The pattern of [parse_fastq_metadata], compiled with [re.IGNORECASE]. *)
Definition fastq_re : regex :=
  (lit "Day" >> Group "day" (Plus digit) >> lit "_"
   >> Opt (Group "gen" (Plus (isnot "_")) >> lit "_")
   >> Group "variant" (Plus (isnot "_")) >> lit "_"
   >> Group "treat" (Plus (isnot "_")) >> lit "_"
   >> Group "rep" (Plus digit)
   >> Opt (Group "rerun" (lit "_rerun"))
   >> Star dot >> lit ".fastq" >> Opt (lit ".gz") >> Eos)%re.

Definition parse_fastq_metadata (name : string) : option (string * string) :=
  match re_match fastq_re name with
  | None => None
  | Some m =>
      let day := group m "day" in
      let rep := group m "rep" in
      let treat := lower (or_else (group m "treat") "untreated") in
      let rerun := group m "rerun" in
      Some ("Replica-" ++ fmt rep,
            if truthy rerun
            then "Day" ++ fmt day ++ "_" ++ treat ++ "_rerun"
            else "Day" ++ fmt day ++ "_" ++ treat)%string
  end.

(** The grammar of the classifier, read as a set of file names:
    [Day<day>_[<generation>_]<variant>_<treatment>_<rep>[_rerun]...] and the
    suffix [.fastq] or [.fastq.gz], letters in either case. *)
Definition token (t : chars) : Prop :=
  t <> [] /\ forallb (isnot "_") t = true.

Definition number (d : chars) : Prop :=
  d <> [] /\ forallb digit d = true.

Definition tail_ok (after : chars) : Prop :=
  exists RR rest SUF nl,
    after = RR ++ rest ++ SUF ++ nl /\
    (RR = [] \/ same_ci RR (to_chars "_rerun")) /\
    forallb dot rest = true /\
    (same_ci SUF (to_chars ".fastq") \/ same_ci SUF (to_chars ".fastq.gz")) /\
    at_end nl = true.

(** The same tail without naming the rerun marker, which the free text
    [...] of the grammar covers too. *)
Definition tail_plain (after : chars) : Prop :=
  exists rest SUF nl,
    after = rest ++ SUF ++ nl /\
    forallb dot rest = true /\
    (same_ci SUF (to_chars ".fastq") \/ same_ci SUF (to_chars ".fastq.gz")) /\
    at_end nl = true.

(** Characters that the free text of the tail absorbs and that cannot start
    the suffix. *)
Definition plain (a : ascii) : bool := isnot "." a && dot a.

Definition starts_digit (s : chars) : bool :=
  match s with a :: _ => digit a | [] => false end.

Definition fields (name day treat rep after : chars) : Prop :=
  exists D gen variant,
    name = D ++ day ++ "_"%char :: gen ++ variant ++ "_"%char :: treat
             ++ "_"%char :: rep ++ after /\
    same_ci D (to_chars "Day") /\ number day /\
    (gen = [] \/ exists g, token g /\ gen = g ++ ["_"%char]) /\
    token variant /\ token treat /\ number rep /\ tail_ok after.

Definition grammar (name : string) : Prop :=
  exists day treat rep after, fields (to_chars name) day treat rep after.

(** The two halves of [fastq_re]: up to the treatment, and from the
    replicate number on. *)
Definition front_re : regex :=
  (lit "Day" >> Group "day" (Plus digit) >> lit "_"
   >> Opt (Group "gen" (Plus (isnot "_")) >> lit "_")
   >> Group "variant" (Plus (isnot "_")) >> lit "_"
   >> Group "treat" (Plus (isnot "_")) >> lit "_")%re.

Definition rerun_re : regex := Opt (Group "rerun" (lit "_rerun")).

Definition tail_re : regex :=
  (Star dot >> lit ".fastq" >> Opt (lit ".gz") >> Eos)%re.

Definition back_re : regex :=
  (Group "rep" (Plus digit) >> rerun_re >> tail_re)%re.

End Classifier.


(* ================================================================= *)
(** ** Results and exceptions *)

Inductive exn : Type :=
| FileExistsError
| FileNotFoundError
| NotADirectoryError
| IsADirectoryError
| OSError
| KeyError
| TypeError
| ValueError.

Inductive res (A : Type) : Type :=
| Ok (a : A)
| Raise (e : exn).
Arguments Ok {A} a.
Arguments Raise {A} e.

Definition bind {A B} (m : res A) (k : A -> res B) : res B :=
  match m with
  | Ok a => k a
  | Raise e => Raise e
  end.

Notation "x <- m ;; k" := (bind m (fun x => k))
  (at level 62, m at next level, right associativity).

(** A [for] loop whose body may raise. *)
Fixpoint for_each {A S} (body : S -> A -> res S) (l : list A) (st : S) : res S :=
  match l with
  | [] => Ok st
  | a :: l' => st' <- body st a ;; for_each body l' st'
  end.

(* ================================================================= *)
(** ** Paths and the file system *)

Module FS.

Abbreviation Path := (list string).

#[warnings="-register-all"]
Inductive node : Type :=
| File (content : string)
| Dir (entries : list (string * node)).

Fixpoint nodupb (l : list string) : bool :=
  match l with
  | [] => true
  | x :: l' => negb (existsb (String.eqb x) l') && nodupb l'
  end.

(** A tree is well formed when no directory lists a name twice. *)
Fixpoint wfb (n : node) : bool :=
  match n with
  | File _ => true
  | Dir es =>
      nodupb (map fst es)
      && forallb (fun e => match e with (_, child) => wfb child end) es
  end.

Definition wf (n : node) : Prop := wfb n = true.

(** [p.name] and [p.parent] *)
Definition name (p : Path) : string := last p "".
Definition parent (p : Path) : Path := removelast p.

Definition path_eqb (p q : Path) : bool :=
  if list_eq_dec string_dec p q then true else false.

Fixpoint find_entry (n : string) (es : list (string * node)) : option node :=
  match es with
  | [] => None
  | (k, v) :: es' => if String.eqb k n then Some v else find_entry n es'
  end.

Fixpoint set_entry (n : string) (v : node) (es : list (string * node))
  : list (string * node) :=
  match es with
  | [] => [(n, v)]
  | (k, w) :: es' => if String.eqb k n then (k, v) :: es' else (k, w) :: set_entry n v es'
  end.

Fixpoint del_entry (n : string) (es : list (string * node)) : list (string * node) :=
  match es with
  | [] => []
  | (k, w) :: es' => if String.eqb k n then es' else (k, w) :: del_entry n es'
  end.

Fixpoint lookup (fs : node) (p : Path) : option node :=
  match p with
  | [] => Some fs
  | c :: p' =>
      match fs with
      | Dir es =>
          match find_entry c es with
          | Some n => lookup n p'
          | None => None
          end
      | File _ => None
      end
  end.

(** [p.exists()], [p.is_dir()] *)
Definition exists_ (fs : node) (p : Path) : bool :=
  match lookup fs p with Some _ => true | None => false end.

Definition is_dir (fs : node) (p : Path) : bool :=
  match lookup fs p with Some (Dir _) => true | _ => false end.

(** [p.mkdir(parents=True, exist_ok=True)] *)
Fixpoint mkdir_p (fs : node) (p : Path) : res node :=
  match fs with
  | File _ =>
      match p with
      | [] => Raise FileExistsError
      | _ :: _ => Raise NotADirectoryError
      end
  | Dir es =>
      match p with
      | [] => Ok fs
      | c :: p' =>
          match find_entry c es with
          | Some n => n' <- mkdir_p n p' ;; Ok (Dir (set_entry c n' es))
          | None => n' <- mkdir_p (Dir []) p' ;; Ok (Dir (es ++ [(c, n')]))
          end
      end
  end.

(** The tree without the entry at [p]. *)
Fixpoint remove (fs : node) (p : Path) : node :=
  match fs, p with
  | Dir es, [c] => Dir (del_entry c es)
  | Dir es, c :: p' =>
      match find_entry c es with
      | Some n => Dir (set_entry c (remove n p') es)
      | None => fs
      end
  | _, _ => fs
  end.

(** The tree with [v] at [p], whose parent is a directory of the tree. *)
Fixpoint place (fs : node) (p : Path) (v : node) : node :=
  match fs, p with
  | Dir es, [c] => Dir (set_entry c v es)
  | Dir es, c :: p' =>
      match find_entry c es with
      | Some n => Dir (set_entry c (place n p' v) es)
      | None => fs
      end
  | _, _ => fs
  end.

Fixpoint is_prefix (p q : Path) : bool :=
  match p, q with
  | [], _ => true
  | a :: p', b :: q' => String.eqb a b && is_prefix p' q'
  | _ :: _, [] => false
  end.

(** [src.rename(dst)], as [os.rename] on POSIX: a file replaces a file, a
    directory replaces an empty directory, and every other clash is an
    error. *)
Definition rename (fs : node) (src dst : Path) : res node :=
  match lookup fs src with
  | None => Raise FileNotFoundError
  | Some n =>
      match lookup fs (parent dst) with
      | None => Raise FileNotFoundError
      | Some (File _) => Raise NotADirectoryError
      | Some (Dir _) =>
          if is_prefix src dst then Raise OSError
          else
            match lookup fs dst, n with
            | None, _ => Ok (place (remove fs src) dst n)
            | Some (File _), File _ => Ok (place (remove fs src) dst n)
            | Some (File _), Dir _ => Raise NotADirectoryError
            | Some (Dir _), File _ => Raise IsADirectoryError
            | Some (Dir []), Dir _ => Ok (place (remove fs src) dst n)
            | Some (Dir (_ :: _)), Dir _ => Raise OSError
            end
      end
  end.

(** [root.rglob(pattern)] for a one-component pattern: the entries below
    [root] whose name matches, directory by directory, each directory before
    its subdirectories. *)
Fixpoint rglob_node (matches : string -> bool) (here : Path) (n : node) : list Path :=
  match n with
  | File _ => []
  | Dir es =>
      map (fun e => here ++ [fst e]) (filter (fun e => matches (fst e)) es)
      ++ flat_map (fun e => match e with
                            | (k, child) => rglob_node matches (here ++ [k]) child
                            end) es
  end.

Definition rglob (fs : node) (root : Path) (matches : string -> bool) : list Path :=
  match lookup fs root with
  | Some n => rglob_node matches root n
  | None => []
  end.

(** [str(p)] for a path *)
Definition str_of_path (p : Path) : string := String.concat "/" ("" :: p).

(** [fnmatch] against ["*.fastq.gz"], case-sensitive as on POSIX. *)
Definition fastq_gz (n : string) : bool := Str.endswith n ".fastq.gz".

End FS.

(* ================================================================= *)
(** ** Reorganisation of the extracted reads (utils.py) *)

Module Reorganize.

Import FS Classifier.

(** Without symbolic links, [resolve] leaves a path of the tree as it is. *)
Definition resolve (p : Path) : Path := p.

(** The state of the loop: the tree and the calls of [rename] made so far,
    as (source, destination). *)
Definition state : Type := node * list (Path * Path).

(** One turn of the loop of [reorganize_extracted_fastqs]. *)
Definition reorganize_one (tmp_path : Path) (st : state) (p : Path) : res state :=
  let meta := parse_fastq_metadata (name p) in
  let dest :=
    match meta with
    | None => tmp_path ++ ["Replica-unknown"; "Day-unknown"]
    | Some (rep, treat) => tmp_path ++ [rep; treat]
    end in
  fs1 <- mkdir_p (fst st) dest ;;
  let newp := dest ++ [name p] in
  if negb (path_eqb (resolve p) (resolve newp)) then
    match rename fs1 p newp with
    | Ok fs2 => Ok (fs2, snd st ++ [(p, newp)])
    | Raise _ => Ok (fs1, snd st ++ [(p, newp)])
    end
  else Ok (fs1, snd st).


(** The destination directory the loop computes for a path. *)
Definition destination (tmp_path : Path) (p : Path) : Path :=
  match parse_fastq_metadata (name p) with
  | None => tmp_path ++ ["Replica-unknown"; "Day-unknown"]
  | Some (rep, treat) => tmp_path ++ [rep; treat]
  end.

(** An organised tree: every read file found is in its destination
    directory. *)
Definition organized (tmp_path : Path) (fs : node) : Prop :=
  forall p, In p (rglob fs tmp_path fastq_gz) -> parent p = destination tmp_path p.


Definition upload_organized : node :=
  Dir [("tmp",
        Dir [("__MACOSX", Dir [("x.txt", File "")]);
             ("raw", Dir [("Day1_v_t_1.fastq", File "d")]);
             ("Replica-2",
              Dir [("Day1_druga",
                    Dir [("Day1_v_DrugA_2_S1_R1_001.fastq.gz", File "a");
                         ("Day1_v_DrugA_2_S1_R2_001.fastq.gz", File "b")])]);
             ("Replica-unknown",
              Dir [("Day-unknown", Dir [("other.fastq.gz", File "c")])])])].

End Reorganize.

(* ================================================================= *)
(** ** Sorting, as [sorted] does on values that differ *)

Module Sort.

Section Insertion.

Variable A : Type.
Variable leb : A -> A -> bool.

Fixpoint insert (x : A) (l : list A) : list A :=
  match l with
  | [] => [x]
  | y :: l' => if leb x y then x :: l else y :: insert x l'
  end.

Fixpoint sorted (l : list A) : list A :=
  match l with
  | [] => []
  | x :: l' => insert x (sorted l')
  end.

End Insertion.

Definition leb_of {A} (cmp : A -> A -> comparison) (x y : A) : bool :=
  match cmp x y with Gt => false | _ => true end.

(** Paths compare as the lists of their components, strings by code point. *)
Fixpoint path_compare (p q : list string) : comparison :=
  match p, q with
  | [], [] => Eq
  | [], _ :: _ => Lt
  | _ :: _, [] => Gt
  | a :: p', b :: q' =>
      match String.compare a b with
      | Eq => path_compare p' q'
      | c => c
      end
  end.

(** Tuples compare component by component. *)
Definition pair_compare {A B} (ca : A -> A -> comparison) (cb : B -> B -> comparison)
  (x y : A * B) : comparison :=
  match ca (fst x) (fst y) with
  | Eq => cb (snd x) (snd y)
  | c => c
  end.

End Sort.

(* ================================================================= *)
(** ** Pair matcher: [pair_fastqs] (runner.py) *)

Module Pairing.

Import Str Re FS Sort.

(** [_R12], compiled with [re.IGNORECASE]. *)
Definition r12_re : regex :=
  (Group "base" (PlusLazy dot) >> lit "_" >> Opt (lit "R")
   >> Group "read" (Chr (oneof ["1"; "2"]%char))
   >> Opt (Opt (Chr (oneof ["_"; "-"]%char)) >> Plus digit)
   >> lit ".fastq.gz" >> Eos)%re.

(** The pairing key: (directory, base). *)
Definition key : Type := Path * string.

Definition key_eqb (k1 k2 : key) : bool :=
  path_eqb (fst k1) (fst k2) && String.eqb (snd k1) (snd k2).

Definition key_compare : key -> key -> comparison :=
  pair_compare path_compare String.compare.

Definition item_compare : key * Path -> key * Path -> comparison :=
  pair_compare key_compare path_compare.

(** A [dict] in insertion order. *)
Definition dict : Type := list (key * Path).

Fixpoint get (k : key) (d : dict) : option Path :=
  match d with
  | [] => None
  | (k', v) :: d' => if key_eqb k' k then Some v else get k d'
  end.

(** [d.setdefault(k, v)] *)
Definition setdefault (k : key) (v : Path) (d : dict) : dict :=
  match get k d with
  | Some _ => d
  | None => d ++ [(k, v)]
  end.

(** One turn of the first loop of [pair_fastqs]. *)
Definition scan (maps : dict * dict) (p : Path) : dict * dict :=
  match re_match r12_re (name p) with
  | None => maps
  | Some m =>
      match group m "base", group m "read" with
      | Some base, Some read =>
          let k := (parent p, base) in
          if String.eqb read "1"
          then (setdefault k p (fst maps), snd maps)
          else (fst maps, setdefault k p (snd maps))
      | _, _ => maps   (* both groups take part in every match *)
      end
  end.

Definition scan_all (fs : node) (root : Path) : dict * dict :=
  fold_left scan (sorted (leb_of path_compare) (rglob fs root fastq_gz)) ([], []).

Definition pair_fastqs (fs : node) (root : Path)
  : list (string * Path * option Path) :=
  let maps := scan_all fs root in
  map (fun item : key * Path =>
         let key := fst item in
         let r1 := snd item in
         let base := snd key in
         let r2 := get key (snd maps) in
         let sample_name := base in
         (sample_name, r1, r2))
      (sorted (leb_of item_compare) (fst maps)).

(** The key under which an entry of the result was paired. *)
Definition key_of (e : string * Path * option Path) : key :=
  (parent (snd (fst e)), fst (fst e)).

(** What a file name has to look like to be filed under a base with a read
    index. *)
Definition reads_as (p : Path) (base read : string) : Prop :=
  exists m, re_match r12_re (name p) = Some m /\
            group m "base" = Some base /\ group m "read" = Some read.

(** What the two maps hold while the files are scanned. *)
Definition scanned (files : list Path) (maps : dict * dict) : Prop :=
  NoDup (map fst (fst maps)) /\
  (forall k v, In (k, v) (fst maps) ->
     In v files /\ fst k = parent v /\ reads_as v (snd k) "1") /\
  (forall k v, In (k, v) (snd maps) ->
     In v files /\ fst k = parent v /\ reads_as v (snd k) "2").

End Pairing.

(* ================================================================= *)
(** ** Job orchestrator: [run_crispresso_parallel] (runner.py) *)

Module Runner.

Import Str FS.

(** What the function is called with, besides the pairs. *)
Record config : Type := {
  amplicon : string;
  guide : string;
  coding_seq : string;
  out_root : Path;
  threads_per_sample : Z;
  parallel_samples : Z;
  extra_args : string;
  default_min_aln_score : Z;
  plot_window_size : Z
}.

(** What the jobs meet outside the program: the directories that exist,
    whether a directory can be made, how [shlex.split] reads the extra
    arguments, and what the external tool does for the n-th job: it cannot
    be started ([Raise]) or it ends with an exit code and its output. *)
Record world : Type := {
  path_exists : Path -> bool;
  mkdir : Path -> res unit;
  shlex_split : string -> res (list string);
  subprocess_run : nat -> list string -> res (Z * string)
}.

Definition job_result : Type := string * Z * string * Path.

Definition nonempty (s : string) : bool :=
  match s with EmptyString => false | _ => true end.

Section Jobs.

Variable w : world.
Variable cfg : config.

(** The inner function [one], for the job submitted as number [i]. *)
Definition one (i : nat) (sample : string) (r1 : Path) (r2 : option Path)
  : res job_result :=
  let parent_ := parent r1 in
  let rep := if path_exists w (parent parent_) then name (parent parent_) else "" in
  let sample_out :=
    if startswith rep "Replica-"
    then out_root cfg ++ [rep; name parent_; sample]
    else out_root cfg ++ [sample] in
  _ <- mkdir w sample_out ;;
  let cmd :=
    ["CRISPResso";
     "-r1"; str_of_path r1;
     "-a"; amplicon cfg;
     "-g"; guide cfg;
     "-o"; str_of_path sample_out;
     "--n_processes"; str_of_int (threads_per_sample cfg)] in
  let cmd :=
    match r2 with
    | Some p => cmd ++ ["-r2"; str_of_path p]
    | None => cmd
    end in
  let cmd :=
    if nonempty (coding_seq cfg) then cmd ++ ["--coding_seq"; coding_seq cfg] else cmd in
  let cmd :=
    cmd ++ ["--default_min_aln_score"; str_of_int (default_min_aln_score cfg);
            "--plot_window_size"; str_of_int (plot_window_size cfg)] in
  cmd <- (if nonempty (extra_args cfg)
          then extra <- shlex_split w (extra_args cfg) ;; Ok (cmd ++ extra)
          else Ok cmd) ;;
  proc <- subprocess_run w i cmd ;;
  Ok (sample, fst proc, snd proc, sample_out).

(** The futures, in the order of submission. *)
Fixpoint submit_from (i : nat) (pairs : list (string * Path * option Path))
  : list (res job_result) :=
  match pairs with
  | [] => []
  | (s, r1, r2) :: pairs' => one i s r1 r2 :: submit_from (S i) pairs'
  end.

Definition error_line (sample : string) : string :=
  ("[ERROR] " ++ sample ++ " failed.")%string.

Definition completed_line (n : nat) : string :=
  ("All CRISPResso2 jobs completed (" ++ str_of_int (Z.of_nat n) ++ " samples).")%string.

(** How a generator ends. *)
Inductive ending : Type :=
| Finished
| Raised (e : exn).

(** The loop over [as_completed(futs)]: the futures come in the order in
    which the jobs end; [fut.result()] raises what the job raised. *)
Fixpoint drain (futs : list (res job_result)) (order : list nat)
  : list string * ending :=
  match order with
  | [] => ([], Finished)
  | i :: order' =>
      match nth_error futs i with
      | Some (Ok (sample, code, _, _)) =>
          let rest := drain futs order' in
          ((if Z.eqb code 0 then [] else [error_line sample]) ++ fst rest, snd rest)
      | Some (Raise e) => ([], Raised e)
      | None => drain futs order'
      end
  end.

(** The lines the generator yields and how it ends, when the jobs end in
    the order [order]. *)
Definition run_crispresso_parallel
  (pairs : list (string * Path * option Path)) (order : list nat)
  : list string * ending :=
  match mkdir w (out_root cfg) with
  | Raise e => ([], Raised e)
  | Ok _ =>
      if (parallel_samples cfg <=? 0)%Z then ([], Raised ValueError)
      else
        let futs := submit_from 0 pairs in
        match drain futs order with
        | (lines, Finished) => (lines ++ [completed_line (List.length pairs)], Finished)
        | (lines, Raised e) => (lines, Raised e)
        end
  end.


End Jobs.




Definition sample_config : config :=
  {| amplicon := "ACGT"; guide := "AC"; coding_seq := ""; out_root := ["out"];
     threads_per_sample := 4; parallel_samples := 4; extra_args := "";
     default_min_aln_score := 60; plot_window_size := 20 |}.


End Runner.

(* ================================================================= *)
(** ** Report parser: [process_treatment_folder] (utils.py) *)

Module Report.

Import Str FS Sort.

(** A value of a record or of a table: [None], a text or a number. *)
Inductive cell : Type :=
| CNone
| CStr (s : string)
| CNum (x : float).

(** What the functions of [modules/parser.py] return. *)
Record modif_data : Type := {
  wt_unmodified_percent : cell;
  unmodified_reads : cell;
  indel_percent : cell;
  modified_reads : cell
}.

Record frame_data : Type := {
  frameshift_percent : cell;
  frameshift_reads : cell;
  inframe_percent : cell;
  inframe_reads : cell
}.

Record mut_wt_data : Type := {
  mut_percent : cell;
  mut_reads : cell;
  wt_percent : cell;
  wt_reads : cell;
  mut_wt_percent : cell
}.

(** The functions of [modules/parser.py] are parameters of the model: each
    is a function of the tree and of its arguments that returns a value or
    raises. *)
Record parser_module : Type := {
  get_total_reads : node -> Path -> res cell;
  get_modif_reads : node -> Path -> cell -> res modif_data;
  get_frame_reads : node -> Path -> cell -> res frame_data;
  get_mut_wt_reads : node -> Path -> string -> string -> string -> cell -> res mut_wt_data
}.

(** [fnmatch] of a name against [prefix*suffix]; [glob] leaves out the names
    that start with a dot. *)
Definition wildcard (prefix suffix name : string) : bool :=
  negb (startswith name ".")
  && startswith name prefix && endswith name suffix
  && (String.length prefix + String.length suffix <=? String.length name)%nat.

(** [glob.glob(os.path.join(dir, prefix + "*" + suffix))], for a directory
    whose name has no wildcard in it. *)
Definition glob (fs : node) (dir : Path) (prefix suffix : string) : list Path :=
  match lookup fs dir with
  | Some (Dir es) =>
      map (fun e => dir ++ [fst e]) (filter (fun e => wildcard prefix suffix (fst e)) es)
  | _ => []
  end.

Definition RUNNING_LOG : string := "CRISPResso_RUNNING_LOG.txt".
Definition MAPPING_STATISTICS : string := "CRISPResso_mapping_statistics.txt".
Definition QUANTIFICATION : string := "CRISPResso_quantification_of_editing_frequency.txt".
Definition FRAMESHIFT : string := "Frameshift_analysis.txt".

(** The directory that holds the outputs: the folder itself when the
    running log is in it, else the directory of the first running log that
    [rglob] finds below it. *)
Definition actual_dir_of (fs : node) (treatment_path : Path) : option Path :=
  let direct_log := treatment_path ++ [RUNNING_LOG] in
  if negb (exists_ fs direct_log) then
    match rglob fs treatment_path (String.eqb RUNNING_LOG) with
    | p :: _ => Some (parent p)
    | [] => None
    end
  else Some treatment_path.

(** The matches of the three patterns of the allele frequency table, one
    pattern after the other. *)
Definition allele_matches (fs : node) (actual_dir : Path) : list Path :=
  glob fs actual_dir "Alleles_frequency_table_around_sgRNA_" ".txt"
  ++ glob fs actual_dir "Alleles_frequency_table_around_cut_site_" ".txt"
  ++ glob fs actual_dir "Alleles_frequency_table" ".txt".

(** A record: the keys of the [dict] in the order they are written. *)
Definition record : Type := list (string * cell).

Definition process_treatment_folder (parser : parser_module) (fs : node)
  (treatment_path : Path) (wt_seq mut_seq amplicon_seq : string)
  : res (option record) :=
  match actual_dir_of fs treatment_path with
  | None => Ok None
  | Some actual_dir =>
      let map_stat_path := actual_dir ++ [MAPPING_STATISTICS] in
      let quant_edit_path := actual_dir ++ [QUANTIFICATION] in
      let frameshift_path := actual_dir ++ [FRAMESHIFT] in
      let sample_dir :=
        if startswith (name actual_dir) "CRISPResso_on_"
        then parent actual_dir else actual_dir in
      let html_matches :=
        sorted (leb_of path_compare) (glob fs sample_dir "CRISPResso_on_" ".html") in
      let report_html :=
        match html_matches with
        | p :: _ => CStr (str_of_path p)
        | [] => CNone
        end in
      match sorted (leb_of path_compare) (allele_matches fs actual_dir) with
      | [] => Ok None
      | alleles_path :: _ =>
          let required_paths :=
            [map_stat_path; quant_edit_path; frameshift_path; alleles_path] in
          if negb (forallb (exists_ fs) required_paths) then Ok None
          else
            total_reads <- get_total_reads parser fs map_stat_path ;;
            modif <- get_modif_reads parser fs quant_edit_path total_reads ;;
            frame <- get_frame_reads parser fs frameshift_path total_reads ;;
            mut_wt <- get_mut_wt_reads parser fs alleles_path wt_seq mut_seq
                        amplicon_seq total_reads ;;
            Ok (Some
              [("Treatment", CStr (name treatment_path));
               ("WT/Unmodified%", wt_unmodified_percent modif);
               ("Reads (WT/Unmodified)", unmodified_reads modif);
               ("MUT%", mut_percent mut_wt);
               ("Reads (MUT)", mut_reads mut_wt);
               ("WT*%", wt_percent mut_wt);
               ("Reads (WT*)", wt_reads mut_wt);
               ("Frameshift%", frameshift_percent frame);
               ("Reads (Frameshift)", frameshift_reads frame);
               ("In-frame%", inframe_percent frame);
               ("Reads (In-frame)", inframe_reads frame);
               ("Indel%", indel_percent modif);
               ("Reads (Modified)", modified_reads modif);
               ("MUT/WT*%", mut_wt_percent mut_wt);
               ("Total Reads", total_reads);
               ("ReportPath", report_html)])
      end
  end.






End Report.

(* ================================================================= *)
(** ** Tables: the part of [pandas] the aggregator uses *)

Module Frame.

Import Str Report.
Local Open Scope float_scope.

(** A [DataFrame] on the default index: the number of rows and the columns
    in order, each with one cell per row. *)
Record DataFrame : Type := {
  nrows : nat;
  cols : list (string * list cell)
}.

(** [pd.DataFrame()] *)
Definition empty_frame : DataFrame := {| nrows := 0; cols := [] |}.

(** [df.empty], [df.columns], [len(df)] *)
Definition is_empty (df : DataFrame) : bool :=
  (nrows df =? 0)%nat || match cols df with [] => true | _ => false end.

Definition columns (df : DataFrame) : list string := map fst (cols df).

Definition has_column (df : DataFrame) (name : string) : bool :=
  existsb (String.eqb name) (columns df).

Fixpoint find_column (name : string) (cs : list (string * list cell))
  : option (list cell) :=
  match cs with
  | [] => None
  | (k, v) :: cs' => if String.eqb k name then Some v else find_column name cs'
  end.

(** [df[name]] *)
Definition getitem (df : DataFrame) (name : string) : res (list cell) :=
  match find_column name (cols df) with
  | Some v => Ok v
  | None => Raise KeyError
  end.

Definition is_num (c : cell) : bool := match c with CNum _ => true | _ => false end.
Definition is_str (c : cell) : bool := match c with CStr _ => true | _ => false end.

(** The column [pandas] makes of a list of values: among numbers a [None]
    becomes NaN; a column without numbers or with a text stays as it is. *)
Definition infer (l : list cell) : list cell :=
  if existsb is_num l && negb (existsb is_str l)
  then map (fun c => match c with CNone => CNum nan | _ => c end) l
  else l.

Fixpoint record_get (k : string) (r : record) : option cell :=
  match r with
  | [] => None
  | (k', v) :: r' => if String.eqb k' k then Some v else record_get k r'
  end.

(** The keys of the records, each once, in the order they first appear. *)
Fixpoint keys_of (rows : list record) (seen : list string) : list string :=
  match rows with
  | [] => seen
  | r :: rows' =>
      keys_of rows'
        (fold_left (fun acc kv => if existsb (String.eqb (fst kv)) acc
                                  then acc else acc ++ [fst kv]) r seen)
  end.

(** [pd.DataFrame(rows)] for a list of [dict]s. *)
Definition of_records (rows : list record) : DataFrame :=
  {| nrows := List.length rows;
     cols := map (fun k =>
                    (k, infer (map (fun r => match record_get k r with
                                             | Some v => v
                                             | None => CNum nan
                                             end) rows)))
                 (keys_of rows []) |}.

Fixpoint set_in (name : string) (v : list cell) (cs : list (string * list cell))
  : list (string * list cell) :=
  match cs with
  | [] => [(name, v)]
  | (k, w) :: cs' => if String.eqb k name then (k, v) :: cs' else (k, w) :: set_in name v cs'
  end.

(** [df[name] = series] for a series on the default index: the rows the
    series does not reach are NaN. *)
Definition setitem (df : DataFrame) (name : string) (series : list cell) : DataFrame :=
  let v := firstn (nrows df) (series ++ repeat (CNum nan) (nrows df)) in
  {| nrows := nrows df; cols := set_in name v (cols df) |}.

(** [df[name] = value] for one value *)
Definition setitem_scalar (df : DataFrame) (name : string) (value : cell) : DataFrame :=
  {| nrows := nrows df; cols := set_in name (repeat value (nrows df)) (cols df) |}.

(** [df.insert(0, name, value)] *)
Definition insert_first (df : DataFrame) (name : string) (value : cell) : res DataFrame :=
  if has_column df name then Raise ValueError
  else Ok {| nrows := nrows df; cols := (name, repeat value (nrows df)) :: cols df |}.

(** [df.loc[:, names]] *)
Fixpoint select_columns (cs : list (string * list cell)) (names : list string)
  : res (list (string * list cell)) :=
  match names with
  | [] => Ok []
  | n :: names' =>
      match find_column n cs with
      | Some v => rest <- select_columns cs names' ;; Ok ((n, v) :: rest)
      | None => Raise KeyError
      end
  end.

Definition loc_columns (df : DataFrame) (names : list string) : res DataFrame :=
  cs <- select_columns (cols df) names ;; Ok {| nrows := nrows df; cols := cs |}.

(** [df.drop(columns=[name])] *)
Definition drop_column (df : DataFrame) (name : string) : res DataFrame :=
  if has_column df name
  then Ok {| nrows := nrows df;
             cols := filter (fun c => negb (String.eqb (fst c) name)) (cols df) |}
  else Raise KeyError.

(** The cells of a column at the rows a mask keeps. *)
Fixpoint keep (mask : list bool) (l : list cell) : list cell :=
  match mask, l with
  | true :: mask', c :: l' => c :: keep mask' l'
  | false :: mask', _ :: l' => keep mask' l'
  | _, _ => []
  end.

(** [df[mask]] *)
Definition where_ (df : DataFrame) (mask : list bool) : DataFrame :=
  {| nrows := List.length (filter (fun b => b) (firstn (nrows df) mask));
     cols := map (fun c => (fst c, keep mask (snd c))) (cols df) |}.

(** [float(v)]: a number as it is; [None] raises; a text raises unless it
    spells a number, which no column of metrics holds. *)
Definition to_float (c : cell) : res float :=
  match c with
  | CNum x => Ok x
  | CNone => Raise TypeError
  | CStr _ => Raise ValueError
  end.

(** [series.astype(float)]: as [float], but [None] becomes NaN. *)
Fixpoint astype_float (l : list cell) : res (list float) :=
  match l with
  | [] => Ok []
  | c :: l' =>
      x <- match c with CNone => Ok nan | _ => to_float c end ;;
      rest <- astype_float l' ;;
      Ok (x :: rest)
  end.

(** [series == text], cell by cell *)
Definition eq_str (s : string) (c : cell) : bool :=
  match c with
  | CStr t => String.eqb t s
  | _ => false
  end.

(** [series.astype(str).str.startswith(pref)] for a prefix that starts with
    a capital letter: the text of [None] is ["None"], and the text of a
    number starts with a digit, a sign or a small letter. *)
Definition text_startswith (pref : string) (c : cell) : bool :=
  match c with
  | CStr t => startswith t pref
  | CNone => startswith "None" pref
  | CNum _ => false
  end.

Definition two52 : float := 0x1p52.

(** Rounding to the nearest integer, ties to even, as [numpy.rint]: below
    2^52 adding and taking away 2^52 rounds; from 2^52 on every number is an
    integer. *)
Definition rint (x : float) : float :=
  if abs x <? two52 then
    if x <? 0 then - ((- x + two52) - two52)
    else if 0 <? x then (x + two52) - two52
    else x
  else x.

(** [round(x, 2)] on the values of a series: [numpy] scales by 100, rounds
    to the nearest integer and scales back. *)
Definition round2 (x : float) : float := rint (x * 100) / 100.

End Frame.

(* ================================================================= *)
(** ** Aggregator: [calculate_sensitivity], [build_dfs_by_replicate] (utils.py) *)

Module Aggregate.

Import Str FS Report Frame.
Local Open Scope float_scope.

(** [pd.Series([None] * len(df))] *)
Definition nulls (df : DataFrame) : list cell := repeat CNone (nrows df).

Definition calculate_sensitivity (df : DataFrame) (column : string)
  (reference_day : option Z) (reference_treatment : option string)
  : res (list cell) :=
  if is_empty df || negb (has_column df column) then Ok []
  else
    base <-
      match reference_treatment with
      | Some t =>
          treatment <- getitem df "Treatment" ;;
          let sel := where_ df (map (eq_str t) treatment) in
          if is_empty sel then Ok None
          else
            c <- getitem sel column ;;
            x <- to_float (hd CNone c) ;;
            Ok (Some x)
      | None =>
          match reference_day with
          | None =>
              c <- getitem df column ;;
              x <- to_float (hd CNone c) ;;
              Ok (Some x)
          | Some day =>
              let pref := ("Day" ++ str_of_int day ++ "_")%string in
              treatment <- getitem df "Treatment" ;;
              let sel := where_ df (map (text_startswith pref) treatment) in
              let untreated := ("Day" ++ str_of_int day ++ "_untreated")%string in
              let sel :=
                if existsb (eq_str untreated) treatment
                then where_ df (map (eq_str untreated) treatment)
                else sel in
              if is_empty sel then Ok None
              else
                c <- getitem sel column ;;
                x <- to_float (hd CNone c) ;;
                Ok (Some x)
          end
      end ;;
    match base with
    | None => Ok (nulls df)
    | Some base_value =>
        if base_value =? 0 then Ok (nulls df)
        else
          c <- getitem df column ;;
          v <- astype_float c ;;
          Ok (map (fun x => CNum (round2 (x / base_value * 100))) v)
    end.

(** The first position of a list at which a test holds. *)
Fixpoint find_index {A} (P : A -> bool) (l : list A) : option nat :=
  match l with
  | [] => None
  | a :: l' => if P a then Some 0%nat else option_map S (find_index P l')
  end.

(** The reference row of a table, from its column of treatments: the first
    row of the reference treatment when one is given; else, when a
    reference day is given, the first row [Day<N>_untreated] or, without
    one, the first row whose treatment starts with [Day<N>_]; else the
    first row. *)
Definition reference_row (treatments : list cell)
  (reference_day : option Z) (reference_treatment : option string) : option nat :=
  match reference_treatment with
  | Some t => find_index (eq_str t) treatments
  | None =>
      match reference_day with
      | None => Some 0%nat
      | Some day =>
          match find_index (eq_str ("Day" ++ str_of_int day ++ "_untreated")%string)
                  treatments with
          | Some i => Some i
          | None =>
              find_index (text_startswith ("Day" ++ str_of_int day ++ "_")%string)
                treatments
          end
      end
  end.

(** The reference row as the specification words it: with a reference day
    only a row [Day<N>_untreated] will do. *)
Definition claimed_reference_row (treatments : list cell)
  (reference_day : option Z) (reference_treatment : option string) : option nat :=
  match reference_treatment with
  | Some t => find_index (eq_str t) treatments
  | None =>
      match reference_day with
      | None => Some 0%nat
      | Some day =>
          find_index (eq_str ("Day" ++ str_of_int day ++ "_untreated")%string) treatments
      end
  end.

(** The sensitivities of a column of ratios against a reference value. *)
Definition scaled (base_value : float) (values : list float) : list cell :=
  map (fun x => CNum (round2 (x / base_value * 100))) values.

(** A number other than zero, the infinities and NaN. *)
Definition finite_nonzero (x : float) : Prop :=
  exists s m e, Prim2SF x = S754_finite s m e.

(** The [dict] of tables, by replicate. *)
Fixpoint dict_set (k : string) (v : DataFrame) (d : list (string * DataFrame))
  : list (string * DataFrame) :=
  match d with
  | [] => [(k, v)]
  | (k', w) :: d' => if String.eqb k' k then (k', v) :: d' else (k', w) :: dict_set k v d'
  end.

(** [[d for d in rep_path.iterdir() if d.is_dir()]] *)
Definition subdirs_of (fs : node) (rep_path : Path) : list Path :=
  match lookup fs rep_path with
  | Some (Dir es) =>
      filter (is_dir fs) (map (fun e => rep_path ++ [fst e]) es)
  | _ => []
  end.

(** Truthiness of a record or [None]. *)
Definition some_record (data : option record) : option record :=
  match data with
  | Some (kv :: r) => Some (kv :: r)
  | _ => None
  end.

(** [if "ReportPath" in df.columns: df = df.drop(columns=["ReportPath"])] *)
Definition without_report_path (df : DataFrame) : res DataFrame :=
  if has_column df "ReportPath" then drop_column df "ReportPath" else Ok df.

Section Build.

Variable parser : parser_module.
Variable fs : node.
Variable out_root : Path.
Variables wt_seq mut_seq amplicon_seq : string.
Variable reference_day : option Z.
Variable reference_treatment : option string.

(** The loop over the treatment folders of a replicate. *)
Fixpoint collect_rows (subdirs : list Path) (rows : list record) : res (list record) :=
  match subdirs with
  | [] => Ok rows
  | t :: subdirs' =>
      d <- process_treatment_folder parser fs t wt_seq mut_seq amplicon_seq ;;
      match some_record d with
      | Some r => collect_rows subdirs' (rows ++ [r])
      | None => collect_rows subdirs' rows
      end
  end.

(** One turn of the loop of [build_dfs_by_replicate]: the table of [rep]. *)
Definition build_one (rep : string) : res DataFrame :=
  let rep_path := out_root ++ [rep] in
  if negb (is_dir fs rep_path) then Ok empty_frame
  else
    match subdirs_of fs rep_path with
    | [] =>
        data <- process_treatment_folder parser fs rep_path wt_seq mut_seq amplicon_seq ;;
        match some_record data with
        | None => Ok empty_frame
        | Some data =>
            let df := of_records [data] in
            sens <- calculate_sensitivity df "MUT/WT*%" reference_day reference_treatment ;;
            let df := setitem df "Sensitivity" sens in
            let df := setitem_scalar df "Replicate" (CStr rep) in
            let cols_ :=
              "Replicate"
              :: filter (fun c => negb (String.eqb c "Replicate")) (columns df) in
            df <- loc_columns df cols_ ;;
            without_report_path df
        end
    | subdirs =>
        rows <- collect_rows subdirs [] ;;
        match rows with
        | [] => Ok empty_frame
        | _ =>
            let df := of_records rows in
            sens <- calculate_sensitivity df "MUT/WT*%" reference_day reference_treatment ;;
            let df := setitem df "Sensitivity" sens in
            df <- insert_first df "Replicate" (CStr rep) ;;
            without_report_path df
        end
    end.

Definition build_dfs_by_replicate (samples : list string)
  : res (list (string * DataFrame)) :=
  for_each (fun dfs rep => df <- build_one rep ;; Ok (dict_set rep df dfs)) samples [].

End Build.

(** The table of a replicate from treatment names and their ratios. *)
Definition ratios (rows : list (string * float)) : DataFrame :=
  of_records
    (map (fun r => [("Treatment", CStr (fst r)); ("MUT/WT*%", CNum (snd r))]) rows).

(** An output tree with one replicate of two treatments. *)
Definition sample_outputs : node :=
  let result :=
    Dir [("CRISPResso_RUNNING_LOG.txt", File "");
         ("CRISPResso_mapping_statistics.txt", File "");
         ("CRISPResso_quantification_of_editing_frequency.txt", File "");
         ("Frameshift_analysis.txt", File "");
         ("Alleles_frequency_table_around_sgRNA_ACGT.txt", File "")] in
  Dir [("out",
        Dir [("Replica-1",
              Dir [("Day0_untreated", Dir [("A", Dir [("CRISPResso_on_A", result);
                                                      ("CRISPResso_on_A.html", File "")])]);
                   ("Day3_druga", Dir [("B", Dir [("CRISPResso_on_B", result)])])])])].

Definition sample_parser : parser_module :=
  {| get_total_reads := fun _ _ => Ok (CNum 1000);
     get_modif_reads := fun _ _ _ => Ok (Build_modif_data (CNum 90) (CNum 900) (CNum 10) (CNum 100));
     get_frame_reads := fun _ _ _ => Ok (Build_frame_data (CNum 5) (CNum 50) (CNum 5) (CNum 50));
     get_mut_wt_reads := fun _ _ _ _ _ _ =>
       Ok (Build_mut_wt_data (CNum 20) (CNum 200) (CNum 60) (CNum 600) (CNum 25)) |}.

(** The tables of the sample outputs. *)
Definition sample_tables : list (string * DataFrame) :=
  Eval vm_compute in
    match build_dfs_by_replicate sample_parser sample_outputs ["out"] "" "" ""
            None (Some "Day0_untreated") ["Replica-1"; "Replica-2"] with
    | Ok dfs => dfs
    | Raise _ => []
    end.

End Aggregate.

(* ================================================================= *)
(** ** Discovery of the outputs: [list_replicates_from_outputs],
       [list_treatments_from_outputs] (utils.py) *)

Module Listing.

Import Str FS Sort.

(** [list(p.iterdir())]: the entries of a directory in the order the system
    reports them; a missing path and a file raise. *)
Definition iterdir (fs : node) (p : Path) : res (list Path) :=
  match lookup fs p with
  | Some (Dir es) => Ok (map (fun e => p ++ [fst e]) es)
  | Some (File _) => Raise NotADirectoryError
  | None => Raise FileNotFoundError
  end.

(** [sorted] on strings: by code point. *)
Definition sorted_names (l : list string) : list string :=
  sorted (leb_of String.compare) l.

(** [p.is_dir() and p.name.startswith("Replica-")] *)
Definition is_replica_dir (fs : node) (p : Path) : bool :=
  is_dir fs p && startswith (name p) "Replica-".

Definition list_replicates_from_outputs (fs : node) (outputs_root : Path)
  : res (list string) :=
  let root := outputs_root in
  ps <- iterdir fs root ;;
  let reps := sorted_names (map name (filter (is_replica_dir fs) ps)) in
  match reps with
  | _ :: _ => Ok reps
  | [] =>
      ps <- iterdir fs root ;;
      Ok (sorted_names (map name (filter (is_dir fs) ps)))
  end.

(** A [set] of strings, as the list of its elements in the order they were
    added; [sorted] makes the same list of a set whatever the order in which
    the set hands out its elements. *)
Definition set_add (x : string) (s : list string) : list string :=
  if existsb (String.eqb x) s then s else s ++ [x].

(** The inner loop of [list_treatments_from_outputs] over one replicate. *)
Definition add_treatments (fs : node) (names : list string) (r : Path)
  : res (list string) :=
  ts <- iterdir fs r ;;
  Ok (fold_left (fun names t => if is_dir fs t then set_add (name t) names else names)
        ts names).

Definition list_treatments_from_outputs (fs : node) (outputs_root : Path)
  : res (list string) :=
  let root := outputs_root in
  ps <- iterdir fs root ;;
  let reps := filter (is_replica_dir fs) ps in
  names <- for_each (add_treatments fs) reps [] ;;
  match names with
  | _ :: _ => Ok (sorted_names names)
  | [] =>
      ps <- iterdir fs root ;;
      let names := fold_left (fun names p => set_add (name p) names)
                     (filter (is_dir fs) ps) [] in
      Ok (sorted_names names)
  end.

End Listing.

(* ================================================================= *)
(** ** How the pair matcher files a path *)

Module Filing.

Import Str Re FS Sort Pairing.

(** Whether [scan] files a path under a key: in the first map ([first]) when
    the read index is 1, in the second map otherwise. *)
Definition filed_under (first : bool) (k : key) (p : Path) : bool :=
  match re_match r12_re (name p) with
  | None => false
  | Some m =>
      match group m "base", group m "read" with
      | Some base, Some read =>
          key_eqb (parent p, base) k && Bool.eqb (String.eqb read "1") first
      | _, _ => false
      end
  end.

End Filing.

(* ================================================================= *)
(** ** Jobs on an organised upload *)

Module Organised.

Import FS Runner.

(** A world whose directories are those of a tree, in which every directory
    can be made and every job ends with exit code 0. *)
Definition tree_world (fs : node) : world :=
  {| path_exists := exists_ fs;
     mkdir := fun _ => Ok tt;
     shlex_split := fun _ => Ok [];
     subprocess_run := fun _ _ => Ok (0%Z, "") |}.

(** An organised upload of two samples. *)
Definition two_samples : node :=
  Dir [("tmp",
        Dir [("Replica-1",
              Dir [("Day1_a", Dir [("Day1_v_a_1_R1.fastq.gz", File "x")])]);
             ("Replica-2",
              Dir [("Day1_a", Dir [("Day1_v_a_2_R1.fastq.gz", File "y")])])])].

(** An upload of one read file, before and after its move. *)
Definition one_file : node :=
  Dir [("tmp", Dir [("raw", Dir [("Day1_v_DrugA_2_S1_R1_001.fastq.gz", File "a")])])].

Definition one_file_moved : node :=
  Dir [("tmp",
        Dir [("raw", Dir []);
             ("Replica-2",
              Dir [("Day1_druga",
                    Dir [("Day1_v_DrugA_2_S1_R1_001.fastq.gz", File "a")])])])].

End Organised.

(* ================================================================= *)
(** ** The tables of the replicates, as [build_dfs_by_replicate] makes them *)

Module Tables.

Import Str FS Report Frame Aggregate.

(** [x in l] for strings *)
Definition mem (x : string) (l : list string) : bool := existsb (String.eqb x) l.

(** The values of a list, each once, in the order they first appear: the
    keys of a [dict] filled in that order, and [list(pd.unique(series))]. *)
Definition unique (l : list string) : list string :=
  fold_left (fun seen t => if mem t seen then seen else seen ++ [t]) l [].

(** The keys of a record of [process_treatment_folder]. *)
Definition record_keys : list string :=
  ["Treatment"; "WT/Unmodified%"; "Reads (WT/Unmodified)"; "MUT%"; "Reads (MUT)";
   "WT*%"; "Reads (WT*)"; "Frameshift%"; "Reads (Frameshift)"; "In-frame%";
   "Reads (In-frame)"; "Indel%"; "Reads (Modified)"; "MUT/WT*%"; "Total Reads";
   "ReportPath"].

(** The columns of a table that is not empty. *)
Definition table_columns : list string :=
  ["Replicate"; "Treatment"; "WT/Unmodified%"; "Reads (WT/Unmodified)"; "MUT%";
   "Reads (MUT)"; "WT*%"; "Reads (WT*)"; "Frameshift%"; "Reads (Frameshift)";
   "In-frame%"; "Reads (In-frame)"; "Indel%"; "Reads (Modified)"; "MUT/WT*%";
   "Total Reads"; "Sensitivity"].

(** The value of a key in a record, as [pd.DataFrame] reads it. *)
Definition field (k : string) (r : record) : cell :=
  match record_get k r with
  | Some v => v
  | None => CNum nan
  end.

Section Folders.

Variable parser : parser_module.
Variable fs : node.
Variable out_root : Path.
Variables wt_seq mut_seq amplicon_seq : string.

(** Whether a folder gives a record. *)
Definition yields (t : Path) : bool :=
  match process_treatment_folder parser fs t wt_seq mut_seq amplicon_seq with
  | Ok d => match some_record d with Some _ => true | None => false end
  | Raise _ => false
  end.

(** The folders [build_dfs_by_replicate] reads for a replicate: its
    sub-directories, the folder itself when it has none, and nothing when
    it is no directory. *)
Definition treatment_folders (rep : string) : list Path :=
  let rep_path := out_root ++ [rep] in
  if is_dir fs rep_path then
    match subdirs_of fs rep_path with
    | [] => [rep_path]
    | subdirs => subdirs
    end
  else [].

End Folders.

(** The table of the first replicate of the sample outputs, against a
    reference treatment it holds and against one that it does not hold. *)
Definition sample_table : DataFrame :=
  Eval vm_compute in
    match build_one sample_parser sample_outputs ["out"] "" "" ""
            None (Some "Day0_untreated") "Replica-1" with
    | Ok df => df
    | Raise _ => empty_frame
    end.

Definition unreferenced_table : DataFrame :=
  Eval vm_compute in
    match build_one sample_parser sample_outputs ["out"] "" "" ""
            None (Some "Day9_none") "Replica-1" with
    | Ok df => df
    | Raise _ => empty_frame
    end.

End Tables.

(* ================================================================= *)
(** ** The helpers of the server (app.py) *)

Module App.

Import Str Report Frame Aggregate Tables.
Local Open Scope float_scope.

Definition newline : string := String (ascii_of_nat 10) EmptyString.

(** [_append_log]: the text of [run_messages] after the call, from the text
    before it. *)
Definition _append_log (current : string) (msg : string) : string :=
  let current := or_else (Some current) "" in
  (current ++ (if truthy (Some current) then newline else "") ++ msg)%string.

(** [_current_treatment_order].  What the inputs of the page hold is a
    parameter: [arr] is what the loop over the decoded drag-and-drop order
    meets (nothing when the input is missing or empty), and [pos i] is the
    value of the input [order_pos_<i>], [None] when reading it raises. *)
Definition _current_treatment_order (arr : list string) (pos : nat -> option string)
  (base : list string) : list string :=
  match base with
  | [] => []
  | _ :: _ =>
      let order :=
        fold_left (fun order t =>
                     if mem t base && negb (mem t order) then order ++ [t] else order)
          arr [] in
      let order :=
        match order with
        | [] =>
            fold_left (fun order i =>
                         let val := pos (i + 1)%nat in
                         if truthy val
                         then match val with
                              | Some v =>
                                  if mem v base && negb (mem v order)
                                  then order ++ [v] else order
                              | None => order
                              end
                         else order)
              (seq 0 (List.length base)) []
        | _ :: _ => order
        end in
      fold_left (fun order t => if negb (mem t order) then order ++ [t] else order)
        base order
  end.

(** [dfs[r]] for [r in dfs] *)
Fixpoint dict_get (k : string) (d : list (string * DataFrame)) : option DataFrame :=
  match d with
  | [] => None
  | (k', v) :: d' => if String.eqb k' k then Some v else dict_get k d'
  end.

(** The cells a frame gives to a column of a concatenation: its own, or NaN
    in each of its rows when it has no such column. *)
Definition column_or_nan (c : string) (df : DataFrame) : list cell :=
  match find_column c (cols df) with
  | Some v => v
  | None => repeat (CNum nan) (nrows df)
  end.

(** [pd.concat(frames, ignore_index=True)], for frames none of which has a
    column name twice: the columns of the frames, first seen first, and the
    rows of the frames one after the other. *)
Definition concat (frames : list DataFrame) : res DataFrame :=
  match frames with
  | [] => Raise ValueError
  | _ :: _ =>
      Ok {| nrows := list_sum (map nrows frames);
            cols := map (fun c => (c, flat_map (column_or_nan c) frames))
                      (unique (flat_map columns frames)) |}
  end.

(** [df.insert(0, name, series)] for a series on the index of the table *)
Definition insert_first_series (df : DataFrame) (name : string) (series : list cell)
  : res DataFrame :=
  if has_column df name then Raise ValueError
  else Ok {| nrows := nrows df; cols := (name, series) :: cols df |}.

(** [df_selected], from the tables by replicate and the replicates selected
    on the page (none when nothing is selected). *)
Definition df_selected (dfs : list (string * DataFrame)) (sel_replicas : list string)
  : res DataFrame :=
  let selected :=
    match sel_replicas with
    | [] => map fst dfs
    | _ :: _ => sel_replicas
    end in
  let frames :=
    flat_map (fun r => match dict_get r dfs with
                       | Some df => if negb (is_empty df) then [df] else []
                       | None => []
                       end) selected in
  match frames with
  | [] => Ok empty_frame
  | _ :: _ =>
      out <- concat frames ;;
      out <- (if negb (has_column out "Replicate") && has_column out "Sample"
              then sample <- getitem out "Sample" ;;
                   insert_first_series out "Replicate" sample
              else Ok out) ;;
      if has_column out "Replicate"
      then loc_columns out
             ("Replicate"
              :: filter (fun c => negb (String.eqb c "Replicate")) (columns out))
      else Ok out
  end.

End App.

(* ================================================================= *)
(** ** The order of the treatments on the axis of a plot (plots.py) *)

Module Plots.

Import Tables.

(** The treatments of [_grouped_barplot] and [make_sensitivity_plot], from
    the treatments present in the table and the order asked for. *)
Definition treatments_axis (present : list string) (treat_order : option (list string))
  : list string :=
  let treatments := present in
  match treat_order with
  | Some ((_ :: _) as treat_order) =>
      let present := treatments in
      filter (fun t => mem t present) treat_order
      ++ filter (fun t => negb (mem t treat_order)) present
  | _ => treatments
  end.

End Plots.

(* ================================================================= *)
(** * Properties *)

(** ** Strings and character lists *)

Section StrFacts.

Import Str.

Lemma to_chars_app (a b : string) :
  to_chars (a ++ b)%string = to_chars a ++ to_chars b.
Proof.
  induction a as [|x a IH]; simpl; [reflexivity|].
  unfold to_chars in *; simpl; now rewrite IH.
Qed.

Lemma of_chars_app (a b : chars) :
  of_chars (a ++ b) = (of_chars a ++ of_chars b)%string.
Proof.
  induction a as [|x a IH]; simpl; [reflexivity|].
  unfold of_chars in *; simpl; now rewrite IH.
Qed.

Lemma of_to_chars (s : string) : of_chars (to_chars s) = s.
Proof. apply string_of_list_ascii_of_string. Qed.

Lemma to_of_chars (s : chars) : to_chars (of_chars s) = s.
Proof. apply list_ascii_of_string_of_list_ascii. Qed.

Lemma of_chars_nil_iff (s : chars) : of_chars s = "" <-> s = [].
Proof.
  split; intros H; [|now subst].
  destruct s; [reflexivity|discriminate].
Qed.

Lemma lower_of_chars (s : chars) :
  lower (of_chars s) = of_chars (map lower_char s).
Proof.
  induction s as [|a s IH]; simpl; [reflexivity|].
  unfold of_chars in *; simpl; now rewrite IH.
Qed.

Lemma string_app_assoc (a b c : string) :
  ((a ++ b) ++ c = a ++ (b ++ c))%string.
Proof. induction a; simpl; congruence. Qed.

Lemma string_app_nil_r (a : string) : (a ++ "")%string = a.
Proof. induction a; simpl; congruence. Qed.

End StrFacts.

(** ** The enumeration of matches *)

Section ReFacts.

Import Str Re.

Lemma in_plus_greedy p s s' :
  In s' (plus_greedy p s) <->
  exists pre, pre <> [] /\ forallb p pre = true /\ s = pre ++ s'.
Proof.
  revert s'; induction s as [|a s IH]; intros s'; simpl.
  - split; [tauto|]. intros (pre & Hne & _ & E).
    destruct pre; [congruence|discriminate].
  - destruct (p a) eqn:Pa.
    + rewrite in_app_iff, IH. simpl. split.
      * intros [(pre & Hne & Hp & E)|[E|[]]].
        -- exists (a :: pre). simpl. rewrite Pa, Hp, E. now repeat split.
        -- subst. exists [a]. simpl. rewrite Pa. now repeat split.
      * intros (pre & Hne & Hp & E).
        destruct pre as [|b pre]; [congruence|].
        simpl in E. injection E as Ea Eb; subst. simpl in Hp.
        apply andb_true_iff in Hp as [_ Hp].
        destruct pre as [|b' pre']; [right; now left|].
        left. exists (b' :: pre'). now repeat split.
    + split; [intros []|]. intros (pre & Hne & Hp & E).
      destruct pre as [|b pre]; [congruence|].
      simpl in E. injection E as Ea Eb; subst. simpl in Hp. now rewrite Pa in Hp.
Qed.

Lemma in_plus_lazy p s s' :
  In s' (plus_lazy p s) <-> In s' (plus_greedy p s).
Proof.
  revert s'; induction s as [|a s IH]; intros s'; simpl; [tauto|].
  destruct (p a); [|tauto].
  rewrite in_app_iff. simpl. rewrite IH. tauto.
Qed.

Lemma span_app p s : fst (span p s) ++ snd (span p s) = s.
Proof. induction s as [|a s IH]; simpl; [reflexivity|]. destruct (p a); simpl; congruence. Qed.

Lemma span_all p s : forallb p (fst (span p s)) = true.
Proof. induction s as [|a s IH]; simpl; [reflexivity|]. destruct (p a) eqn:E; simpl; [now rewrite E|reflexivity]. Qed.

Lemma span_stop p s :
  match snd (span p s) with [] => True | a :: _ => p a = false end.
Proof. induction s as [|a s IH]; simpl; [exact I|]. destruct (p a) eqn:E; simpl; assumption. Qed.

(** The greedy enumeration starts with the longest run, and every other
    alternative gives some of the run back. *)
Lemma plus_greedy_shape p s :
  plus_greedy p s = [] /\ fst (span p s) = []
  \/ exists rest, plus_greedy p s = snd (span p s) :: rest /\
                  fst (span p s) <> [] /\
                  forall t, In t rest ->
                    exists x, x <> [] /\ forallb p x = true /\ t = x ++ snd (span p s).
Proof.
  induction s as [|a s IH]; simpl; [now left|].
  destruct (p a) eqn:Pa; [|now left]. right. simpl.
  destruct IH as [[E1 E2]|(rest & E1 & Hne & Hrest)].
  - rewrite E1. simpl. exists []. split.
    + f_equal. pose proof (span_app p s) as H. rewrite E2 in H. now simpl in H.
    + split; [discriminate|]. intros t [].
  - rewrite E1. simpl. exists (rest ++ [s]). repeat split; [discriminate|].
    intros t Ht. apply in_app_iff in Ht as [Ht|[<-|[]]]; [now apply Hrest|].
    exists (fst (span p s)). repeat split; [assumption|apply span_all|].
    symmetry; apply span_app.
Qed.

Lemma in_ms_seq r1 r2 s c m :
  In m (ms (Seq r1 r2) s c) <->
  exists m1, In m1 (ms r1 s c) /\ In m (ms r2 (fst m1) (snd m1)).
Proof. simpl. apply in_flat_map. Qed.

Lemma in_ms_chr p s c m :
  In m (ms (Chr p) s c) <-> exists a, p a = true /\ s = a :: fst m /\ snd m = c.
Proof.
  simpl. destruct s as [|a s].
  - split; [intros []|]. intros (a & _ & E & _). discriminate.
  - destruct (p a) eqn:Pa; simpl.
    + split.
      * intros [<-|[]]. exists a. now repeat split.
      * intros (b & _ & E & E'). injection E as Ea Eb; subst. left. destruct m; simpl in *; subst; reflexivity.
    + split; [intros []|]. intros (b & Pb & E & _). injection E as Ea Eb; subst. congruence.
Qed.

Lemma same_ci_cons a x u w :
  same_ci (a :: u) (x :: w) <-> ci x a = true /\ same_ci u w.
Proof.
  unfold same_ci, ci. simpl. rewrite Ascii.eqb_eq. split.
  - intros H. injection H as H1 H2. now split.
  - intros [H1 H2]. congruence.
Qed.

Lemma in_ms_lit w s c m :
  In m (ms (lit w) s c) <->
  exists pre, s = pre ++ fst m /\ same_ci pre (to_chars w) /\ snd m = c.
Proof.
  revert s c m; induction w as [|x w IH]; intros s c m.
  - simpl. split.
    + intros [<-|[]]. exists []. now repeat split.
    + intros (pre & E & Hci & Hc). destruct pre; [|discriminate].
      left. destruct m; simpl in *; subst; reflexivity.
  - cbn [lit]. rewrite in_ms_seq. split.
    + intros (m1 & H1 & H2). apply in_ms_chr in H1 as (a & Pa & E1 & E2).
      apply IH in H2 as (pre & E3 & Hci & Hc).
      exists (a :: pre). simpl. rewrite E1, E3. repeat split; [|congruence].
      change (to_chars (String x w)) with (x :: to_chars w).
      now apply same_ci_cons.
    + intros (pre & E & Hci & Hc).
      change (to_chars (String x w)) with (x :: to_chars w) in Hci.
      destruct pre as [|a pre]; [discriminate|].
      apply same_ci_cons in Hci as [Pa Hci].
      exists (pre ++ fst m, c). split.
      * apply in_ms_chr. exists a. simpl in E. now repeat split.
      * apply IH. exists pre. now repeat split.
Qed.

Lemma consumed_app pre s' : consumed (pre ++ s') s' = pre.
Proof.
  unfold consumed. rewrite length_app.
  replace (List.length pre + List.length s' - List.length s') with (List.length pre + 0) by lia.
  rewrite firstn_app_2. simpl. apply app_nil_r.
Qed.

Lemma in_ms_group_plus n p s c m :
  In m (ms (Group n (Plus p)) s c) <->
  exists pre, pre <> [] /\ forallb p pre = true /\ s = pre ++ fst m /\
              snd m = (n, pre) :: c.
Proof.
  simpl. rewrite map_map. rewrite in_map_iff. simpl. split.
  - intros (s' & <- & Hin). simpl.
    apply in_plus_greedy in Hin as (pre & Hne & Hp & E).
    exists pre. repeat split; try assumption. subst s. now rewrite consumed_app.
  - intros (pre & Hne & Hp & E & Hc). exists (fst m). split.
    + destruct m as [s' c']; simpl in *. subst. now rewrite consumed_app.
    + apply in_plus_greedy. now exists pre.
Qed.

Lemma in_ms_group_lit n w s c m :
  In m (ms (Group n (lit w)) s c) <->
  exists pre, s = pre ++ fst m /\ same_ci pre (to_chars w) /\
              snd m = (n, pre) :: c.
Proof.
  cbn [ms]. rewrite in_map_iff. split.
  - intros (m1 & <- & Hin). apply in_ms_lit in Hin as (pre & E & Hci & Hc).
    exists pre. simpl. repeat split; try assumption.
    rewrite E at 1. rewrite consumed_app. now rewrite Hc.
  - intros (pre & E & Hci & Hc). exists (fst m, c). split.
    + destruct m as [s' c']; simpl in *. subst. now rewrite consumed_app.
    + apply in_ms_lit. exists pre. now repeat split.
Qed.

Lemma in_ms_opt r s c m :
  In m (ms (Opt r) s c) <-> In m (ms r s c) \/ m = (s, c).
Proof. simpl. rewrite in_app_iff. simpl. intuition congruence. Qed.

Lemma in_ms_star p s c m :
  In m (ms (Star p) s c) <->
  exists pre, forallb p pre = true /\ s = pre ++ fst m /\ snd m = c.
Proof.
  simpl. rewrite in_map_iff. split.
  - intros (s' & <- & Hin). simpl. apply in_app_iff in Hin as [Hin|[<-|[]]].
    + apply in_plus_greedy in Hin as (pre & _ & Hp & E). now exists pre.
    + now exists [].
  - intros (pre & Hp & E & Hc). exists (fst m). split.
    + destruct m; simpl in *; congruence.
    + apply in_app_iff. destruct pre as [|a pre].
      * right. left. now simpl in E.
      * left. apply in_plus_greedy. exists (a :: pre). now repeat split.
Qed.

Lemma in_ms_eos s c m :
  In m (ms Eos s c) <-> at_end s = true /\ m = (s, c).
Proof.
  simpl. destruct (at_end s); simpl; intuition congruence.
Qed.

Lemma ms_seq_assoc r1 r2 r3 s c :
  ms (Seq r1 (Seq r2 r3)) s c = ms (Seq (Seq r1 r2) r3) s c.
Proof.
  simpl. induction (ms r1 s c) as [|m l IH]; simpl; [reflexivity|].
  rewrite flat_map_app. now rewrite IH.
Qed.

(** The first match of a sequence comes from the first alternative of its
    head that lets the rest match. *)
Lemma flat_map_head {A B} (f : A -> list B) (x : A) (l : list A) :
  f x <> [] -> hd_error (flat_map f (x :: l)) = hd_error (f x).
Proof. simpl. destruct (f x); [congruence|reflexivity]. Qed.

Lemma flat_map_nil_iff {A B} (f : A -> list B) (l : list A) :
  flat_map f l = [] <-> forall x, In x l -> f x = [].
Proof.
  induction l as [|a l IH]; simpl; [intuition|].
  split.
  - intros H. apply app_eq_nil in H as [H1 H2]. intros x [<-|Hx]; [assumption|].
    now apply IH.
  - intros H. rewrite (H a) by now left. simpl. apply IH. intros x Hx. apply H. now right.
Qed.

Lemma flat_map_skip {A B} (f : A -> list B) (x : A) (l : list A) :
  f x = [] -> flat_map f (x :: l) = flat_map f l.
Proof. simpl. now intros ->. Qed.

End ReFacts.

(** ** The classifier *)

Section ClassifierFacts.

Import Str Re Classifier.

(** A property of characters that holds of all 256 of them. *)
Lemma ascii_forall (P : ascii -> bool) :
  forallb (fun n => P (ascii_of_nat n)) (seq 0 256) = true ->
  forall a, P a = true.
Proof.
  intros H a. rewrite forallb_forall in H.
  rewrite <- (ascii_nat_embedding a). apply H.
  apply in_seq. pose proof (nat_ascii_bounded a). lia.
Qed.

Lemma ci_us a : ci "_" a = true -> a = "_"%char.
Proof.
  intros H. apply Ascii.eqb_eq. revert H.
  generalize (ascii_forall (fun a => implb (ci "_" a) (Ascii.eqb a "_")) eq_refl a).
  destruct (ci "_" a); simpl; intros; [assumption|discriminate].
Qed.

Lemma same_ci_us pre : same_ci pre (to_chars "_") <-> pre = ["_"%char].
Proof.
  split.
  - intros H. destruct pre as [|a [|b pre]]; try discriminate.
    change (to_chars "_") with ["_"%char] in H.
    apply same_ci_cons in H as [H _]. now rewrite (ci_us _ H).
  - now intros ->.
Qed.

Lemma same_ci_length u w : same_ci u w -> List.length u = List.length w.
Proof. unfold same_ci. intros H. apply (f_equal (@List.length _)) in H. now rewrite !length_map in H. Qed.

Lemma same_ci_app u1 u2 w1 w2 :
  same_ci u1 w1 -> same_ci u2 w2 -> same_ci (u1 ++ u2) (w1 ++ w2).
Proof. unfold same_ci. intros H1 H2. now rewrite !map_app, H1, H2. Qed.

Lemma same_ci_split u w1 w2 :
  same_ci u (w1 ++ w2) ->
  exists u1 u2, u = u1 ++ u2 /\ same_ci u1 w1 /\ same_ci u2 w2.
Proof.
  revert u; induction w1 as [|x w1 IH]; intros u H.
  - exists [], u. now repeat split.
  - destruct u as [|a u]; [discriminate|]. simpl in H.
    apply same_ci_cons in H as [Ha H].
    destruct (IH _ H) as (u1 & u2 & -> & H1 & H2).
    exists (a :: u1), u2. repeat split; [|assumption]. now apply same_ci_cons.
Qed.

Lemma ms_regroup r Y Y' B :
  (forall s c, ms Y s c = ms (Seq Y' B) s c) ->
  forall s c, ms (Seq r Y) s c = ms (Seq (Seq r Y') B) s c.
Proof.
  intros H s c. rewrite <- ms_seq_assoc. cbn [ms].
  apply flat_map_ext. intros m. apply H.
Qed.

(** [fastq_re] is its front followed by its back. *)
Lemma fastq_re_split s c :
  ms fastq_re s c =
  flat_map (fun m1 => ms back_re (fst m1) (snd m1)) (ms front_re s c).
Proof.
  change (ms fastq_re s c = ms (Seq front_re back_re) s c).
  unfold fastq_re, front_re.
  do 7 (apply ms_regroup; intros ? ?). reflexivity.
Qed.

(** What the front matches, and what it captures. *)
Lemma in_front_re s c m :
  In m (ms front_re s c) <->
  exists D day gen gcap variant treat,
    s = D ++ day ++ "_"%char :: gen ++ variant ++ "_"%char :: treat
          ++ "_"%char :: fst m /\
    same_ci D (to_chars "Day") /\ number day /\
    (gen = [] /\ gcap = [] \/
     exists g, token g /\ gen = g ++ ["_"%char] /\ gcap = [("gen", g)]) /\
    token variant /\ token treat /\
    snd m = ("treat", treat) :: ("variant", variant) :: gcap ++ ("day", day) :: c.
Proof.
  unfold front_re. split.
  - intros H.
    apply in_ms_seq in H as (m1 & H1 & H).
    apply in_ms_lit in H1 as (D & E1 & HD & C1).
    apply in_ms_seq in H as (m2 & H2 & H).
    apply in_ms_group_plus in H2 as (day & Hd1 & Hd2 & E2 & C2).
    apply in_ms_seq in H as (m3 & H3 & H).
    apply in_ms_lit in H3 as (u1 & E3 & Hu1 & C3). apply (proj1 (same_ci_us _)) in Hu1.
    apply in_ms_seq in H as (m4 & H4 & H).
    apply in_ms_seq in H as (m5 & H5 & H).
    apply in_ms_group_plus in H5 as (variant & Hv1 & Hv2 & E5 & C5).
    apply in_ms_seq in H as (m6 & H6 & H).
    apply in_ms_lit in H6 as (u2 & E6 & Hu2 & C6). apply (proj1 (same_ci_us _)) in Hu2.
    apply in_ms_seq in H as (m7 & H7 & H).
    apply in_ms_group_plus in H7 as (treat & Ht1 & Ht2 & E7 & C7).
    apply in_ms_lit in H as (u3 & E8 & Hu3 & C8). apply (proj1 (same_ci_us _)) in Hu3.
    subst u1 u2 u3.
    apply in_ms_opt in H4 as [H4| ->].
    + apply in_ms_seq in H4 as (m8 & H8 & H4).
      apply in_ms_group_plus in H8 as (g & Hg1 & Hg2 & E9 & C9).
      apply in_ms_lit in H4 as (u4 & E10 & Hu4 & C10). apply (proj1 (same_ci_us _)) in Hu4.
      subst u4.
      exists D, day, (g ++ ["_"%char]), [("gen", g)], variant, treat.
      repeat split; try assumption.
      * rewrite E1, E2, E3, E9, E10, E5, E6, E7, E8. simpl.
        rewrite <- !app_assoc. reflexivity.
      * right. exists g. now repeat split.
      * rewrite C8, C7, C6, C5, C10, C9, C3, C2, C1. reflexivity.
    + simpl in *.
      exists D, day, [], [], variant, treat.
      repeat split; try assumption.
      * rewrite E1, E2, E3, E5, E6, E7, E8. reflexivity.
      * now left.
      * rewrite C8, C7, C6, C5, C3, C2, C1. reflexivity.
  - intros (D & day & gen & gcap & variant & treat & E & HD & [Hd1 Hd2] & Hgen
            & [Hv1 Hv2] & [Ht1 Ht2] & C).
    set (t1 := fst m) in *.
    set (t2 := treat ++ "_"%char :: t1) in *.
    set (t3 := variant ++ "_"%char :: t2) in *.
    set (c1 := ("day", day) :: c) in *.
    apply in_ms_seq. exists (day ++ "_"%char :: gen ++ t3, c). split.
    { apply in_ms_lit. exists D. now repeat split. }
    apply in_ms_seq. exists ("_"%char :: gen ++ t3, c1). split.
    { apply in_ms_group_plus. exists day. now repeat split. }
    apply in_ms_seq. exists (gen ++ t3, c1). split.
    { apply in_ms_lit. exists ["_"%char]. now repeat split. }
    apply in_ms_seq. exists (t3, gcap ++ c1). split.
    { apply in_ms_opt. destruct Hgen as [[-> ->]|(g & [Hg1 Hg2] & -> & ->)].
      - now right.
      - left. apply in_ms_seq. exists ("_"%char :: t3, ("gen", g) :: c1). split.
        + apply in_ms_group_plus. exists g. simpl. rewrite <- app_assoc. now repeat split.
        + apply in_ms_lit. exists ["_"%char]. now repeat split. }
    apply in_ms_seq. exists ("_"%char :: t2, ("variant", variant) :: gcap ++ c1). split.
    { apply in_ms_group_plus. exists variant. now repeat split. }
    apply in_ms_seq. exists (t2, ("variant", variant) :: gcap ++ c1). split.
    { apply in_ms_lit. exists ["_"%char]. now repeat split. }
    apply in_ms_seq. exists ("_"%char :: t1, ("treat", treat) :: ("variant", variant) :: gcap ++ c1). split.
    { apply in_ms_group_plus. exists treat. now repeat split. }
    apply in_ms_lit. exists ["_"%char]. now repeat split.
Qed.

Lemma digit_plain a : digit a = true -> plain a = true.
Proof.
  generalize (ascii_forall (fun a => implb (digit a) (plain a)) eq_refl a).
  destruct (digit a); simpl; intros; [assumption|discriminate].
Qed.

Lemma same_ci_forallb (P : ascii -> bool) w :
  forallb (fun x => forallb (fun n => implb (ci x (ascii_of_nat n)) (P (ascii_of_nat n)))
                      (seq 0 256)) w = true ->
  forall u, same_ci u w -> forallb P u = true.
Proof.
  induction w as [|x w IH]; intros H u Hu.
  - destruct u; [reflexivity|discriminate].
  - destruct u as [|a u]; [discriminate|].
    simpl in H. apply andb_true_iff in H as [Hx Hw].
    apply same_ci_cons in Hu as [Ha Hu]. simpl.
    rewrite (IH Hw u Hu), andb_true_r.
    generalize (ascii_forall (fun a => implb (ci x a) (P a)) Hx a).
    rewrite Ha. simpl. auto.
Qed.

Lemma rerun_plain RR : same_ci RR (to_chars "_rerun") -> forallb plain RR = true.
Proof. apply same_ci_forallb. vm_compute. reflexivity. Qed.

Lemma suffix_head SUF :
  same_ci SUF (to_chars ".fastq") \/ same_ci SUF (to_chars ".fastq.gz") ->
  exists w, SUF = "."%char :: w.
Proof.
  assert (Hdot : forall a, ci "." a = true -> a = "."%char).
  { intros a H. apply Ascii.eqb_eq. revert H.
    generalize (ascii_forall (fun a => implb (ci "." a) (Ascii.eqb a ".")) eq_refl a).
    destruct (ci "." a); simpl; intros; [assumption|discriminate]. }
  intros [H|H]; (destruct SUF as [|a w]; [discriminate|]);
    apply same_ci_cons in H as [H _]; apply Hdot in H; subst; now exists w.
Qed.

Lemma plain_prefix x : forallb plain x = true ->
  forall t rest w, x ++ t = rest ++ "."%char :: w ->
  exists rest', rest = x ++ rest' /\ t = rest' ++ "."%char :: w.
Proof.
  induction x as [|a x IH]; intros Hx t rest w E.
  - now exists rest.
  - simpl in Hx. apply andb_true_iff in Hx as [Ha Hx].
    destruct rest as [|b rest].
    + simpl in E. injection E as E1 E2. subst a. discriminate.
    + simpl in E. injection E as E1 E2. subst b.
      destruct (IH Hx _ _ _ E2) as (rest' & -> & ->). now exists rest'.
Qed.

Lemma plain_dot x : forallb plain x = true -> forallb dot x = true.
Proof.
  induction x as [|a x IH]; simpl; [reflexivity|].
  intros H. apply andb_true_iff in H as [Ha Hx].
  unfold plain in Ha. apply andb_true_iff in Ha as [_ Ha].
  now rewrite Ha, IH.
Qed.

(** Plain text in front of a tail changes nothing. *)
Lemma tail_plain_strip x t :
  forallb plain x = true -> (tail_plain (x ++ t) <-> tail_plain t).
Proof.
  intros Hx. split.
  - intros (rest & SUF & nl & E & Hrest & HS & Hnl).
    destruct (suffix_head HS) as (w & ->).
    rewrite <- app_comm_cons in E.
    destruct (plain_prefix _ Hx _ _ _ E) as (rest' & -> & ->).
    exists rest', ("."%char :: w), nl. repeat split; try assumption.
    rewrite forallb_app in Hrest. now apply andb_true_iff in Hrest as [_ Hrest].
  - intros (rest & SUF & nl & -> & Hrest & HS & Hnl).
    exists (x ++ rest), SUF, nl. repeat split; try assumption.
    + now rewrite app_assoc.
    + rewrite forallb_app, Hrest, (plain_dot _ Hx). reflexivity.
Qed.

Lemma tail_ok_plain after : tail_ok after <-> tail_plain after.
Proof.
  split.
  - intros (RR & rest & SUF & nl & -> & [->|HRR] & Hrest & HS & Hnl).
    + now exists rest, SUF, nl.
    + apply tail_plain_strip; [now apply rerun_plain|].
      now exists rest, SUF, nl.
  - intros (rest & SUF & nl & -> & Hrest & HS & Hnl).
    exists [], rest, SUF, nl. repeat split; try assumption. now left.
Qed.

Lemma in_tail_re s c m :
  In m (ms tail_re s c) <->
  exists rest SUF,
    s = rest ++ SUF ++ fst m /\ forallb dot rest = true /\
    (same_ci SUF (to_chars ".fastq") \/ same_ci SUF (to_chars ".fastq.gz")) /\
    at_end (fst m) = true /\ snd m = c.
Proof.
  unfold tail_re. split.
  - intros H.
    apply in_ms_seq in H as (m1 & H1 & H).
    apply in_ms_star in H1 as (rest & Hrest & E1 & C1).
    apply in_ms_seq in H as (m2 & H2 & H).
    apply in_ms_lit in H2 as (S1 & E2 & HS1 & C2).
    apply in_ms_seq in H as (m3 & H3 & H).
    apply in_ms_eos in H as [He ->]. simpl.
    apply in_ms_opt in H3 as [H3| ->].
    + apply in_ms_lit in H3 as (S2 & E3 & HS2 & C3).
      exists rest, (S1 ++ S2). repeat split; try assumption.
      * rewrite E1, E2, E3, <- app_assoc. reflexivity.
      * right. exact (same_ci_app HS1 HS2).
      * congruence.
    + simpl in *. exists rest, S1. repeat split; try assumption.
      * now rewrite E1, E2.
      * now left.
      * congruence.
  - intros (rest & SUF & E & Hrest & HS & He & C).
    apply in_ms_seq. exists (SUF ++ fst m, c). split.
    { apply in_ms_star. exists rest. now repeat split. }
    destruct HS as [HS|HS].
    + apply in_ms_seq. exists (fst m, c). split.
      { apply in_ms_lit. exists SUF. now repeat split. }
      apply in_ms_seq. exists (fst m, c). split.
      { apply in_ms_opt. now right. }
      apply in_ms_eos. split; [assumption|]. destruct m; simpl in *; now subst.
    + change (to_chars ".fastq.gz") with (to_chars ".fastq" ++ to_chars ".gz") in HS.
      apply same_ci_split in HS as (S1 & S2 & -> & HS1 & HS2).
      apply in_ms_seq. exists (S2 ++ fst m, c). split.
      { apply in_ms_lit. exists S1. rewrite <- app_assoc. now repeat split. }
      apply in_ms_seq. exists (fst m, c). split.
      { apply in_ms_opt. left. apply in_ms_lit. exists S2. now repeat split. }
      apply in_ms_eos. split; [assumption|]. destruct m; simpl in *; now subst.
Qed.

Lemma tail_re_plain s c : ms tail_re s c <> [] <-> tail_plain s.
Proof.
  split.
  - destruct (ms tail_re s c) as [|m l] eqn:E; [congruence|]. intros _.
    assert (H : In m (ms tail_re s c)) by (rewrite E; now left).
    apply in_tail_re in H as (rest & SUF & E1 & Hrest & HS & He & _).
    now exists rest, SUF, (fst m).
  - intros (rest & SUF & nl & E & Hrest & HS & He) Hnil.
    assert (H : In (nl, c) (ms tail_re s c)).
    { apply in_tail_re. exists rest, SUF. now repeat split. }
    now rewrite Hnil in H.
Qed.

Lemma length_to_chars w : List.length (to_chars w) = String.length w.
Proof. induction w; simpl; [reflexivity|]. unfold to_chars in *. simpl. now rewrite IHw. Qed.

Lemma starts_ci_iff w s :
  starts_ci w s = true <-> exists RR t, s = RR ++ t /\ same_ci RR (to_chars w).
Proof.
  unfold starts_ci.
  destruct (list_eq_dec ascii_dec _ _) as [E|NE]; split; try discriminate; try reflexivity.
  - intros _. exists (firstn (String.length w) s), (skipn (String.length w) s).
    split; [symmetry; apply firstn_skipn|exact E].
  - intros (RR & t & -> & H). exfalso. apply NE.
    rewrite <- length_to_chars, <- (same_ci_length H).
    rewrite firstn_app, Nat.sub_diag, firstn_all. simpl. rewrite app_nil_r. exact H.
Qed.

Lemma app_inv_length {A} (a b c d : list A) :
  a ++ b = c ++ d -> List.length a = List.length c -> a = c /\ b = d.
Proof.
  revert c; induction a as [|x a IH]; intros [|y c] E L; try discriminate.
  - now split.
  - simpl in E. injection E as -> E. simpl in L.
    destruct (IH c E) as [-> ->]; [lia|]. now split.
Qed.

Lemma tail_captures s c m : In m (ms tail_re s c) -> snd m = c.
Proof. intros H. apply in_tail_re in H as (_ & _ & _ & _ & _ & _ & H). exact H. Qed.

Lemma rerun_tail_nonempty s c :
  tail_plain s -> ms (Seq rerun_re tail_re) s c <> [].
Proof.
  intros H Hnil. apply (tail_re_plain s c) in H.
  destruct (ms tail_re s c) as [|m l] eqn:E; [congruence|].
  assert (Hin : In m (ms (Seq rerun_re tail_re) s c)).
  { apply in_ms_seq. exists (s, c). split.
    - unfold rerun_re. apply in_ms_opt. now right.
    - cbn [fst snd]. rewrite E. now left. }
  now rewrite Hnil in Hin.
Qed.

Lemma in_rerun_tail s c m :
  In m (ms (Seq rerun_re tail_re) s c) -> tail_plain s.
Proof.
  intros H. apply in_ms_seq in H as (m1 & H1 & H).
  assert (Ht : tail_plain (fst m1)).
  { apply (tail_re_plain (fst m1) (snd m1)). intros Hnil. now rewrite Hnil in H. }
  unfold rerun_re in H1. apply in_ms_opt in H1 as [H1| ->]; [|exact Ht].
  apply in_ms_group_lit in H1 as (RR & -> & HRR & _).
  apply tail_plain_strip; [now apply rerun_plain|exact Ht].
Qed.

Lemma rerun_tail_eq s c :
  ms (Seq rerun_re tail_re) s c =
  flat_map (fun m => ms tail_re (fst m) (snd m))
           (ms (Group "rerun" (lit "_rerun")) s c ++ [(s, c)]).
Proof. reflexivity. Qed.

(** The first match of the marker and the tail takes the marker whenever the
    text starts with it. *)
Lemma rerun_tail_head s c m l :
  ms (Seq rerun_re tail_re) s c = m :: l ->
  (starts_ci "_rerun" s = true /\
   exists RR, same_ci RR (to_chars "_rerun") /\ snd m = ("rerun", RR) :: c)
  \/ (starts_ci "_rerun" s = false /\ snd m = c).
Proof.
  intros E.
  assert (Hs : tail_plain s).
  { apply (@in_rerun_tail s c m). rewrite E. now left. }
  rewrite rerun_tail_eq in E.
  destruct (ms (Group "rerun" (lit "_rerun")) s c) as [|g gs] eqn:G.
  - right. split.
    + destruct (starts_ci "_rerun" s) eqn:S; [|reflexivity]. exfalso.
      apply starts_ci_iff in S as (RR & t & -> & HRR).
      assert (Hin : In (t, ("rerun", RR) :: c) (ms (Group "rerun" (lit "_rerun")) (RR ++ t) c)).
      { apply in_ms_group_lit. exists RR. now repeat split. }
      now rewrite G in Hin.
    + cbn [app flat_map fst snd] in E. rewrite app_nil_r in E.
      apply (@tail_captures s c). rewrite E. now left.
  - left.
    assert (Hg : In g (ms (Group "rerun" (lit "_rerun")) s c)) by (rewrite G; now left).
    apply in_ms_group_lit in Hg as (RR & Es & HRR & Cg).
    split; [apply starts_ci_iff; now exists RR, (fst g)|].
    exists RR. split; [assumption|].
    assert (Hg1 : ms tail_re (fst g) (snd g) <> []).
    { apply tail_re_plain. rewrite Es in Hs.
      apply tail_plain_strip in Hs; [assumption|now apply rerun_plain]. }
    cbn [app flat_map] in E.
    destruct (ms tail_re (fst g) (snd g)) as [|m' l'] eqn:T; [congruence|].
    cbn [app] in E. injection E as -> _.
    rewrite <- Cg. apply (@tail_captures (fst g) (snd g)). rewrite T. now left.
Qed.

Lemma ms_group_plus_eq n p s c :
  ms (Group n (Plus p)) s c =
  map (fun s' => (s', (n, consumed s s') :: c)) (plus_greedy p s).
Proof. cbn [ms]. now rewrite map_map. Qed.

(** The first match of the back takes the whole run of digits as the
    replicate number, and the rerun marker whenever it follows. *)
Lemma back_head s c m l :
  ms back_re s c = m :: l ->
  exists rep after,
    s = rep ++ after /\ number rep /\ tail_ok after /\
    match after with a :: _ => digit a = false | [] => True end /\
    ((starts_ci "_rerun" after = true /\
      exists RR, same_ci RR (to_chars "_rerun") /\
                 snd m = ("rerun", RR) :: ("rep", rep) :: c)
     \/ (starts_ci "_rerun" after = false /\ snd m = ("rep", rep) :: c)).
Proof.
  intros E. unfold back_re in E. cbn [ms] in E.
  fold (ms (Group "rep" (Plus digit)) s c) in E.
  rewrite ms_group_plus_eq in E.
  set (K := fun m : chars * captures =>
     flat_map (fun m0 => ms tail_re (fst m0) (snd m0)) (ms rerun_re (fst m) (snd m))) in E.
  assert (HK : forall t c', K (t, c') = ms (Seq rerun_re tail_re) t c') by reflexivity.
  destruct (plus_greedy_shape digit s) as [[E1 _]|(rest & E1 & Hne & Hrest)].
  { rewrite E1 in E. discriminate. }
  rewrite E1 in E. cbn [map] in E.
  pose proof (span_app digit s) as Hs.
  set (rep := fst (span digit s)) in *. set (after := snd (span digit s)) in *.
  assert (Hc : consumed s after = rep).
  { rewrite <- Hs. apply consumed_app. }
  rewrite Hc in E.
  assert (Hafter : tail_plain after).
  { destruct (K (after, ("rep", rep) :: c)) as [|m0 l0] eqn:K0.
    - rewrite flat_map_skip in E by exact K0.
      assert (Hin : In m (flat_map K (map (fun s' => (s', ("rep", consumed s s') :: c)) rest))).
      { rewrite E. now left. }
      apply in_flat_map in Hin as (m1 & H1 & H2).
      apply in_map_iff in H1 as (t & <- & Ht).
      destruct (Hrest t Ht) as (x & Hx1 & Hx2 & ->).
      rewrite HK in H2. apply in_rerun_tail in H2.
      apply tail_plain_strip in H2; [assumption|].
      clear - Hx2. induction x as [|a x IH]; [reflexivity|].
      simpl in *. apply andb_true_iff in Hx2 as [Ha Hx].
      now rewrite (digit_plain _ Ha), IH.
    - rewrite HK in K0. apply (@in_rerun_tail after (("rep", rep) :: c) m0).
      rewrite K0. now left. }
  pose proof (@rerun_tail_nonempty after (("rep", rep) :: c) Hafter) as Hne'.
  rewrite <- HK in Hne'.
  destruct (K (after, ("rep", rep) :: c)) as [|m0 l0] eqn:K0; [congruence|].
  cbn [flat_map] in E. rewrite K0 in E. simpl in E. injection E as -> _.
  rewrite HK in K0.
  exists rep, after. repeat split.
  - now symmetry.
  - exact Hne.
  - apply span_all.
  - now apply tail_ok_plain.
  - apply span_stop.
  - exact (rerun_tail_head _ _ K0).
Qed.

Lemma flat_map_hd {A B} (f : A -> list B) l y ys :
  flat_map f l = y :: ys -> exists x ys', In x l /\ f x = y :: ys'.
Proof.
  induction l as [|a l IH]; simpl; [discriminate|].
  destruct (f a) as [|b bs] eqn:E; simpl.
  - intros H. destruct (IH H) as (x & ys' & Hx & Hf). exists x, ys'. auto.
  - intros H. injection H as -> _. exists a, bs. auto.
Qed.

(** The first match of the whole pattern: the fields it captures split the
    name as the grammar says, the replicate number is the whole run of
    digits, and the rerun group is set exactly when the marker follows it. *)
Lemma fastq_head name m l :
  ms fastq_re (to_chars name) [] = m :: l ->
  exists day treat rep after,
    fields (to_chars name) day treat rep after /\
    starts_digit after = false /\
    group (snd m) "day" = Some (of_chars day) /\
    group (snd m) "treat" = Some (of_chars treat) /\
    group (snd m) "rep" = Some (of_chars rep) /\
    truthy (group (snd m) "rerun") = starts_ci "_rerun" after.
Proof.
  intros E. rewrite fastq_re_split in E.
  apply flat_map_hd in E as (m1 & l' & H1 & E).
  apply in_front_re in H1
    as (D & day & gen & gcap & variant & treat & En & HD & Hday & Hgen & Hv & Ht & C1).
  apply back_head in E as (rep & after & Eb & Hrep & Hafter & Hnd & Hr).
  exists day, treat, rep, after.
  split; [|split].
  - exists D, gen, variant. rewrite En, Eb.
    split; [reflexivity|]. split; [assumption|]. split; [assumption|].
    split; [|repeat (split; [assumption|]); assumption].
    destruct Hgen as [[-> _]|(g & Hg & -> & _)]; [now left|right; now exists g].
  - destruct after; [reflexivity|exact Hnd].
  - assert (Hg : forall k, k = "day" \/ k = "treat" \/ k = "rep" ->
                 group (gcap ++ [("day", day)]) k = group [("day", day)] k).
    { intros k Hk. destruct Hgen as [[_ ->]|(g & _ & _ & ->)]; [reflexivity|].
      destruct Hk as [->|[->| ->]]; reflexivity. }
    assert (Hg' : group (gcap ++ [("day", day)]) "rerun" = None).
    { destruct Hgen as [[_ ->]|(g & _ & _ & ->)]; reflexivity. }
    destruct Hr as [(S & RR & HRR & C)|(S & C)]; rewrite C, C1, S; cbn [group String.eqb Ascii.eqb Bool.eqb];
      rewrite ?Hg, ?Hg' by auto; cbn [group String.eqb Ascii.eqb Bool.eqb]; repeat split.
    destruct RR; [discriminate|reflexivity].
Qed.

Lemma back_complete rep after c :
  number rep -> tail_ok after -> ms back_re (rep ++ after) c <> [].
Proof.
  intros [Hr1 Hr2] Ha Hnil.
  apply tail_ok_plain in Ha.
  pose proof (@rerun_tail_nonempty after (("rep", rep) :: c) Ha) as Hne.
  destruct (ms (Seq rerun_re tail_re) after (("rep", rep) :: c)) as [|m l] eqn:E; [congruence|].
  assert (Hin : In m (ms back_re (rep ++ after) c)).
  { unfold back_re. apply in_ms_seq. exists (after, ("rep", rep) :: c). split.
    - apply in_ms_group_plus. exists rep. now repeat split.
    - cbn [fst snd]. rewrite E. now left. }
  now rewrite Hnil in Hin.
Qed.

(** The pattern matches exactly the names of the grammar. *)
Lemma fastq_nil name :
  ms fastq_re (to_chars name) [] = [] <-> ~ grammar name.
Proof.
  split.
  - intros Hnil (day & treat & rep & after & D & gen & variant & E & HD & Hday
                 & Hgen & Hv & Ht & Hrep & Hafter).
    set (gcap := match gen with [] => [] | _ => [("gen", removelast gen)] end).
    set (c1 := ("treat", treat) :: ("variant", variant) :: gcap ++ [("day", day)]).
    pose proof (@back_complete rep after c1 Hrep Hafter) as Hb.
    destruct (ms back_re (rep ++ after) c1) as [|m l] eqn:Eb; [congruence|].
    assert (Hin : In m (ms fastq_re (to_chars name) [])).
    { rewrite fastq_re_split. apply in_flat_map. exists (rep ++ after, c1). split.
      - apply in_front_re. exists D, day, gen, gcap, variant, treat.
        split; [exact E|]. split; [assumption|]. split; [assumption|].
        split; [|repeat (split; [assumption|]); reflexivity].
        destruct Hgen as [->|(g & Hg & ->)]; [now left|right].
        exists g. split; [assumption|]. split; [reflexivity|]. unfold gcap.
        rewrite removelast_last. destruct g; [now destruct Hg|reflexivity].
      - cbn [fst snd]. rewrite Eb. now left. }
    now rewrite Hnil in Hin.
  - intros Hng. destruct (ms fastq_re (to_chars name) []) as [|m l] eqn:E; [reflexivity|].
    exfalso. apply Hng. apply fastq_head in E as (day & treat & rep & after & H & _).
    now exists day, treat, rep, after.
Qed.

(** C5.  [parse_fastq_metadata] is a total function of the file name.  On a
    name of the grammar it returns [(Replica-<rep>, Day<day>_<treatment>)],
    where the fields split the name as the grammar says, the replicate
    number is the whole run of digits, the treatment is lower-cased, and
    [_rerun] is appended exactly when the rerun marker follows the replicate
    number; on every other name it returns [None]. *)
Theorem parse_fastq_metadata_spec (name : string) :
  match parse_fastq_metadata name with
  | Some (replicate, treatment) =>
      exists day treat rep after,
        fields (to_chars name) day treat rep after /\
        starts_digit after = false /\
        replicate = ("Replica-" ++ of_chars rep)%string /\
        treatment = ("Day" ++ of_chars day ++ "_" ++ lower (of_chars treat)
                     ++ (if starts_ci "_rerun" after then "_rerun" else ""))%string
  | None => ~ grammar name
  end.
Proof.
  unfold parse_fastq_metadata, re_match.
  destruct (ms fastq_re (to_chars name) []) as [|m l] eqn:E.
  - now apply fastq_nil.
  - apply fastq_head in E as (day & treat & rep & after & HF & Hd & G1 & G2 & G3 & G4).
    exists day, treat, rep, after. rewrite G1, G2, G3, G4.
    assert (Ht : or_else (Some (of_chars treat)) "untreated" = of_chars treat).
    { destruct HF as (_ & _ & _ & _ & _ & _ & _ & _ & [Hne _] & _).
      destruct treat; [congruence|reflexivity]. }
    rewrite Ht. repeat split; try assumption.
    destruct (starts_ci "_rerun" after); simpl; [reflexivity|].
    now rewrite string_app_nil_r.
Qed.

Example classify_rerun :
  parse_fastq_metadata "Day3_G1_KRAS_Untreated_2_rerun_S1_R1_001.fastq.gz"
  = Some ("Replica-2", "Day3_untreated_rerun").
Proof. vm_compute. reflexivity. Qed.

Example classify_generation_first :
  parse_fastq_metadata "Day1_a_b_2_3.fastq.gz" = Some ("Replica-3", "Day1_2").
Proof. vm_compute. reflexivity. Qed.

Example classify_any_case :
  parse_fastq_metadata "day10_V_DrugA_12.FASTQ" = Some ("Replica-12", "Day10_druga").
Proof. vm_compute. reflexivity. Qed.

Example classify_too_short :
  parse_fastq_metadata "Day10_V_12.fastq" = None.
Proof. vm_compute. reflexivity. Qed.

(** C8.  Whenever the classifier accepts a name, the treatment group is a
    non-empty piece of the name, so [or "untreated"] never applies: the tag
    is [Day<day>_] followed by the lower-cased token and, possibly, by
    [_rerun]. *)
Theorem treatment_token_nonempty (name replicate treatment : string) :
  parse_fastq_metadata name = Some (replicate, treatment) ->
  exists m treat,
    re_match fastq_re name = Some m /\
    group m "treat" = Some treat /\
    treat <> "" /\
    or_else (group m "treat") "untreated" = treat /\
    (exists day sfx,
        treatment = ("Day" ++ day ++ "_" ++ lower treat ++ sfx)%string /\
        (sfx = "" \/ sfx = "_rerun")) /\
    (exists pre post, name = (pre ++ treat ++ post)%string).
Proof.
  unfold parse_fastq_metadata, re_match.
  destruct (ms fastq_re (to_chars name) []) as [|m l] eqn:E; [discriminate|].
  intros H. injection H as _ Ht.
  apply fastq_head in E as (day & treat & rep & after & HF & Hd & G1 & G2 & G3 & G4).
  destruct HF as (D & gen & variant & En & _ & _ & _ & _ & [Hne _] & _).
  assert (Ho : or_else (Some (of_chars treat)) "untreated" = of_chars treat).
  { destruct treat; [congruence|reflexivity]. }
  exists (snd m), (of_chars treat). rewrite G2, Ho.
  repeat split.
  - intros H. apply of_chars_nil_iff in H. congruence.
  - rewrite G1, G2, Ho in Ht. simpl in Ht.
    destruct (truthy (group (snd m) "rerun")); subst treatment.
    + exists (of_chars day), "_rerun". split; [reflexivity|now right].
    + exists (of_chars day), "". split; [now rewrite string_app_nil_r|now left].
  - exists (of_chars (D ++ day ++ "_"%char :: gen ++ variant ++ ["_"%char])),
           (of_chars ("_"%char :: rep ++ after)).
    rewrite <- !of_chars_app, <- (of_to_chars name). f_equal.
    rewrite En, <- !app_assoc. simpl. rewrite <- !app_assoc. reflexivity.
Qed.

Lemma treatment_token_nonempty_witness :
  exists m treat,
    re_match fastq_re "Day3_G1_KRAS_Untreated_2_rerun_S1_R1_001.fastq.gz" = Some m /\
    group m "treat" = Some treat /\
    treat <> "" /\
    or_else (group m "treat") "untreated" = treat /\
    (exists day sfx,
        "Day3_untreated_rerun" = ("Day" ++ day ++ "_" ++ lower treat ++ sfx)%string /\
        (sfx = "" \/ sfx = "_rerun")) /\
    (exists pre post,
        "Day3_G1_KRAS_Untreated_2_rerun_S1_R1_001.fastq.gz"
        = (pre ++ treat ++ post)%string).
Proof.
  apply (@treatment_token_nonempty
           "Day3_G1_KRAS_Untreated_2_rerun_S1_R1_001.fastq.gz" "Replica-2").
  vm_compute. reflexivity.
Defined.

End ClassifierFacts.

(** ** The file system *)

Section FSFacts.

Import FS.

Lemma node_ind' (P : node -> Prop)
  (HF : forall c, P (File c))
  (HD : forall es, Forall (fun e => P (snd e)) es -> P (Dir es)) :
  forall n, P n.
Proof.
  fix IH 1. intros [c|es]; [apply HF|]. apply HD.
  induction es as [|[k v] es IHes]; constructor; [apply IH|apply IHes].
Qed.

Lemma nodupb_NoDup l : nodupb l = true -> NoDup l.
Proof.
  induction l as [|x l IH]; simpl; [constructor|].
  intros H. apply andb_true_iff in H as [H1 H2]. constructor; [|now apply IH].
  intros Hin. apply negb_true_iff in H1.
  assert (existsb (String.eqb x) l = true); [|congruence].
  apply existsb_exists. exists x. split; [assumption|apply String.eqb_refl].
Qed.

Lemma find_entry_in k v es :
  NoDup (map fst es) -> In (k, v) es -> find_entry k es = Some v.
Proof.
  induction es as [|[k' v'] es IH]; simpl; [tauto|].
  intros Hnd [E|Hin].
  - injection E as -> ->. now rewrite String.eqb_refl.
  - inversion Hnd as [|? ? Hni Hnd']; subst.
    destruct (String.eqb_spec k' k) as [->|_].
    + exfalso. apply Hni. apply in_map_iff. now exists (k, v).
    + now apply IH.
Qed.


Lemma lookup_app fs p q :
  lookup fs (p ++ q) = match lookup fs p with Some n => lookup n q | None => None end.
Proof.
  revert fs; induction p as [|c p IH]; intros fs; simpl; [reflexivity|].
  destruct fs as [|es]; [reflexivity|].
  destruct (find_entry c es); [apply IH|reflexivity].
Qed.

Lemma wf_dir es : wf (Dir es) ->
  NoDup (map fst es) /\ forall k v, In (k, v) es -> wf v.
Proof.
  unfold wf. simpl. intros H. apply andb_true_iff in H as [H1 H2].
  split; [now apply nodupb_NoDup|].
  intros k v Hin. rewrite forallb_forall in H2. exact (H2 _ Hin).
Qed.


Lemma last_app_single {A} (l : list A) x d : last (l ++ [x]) d = x.
Proof. apply last_last. Qed.



(** In a well-formed tree every path that [rglob] yields lies in a directory
    of the tree. *)
Lemma rglob_node_parent matches n : forall here p,
  wf n -> In p (rglob_node matches here n) ->
  exists rel es, p = here ++ rel /\ rel <> [] /\
                 lookup n (removelast rel) = Some (Dir es).
Proof.
  induction n as [c|es IH] using node_ind'; intros here p Hwf H; [destruct H|].
  apply wf_dir in Hwf as [Hnd Hwf].
  simpl in H. apply in_app_iff in H as [H|H].
  - apply in_map_iff in H as ([k v] & <- & H).
    exists [k], es. repeat split. discriminate.
  - apply in_flat_map in H as ([k v] & Hin & H).
    rewrite Forall_forall in IH.
    destruct (IH _ Hin _ _ (Hwf _ _ Hin) H) as (rel & es' & -> & Hne & Hl).
    exists (k :: rel), es'. repeat split.
    + now rewrite <- app_assoc.
    + discriminate.
    + destruct rel as [|c rel]; [congruence|].
      change (removelast (k :: c :: rel)) with (k :: removelast (c :: rel)).
      cbn [lookup]. now rewrite (@find_entry_in k v es Hnd Hin).
Qed.

Lemma rglob_parent fs root matches p :
  wf fs -> In p (rglob fs root matches) ->
  p <> [] /\ exists es, lookup fs (parent p) = Some (Dir es).
Proof.
  unfold rglob. intros Hwf H.
  destruct (lookup fs root) as [n|] eqn:L; [|destruct H].
  assert (Hn : wf n).
  { clear H. revert fs Hwf L. induction root as [|c root IH]; intros fs Hwf L.
    - simpl in L. now injection L as <-.
    - destruct fs as [|es]; [discriminate|]. simpl in L.
      destruct (find_entry c es) as [n'|] eqn:F; [|discriminate].
      apply (IH n'); [|assumption].
      apply wf_dir in Hwf as [_ Hwf]. apply (Hwf c).
      clear - F. induction es as [|[k v] es IH]; [discriminate|]. simpl in F.
      destruct (String.eqb_spec k c) as [->|_]; [injection F as ->; now left|].
      right. now apply IH. }
  destruct (rglob_node_parent _ _ _ Hn H) as (rel & es & -> & Hne & Hl).
  split; [destruct root; destruct rel; simpl; congruence|].
  exists es. unfold parent. rewrite removelast_app by assumption.
  now rewrite lookup_app, L.
Qed.

Lemma parent_name p : p <> [] -> p = parent p ++ [name p].
Proof. intros H. now apply app_removelast_last. Qed.

End FSFacts.

(** ** Reorganisation *)

Section ReorganizeFacts.

Import FS Classifier Reorganize.



Lemma reorganize_one_eq tmp st p :
  reorganize_one tmp st p =
  (fs1 <- mkdir_p (fst st) (destination tmp p) ;;
   let newp := destination tmp p ++ [name p] in
   if negb (path_eqb (resolve p) (resolve newp)) then
     match rename fs1 p newp with
     | Ok fs2 => Ok (fs2, snd st ++ [(p, newp)])
     | Raise _ => Ok (fs1, snd st ++ [(p, newp)])
     end
   else Ok (fs1, snd st)).
Proof. reflexivity. Qed.







End ReorganizeFacts.

(** ** Sorting *)

Section SortFacts.

Import Sort.

Variable A : Type.
Variable leb : A -> A -> bool.
Hypothesis leb_total : forall x y, leb x y = false -> leb y x = true.

Let R (x y : A) : Prop := leb x y = true.

Lemma insert_perm x l : Permutation (insert leb x l) (x :: l).
Proof.
  induction l as [|y l IH]; simpl; [reflexivity|].
  destruct (leb x y); [reflexivity|].
  rewrite IH. apply perm_swap.
Qed.

Lemma sorted_perm l : Permutation (sorted leb l) l.
Proof.
  induction l as [|x l IH]; simpl; [reflexivity|].
  rewrite insert_perm. now constructor.
Qed.

Lemma insert_hdrel x y l : R y x -> HdRel R y l -> HdRel R y (insert leb x l).
Proof.
  intros Hyx H. destruct l as [|z l]; simpl.
  - now constructor.
  - destruct (leb x z); constructor; [assumption|]. now inversion H.
Qed.

Lemma insert_sorted x l : Sorted R l -> Sorted R (insert leb x l).
Proof.
  induction l as [|y l IH]; intros H; simpl.
  - repeat constructor.
  - destruct (leb x y) eqn:E.
    + constructor; [assumption|]. now constructor.
    + inversion H as [|? ? Hs Hh]; subst. constructor; [now apply IH|].
      apply insert_hdrel; [|assumption]. now apply leb_total.
Qed.

Lemma sorted_sorted l : Sorted R (sorted leb l).
Proof.
  induction l as [|x l IH]; simpl; [constructor|]. now apply insert_sorted.
Qed.

End SortFacts.

Section CompareFacts.

Import Sort.

Lemma path_compare_antisym p : forall q,
  path_compare p q = CompOpp (path_compare q p).
Proof.
  induction p as [|a p IH]; intros [|b q]; simpl; try reflexivity.
  rewrite (String.compare_antisym b a).
  destruct (String.compare a b); simpl; [apply IH|reflexivity|reflexivity].
Qed.

Lemma path_compare_eq p : forall q, path_compare p q = Eq -> p = q.
Proof.
  induction p as [|a p IH]; intros [|b q]; simpl; try discriminate; [reflexivity|].
  destruct (String.compare a b) eqn:E; try discriminate.
  apply String.compare_eq_iff in E. intros H. now rewrite E, (IH _ H).
Qed.

Lemma pair_compare_antisym {X Y} (ca : X -> X -> comparison) (cb : Y -> Y -> comparison) :
  (forall x y, ca x y = CompOpp (ca y x)) ->
  (forall x y, cb x y = CompOpp (cb y x)) ->
  forall x y, pair_compare ca cb x y = CompOpp (pair_compare ca cb y x).
Proof.
  intros Ha Hb x y. unfold pair_compare. rewrite (Ha (fst y) (fst x)).
  destruct (ca (fst x) (fst y)); simpl; [apply Hb|reflexivity|reflexivity].
Qed.

Lemma leb_of_total {X} (cmp : X -> X -> comparison) :
  (forall x y, cmp x y = CompOpp (cmp y x)) ->
  forall x y, leb_of cmp x y = false -> leb_of cmp y x = true.
Proof.
  intros H x y. unfold leb_of. rewrite (H y x).
  destruct (cmp x y); simpl; congruence.
Qed.

End CompareFacts.

(** ** The pair matcher *)

Section PairingFacts.

Import Str Re FS Sort Pairing.

Lemma groupless_captures r : forall s c m,
  groupless r = true -> In m (ms r s c) -> snd m = c.
Proof.
  induction r as [|p|r1 IH1 r2 IH2|r IH|p|p|p|n r IH|]; intros s c m G H.
  - destruct H as [<-|[]]. reflexivity.
  - apply in_ms_chr in H as (_ & _ & _ & H). exact H.
  - simpl in G. apply andb_true_iff in G as [G1 G2].
    apply in_ms_seq in H as (m1 & H1 & H2).
    rewrite (IH2 _ _ _ G2 H2). exact (IH1 _ _ _ G1 H1).
  - apply in_ms_opt in H as [H| ->]; [exact (IH _ _ _ G H)|reflexivity].
  - simpl in H. apply in_map_iff in H as (s' & <- & _). reflexivity.
  - simpl in H. apply in_map_iff in H as (s' & <- & _). reflexivity.
  - simpl in H. apply in_map_iff in H as (s' & <- & _). reflexivity.
  - discriminate.
  - apply in_ms_eos in H as [_ ->]. reflexivity.
Qed.

Lemma in_ms_group_lazy n p s c m :
  In m (ms (Group n (PlusLazy p)) s c) ->
  exists pre, pre <> [] /\ forallb p pre = true /\ s = pre ++ fst m /\
              snd m = (n, pre) :: c.
Proof.
  simpl. rewrite map_map. rewrite in_map_iff. simpl.
  intros (s' & <- & Hin). simpl.
  apply in_plus_lazy, in_plus_greedy in Hin as (pre & Hne & Hp & E).
  exists pre. repeat split; try assumption. subst s. now rewrite consumed_app.
Qed.

Lemma in_ms_group_chr n p s c m :
  In m (ms (Group n (Chr p)) s c) ->
  exists a, p a = true /\ s = a :: fst m /\ snd m = (n, [a]) :: c.
Proof.
  cbn [ms]. rewrite in_map_iff. intros (m1 & <- & Hin).
  apply in_ms_chr in Hin as (a & Pa & E & C).
  exists a. cbn [fst snd]. repeat split; try assumption.
  rewrite E, C. change (a :: fst m1) with ([a] ++ fst m1).
  now rewrite consumed_app.
Qed.

(** Every match of [_R12] captures a non-empty base and a read index that is
    1 or 2. *)
Lemma r12_captures s c m :
  In m (ms r12_re s c) ->
  exists base a,
    base <> [] /\ (a = "1" \/ a = "2")%char /\
    snd m = ("read", [a]) :: ("base", base) :: c.
Proof.
  unfold r12_re. intros H.
  apply in_ms_seq in H as (m1 & H1 & H).
  apply in_ms_group_lazy in H1 as (base & Hb & _ & _ & C1).
  apply in_ms_seq in H as (m2 & H2 & H).
  apply (groupless_captures (lit "_")) in H2; [|reflexivity].
  apply in_ms_seq in H as (m3 & H3 & H).
  apply (groupless_captures (Opt (lit "R"))) in H3; [|reflexivity].
  apply in_ms_seq in H as (m4 & H4 & H).
  apply in_ms_group_chr in H4 as (a & Pa & _ & C4).
  apply groupless_captures in H; [|reflexivity].
  exists base, a. repeat split; [assumption| |congruence].
  unfold oneof in Pa. simpl in Pa. rewrite orb_false_r in Pa.
  apply orb_true_iff in Pa as [Pa|Pa]; apply Ascii.eqb_eq in Pa; auto.
Qed.

Lemma r12_groups nm m :
  re_match r12_re nm = Some m ->
  exists base read,
    group m "base" = Some base /\ group m "read" = Some read /\
    base <> "" /\ (read = "1" \/ read = "2").
Proof.
  unfold re_match. destruct (ms r12_re (to_chars nm) []) as [|m0 l] eqn:E; [discriminate|].
  intros [= <-].
  assert (H : In m0 (ms r12_re (to_chars nm) [])) by (rewrite E; now left).
  apply r12_captures in H as (base & a & Hb & Ha & C).
  exists (of_chars base), (of_chars [a]). rewrite C. repeat split.
  - intros H. apply of_chars_nil_iff in H. congruence.
  - destruct Ha as [->| ->]; [now left|now right].
Qed.

Lemma key_eqb_eq k1 k2 : key_eqb k1 k2 = true <-> k1 = k2.
Proof.
  unfold key_eqb, path_eqb. destruct k1 as [p1 b1], k2 as [p2 b2]. simpl.
  destruct (list_eq_dec string_dec p1 p2) as [->|NE]; simpl.
  - rewrite String.eqb_eq. split; congruence.
  - split; [discriminate|congruence].
Qed.

Lemma get_in k d v : get k d = Some v -> In (k, v) d.
Proof.
  induction d as [|[k' v'] d IH]; simpl; [discriminate|].
  destruct (key_eqb k' k) eqn:E.
  - apply key_eqb_eq in E as ->. intros [= ->]. now left.
  - intros H. right. now apply IH.
Qed.

Lemma get_none k d : get k d = None -> ~ In k (map fst d).
Proof.
  induction d as [|[k' v'] d IH]; simpl; [tauto|].
  destruct (key_eqb k' k) eqn:E; [discriminate|].
  intros H [->|Hin]; [|now apply IH].
  assert (key_eqb k k = true) by now apply key_eqb_eq. congruence.
Qed.

Lemma setdefault_in k v d x :
  In x (setdefault k v d) -> In x d \/ (x = (k, v) /\ get k d = None).
Proof.
  unfold setdefault. destruct (get k d) eqn:G; [now left|].
  intros H. apply in_app_iff in H as [H|[<-|[]]]; auto.
Qed.

Lemma setdefault_nodup k v d :
  NoDup (map fst d) -> NoDup (map fst (setdefault k v d)).
Proof.
  unfold setdefault. destruct (get k d) eqn:G; [auto|].
  intros H. rewrite map_app. simpl.
  apply NoDup_app_remove_l with (l := []) || idtac.
  apply Permutation_NoDup with (l := k :: map fst d).
  - apply Permutation_cons_append.
  - constructor; [now apply get_none|assumption].
Qed.

Lemma scan_scanned files maps p :
  In p files -> scanned files maps -> scanned files (scan maps p).
Proof.
  intros Hp (Hnd & H1 & H2). unfold scan.
  destruct (re_match r12_re (name p)) as [m|] eqn:M; [|exact (conj Hnd (conj H1 H2))].
  destruct (r12_groups _ M) as (base & read & Gb & Gr & _ & Hread).
  rewrite Gb, Gr.
  assert (Hk : forall r, read = r -> reads_as p base r).
  { intros r <-. now exists m. }
  destruct Hread as [->| ->]; simpl.
  - split; [now apply setdefault_nodup|]. split; [|assumption].
    intros k v Hin. apply setdefault_in in Hin as [Hin|[[= -> ->] _]]; [now apply H1|].
    simpl. auto.
  - split; [assumption|]. split; [assumption|].
    intros k v Hin. apply setdefault_in in Hin as [Hin|[[= -> ->] _]]; [now apply H2|].
    simpl. auto.
Qed.

Lemma fold_scan_scanned files l : forall maps,
  (forall p, In p l -> In p files) -> scanned files maps ->
  scanned files (fold_left scan l maps).
Proof.
  induction l as [|p l IH]; intros maps Hl H; simpl; [assumption|].
  apply IH; [intros q Hq; apply Hl; now right|].
  apply scan_scanned; [apply Hl; now left|assumption].
Qed.

Lemma scan_all_scanned fs root :
  scanned (rglob fs root fastq_gz) (scan_all fs root).
Proof.
  unfold scan_all. apply fold_scan_scanned.
  - intros p Hp. eapply Permutation_in; [apply sorted_perm|exact Hp].
  - split; [constructor|]. split; intros ? ? [].
Qed.

Lemma Sorted_strict {X K} (g : X -> K) (R R' : X -> X -> Prop) l :
  NoDup (map g l) ->
  (forall x y, R x y -> g x <> g y -> R' x y) ->
  Sorted R l -> Sorted R' l.
Proof.
  intros Hnd HR H. induction H as [|x l Hs IH Hh]; [constructor|].
  simpl in Hnd. inversion Hnd as [|? ? Hni Hnd']; subst.
  constructor; [now apply IH|].
  destruct Hh as [|y l' Hxy]; constructor.
  apply HR; [assumption|]. intros E. apply Hni. rewrite E. now left.
Qed.

Lemma Sorted_map_f {X Y} (f : X -> Y) (R : Y -> Y -> Prop) l :
  Sorted (fun a b => R (f a) (f b)) l -> Sorted R (map f l).
Proof.
  intros H. induction H as [|x l Hs IH Hh]; simpl; [constructor|].
  constructor; [assumption|]. destruct Hh; simpl; now constructor.
Qed.

Lemma Sorted_of_map {X Y} (f : X -> Y) (R : Y -> Y -> Prop) l :
  Sorted R (map f l) -> Sorted (fun a b => R (f a) (f b)) l.
Proof.
  induction l as [|x l IH]; simpl; intros H; [constructor|].
  inversion H as [|? ? Hs Hh]; subst. constructor; [now apply IH|].
  destruct l; simpl in *; constructor. now inversion Hh.
Qed.

Lemma key_compare_eq k1 k2 : key_compare k1 k2 = Eq -> k1 = k2.
Proof.
  unfold key_compare, pair_compare. destruct k1 as [p1 b1], k2 as [p2 b2]. simpl.
  destruct (path_compare p1 p2) eqn:E; try discriminate.
  apply path_compare_eq in E as ->. intros H.
  apply String.compare_eq_iff in H. now subst.
Qed.

Lemma item_leb_total :
  forall x y, leb_of item_compare x y = false -> leb_of item_compare y x = true.
Proof.
  apply leb_of_total. unfold item_compare, key_compare.
  apply pair_compare_antisym; [|apply path_compare_antisym].
  apply pair_compare_antisym; [apply path_compare_antisym|apply String.compare_antisym].
Qed.

(** The entries of the first map, once sorted: one per key, each a file that
    reads as R1 of its key. *)
Lemma sorted_items fs root :
  let items := sorted (leb_of item_compare) (fst (scan_all fs root)) in
  NoDup (map fst items)
  /\ forall k v, In (k, v) items ->
       In v (rglob fs root fastq_gz) /\ fst k = parent v /\ reads_as v (snd k) "1".
Proof.
  intros items. destruct (scan_all_scanned fs root) as (Hnd & H1 & _).
  assert (Hperm : Permutation items (fst (scan_all fs root))) by apply sorted_perm.
  split.
  - eapply Permutation_NoDup; [|exact Hnd]. symmetry. now apply Permutation_map.
  - intros k v Hin. apply H1. eapply Permutation_in; eassumption.
Qed.

(** The reads of a pair that [pair_fastqs] returns. *)
Lemma pair_fastqs_members fs root sample r1 r2 :
  In (sample, r1, r2) (pair_fastqs fs root) ->
  In r1 (rglob fs root fastq_gz) /\ reads_as r1 sample "1" /\
  forall p, r2 = Some p ->
    In p (rglob fs root fastq_gz) /\ reads_as p sample "2" /\ parent p = parent r1.
Proof.
  destruct (scan_all_scanned fs root) as (_ & _ & H2).
  destruct (sorted_items fs root) as (_ & Hitem).
  unfold pair_fastqs. intros H. apply in_map_iff in H as ([k v] & E & H).
  simpl in E. injection E as <- <- <-.
  destruct (Hitem _ _ H) as (Hv & Hk & Hr). repeat split; try assumption.
  - apply get_in in H0. now apply (H2 k p).
  - apply get_in in H0. now apply (H2 k p).
  - apply get_in in H0. destruct (H2 k p H0) as (_ & <- & _). exact Hk.
Qed.

(** C4.  [pair_fastqs] returns at most one entry per (directory, base) key,
    in increasing order of the keys.  The first read of an entry is a file
    that [rglob] found and that reads as R1 of the entry's base; a second
    read, when there is one, reads as R2 of the same base in the same
    directory; and a key for which no file reads as R1 has no entry. *)
Theorem pair_fastqs_spec (fs : node) (root : Path) :
  NoDup (map key_of (pair_fastqs fs root))
  /\ Sorted (fun a b => key_compare (key_of a) (key_of b) = Lt) (pair_fastqs fs root)
  /\ (forall sample r1 r2,
        In (sample, r1, r2) (pair_fastqs fs root) ->
        In r1 (rglob fs root fastq_gz) /\ reads_as r1 sample "1" /\
        forall p, r2 = Some p ->
          In p (rglob fs root fastq_gz) /\ reads_as p sample "2" /\
          parent p = parent r1)
  /\ (forall dir base,
        (forall p, In p (rglob fs root fastq_gz) -> parent p = dir ->
                   ~ reads_as p base "1") ->
        forall r1 r2, In (base, r1, r2) (pair_fastqs fs root) -> parent r1 <> dir).
Proof.
  destruct (sorted_items fs root) as (Hnd & Hitem).
  assert (Hkey : map key_of (pair_fastqs fs root)
                 = map fst (sorted (leb_of item_compare) (fst (scan_all fs root)))).
  { unfold pair_fastqs. rewrite map_map. apply map_ext_in.
    intros [k v] Hin. unfold key_of. simpl.
    destruct (Hitem _ _ Hin) as (_ & <- & _). now destruct k. }
  split; [|split; [|split]].
  - now rewrite Hkey.
  - apply (@Sorted_of_map _ _ key_of (fun k1 k2 => key_compare k1 k2 = Lt)).
    rewrite Hkey. apply Sorted_map_f.
    apply Sorted_strict with (g := fst) (R := fun a b => leb_of item_compare a b = true).
    + exact Hnd.
    + intros x y Hle Hne. unfold leb_of, item_compare, pair_compare in Hle.
      fold key in *.
      destruct (key_compare (fst x) (fst y)) eqn:E; [|reflexivity|discriminate].
      now apply key_compare_eq in E.
    + apply sorted_sorted. apply item_leb_total.
  - apply pair_fastqs_members.
  - intros dir base Hno r1 r2 H Hd.
    destruct (pair_fastqs_members _ _ _ _ _ H) as (Hr1 & Hreads & _).
    exact (Hno r1 Hr1 Hd Hreads).
Qed.

(** The example of the specification: two samples, one of them with a
    single read. *)
Example pair_fastqs_example :
  pair_fastqs
    (Dir [("reads", Dir [("A_R1.fastq.gz", File ""); ("A_R2.fastq.gz", File "");
                         ("B_1.fastq.gz", File "")])])
    ["reads"]
  = [("A", ["reads"; "A_R1.fastq.gz"], Some ["reads"; "A_R2.fastq.gz"]);
     ("B", ["reads"; "B_1.fastq.gz"], None)].
Proof. vm_compute. reflexivity. Qed.

End PairingFacts.

(** ** What the two discovery steps look at *)

Section DiscoveryFacts.

Import Str Re FS Sort Pairing Reorganize Classifier.





End DiscoveryFacts.

(** ** The job orchestrator *)

Section RunnerFacts.

Import FS Runner.

Variable w : world.
Variable cfg : config.








Lemma error_line_not_completed s n : error_line s <> completed_line n.
Proof. unfold error_line, completed_line. simpl. discriminate. Qed.


End RunnerFacts.


(** ** The report parser *)

Section ReportFacts.

Import Str FS Sort Report.

Variable parser : parser_module.




Lemma sorted_nil {X} (leb : X -> X -> bool) l : sorted leb l = [] -> l = [].
Proof.
  intros E. apply Permutation_nil. rewrite <- E. apply sorted_perm.
Qed.



End ReportFacts.


(** ** Binary64 arithmetic *)

Section FloatFacts.

Import Aggregate.
Local Open Scope float_scope.

(** A finite number other than zero divided by itself is one. *)
Lemma SFdiv_self s m e :
  SFdiv prec emax (S754_finite s m e) (S754_finite s m e) = Prim2SF 1.
Proof.
  unfold SFdiv, SFdiv_core_binary.
  replace (Z.sub (Z.add (Zdigits2 (Zpos m)) e) (Z.add (Zdigits2 (Zpos m)) e))
    with 0%Z by lia.
  replace (Z.sub e e) with 0%Z by lia.
  change (Z.min (fexp prec emax 0) 0) with (-53)%Z.
  change (0 - -53)%Z with 53%Z.
  assert (E : Z.div_eucl (Z.shiftl (Z.pos m) 53) (Z.pos m) = (Z.shiftl 1 53, 0%Z)).
  { rewrite Z.shiftl_mul_pow2 by lia.
    assert (Hq : ((Z.pos m * 2 ^ 53) / Z.pos m = 2 ^ 53)%Z).
    { rewrite Z.mul_comm. apply Z.div_mul. lia. }
    assert (Hr : ((Z.pos m * 2 ^ 53) mod Z.pos m = 0)%Z).
    { rewrite Z.mul_comm. apply Z.mod_mul. lia. }
    unfold Z.modulo, Z.div in Hq, Hr.
    destruct (Z.div_eucl (Z.pos m * 2 ^ 53) (Z.pos m)) as [q r].
    simpl in Hq, Hr. subst. reflexivity. }
  cbv iota.
  change (IntDef.Z.div_eucl (IntDef.Z.shiftl (Z.pos m) 53) (Z.pos m))
    with (Z.div_eucl (Z.shiftl (Z.pos m) 53) (Z.pos m)).
  rewrite E, xorb_nilpotent.
  assert (L : new_location (Z.pos m) 0 = loc_Exact).
  { unfold new_location, new_location_even, new_location_odd. destruct m; reflexivity. }
  rewrite L. vm_compute. reflexivity.
Qed.

Lemma div_self x : finite_nonzero x -> x / x = 1.
Proof.
  intros (s & m & e & H). apply Prim2SF_inj.
  rewrite div_spec, H. apply SFdiv_self.
Qed.

Lemma finite_nonzero_test x :
  is_finite x = true -> (x =? 0) = false -> finite_nonzero x.
Proof.
  unfold is_finite, is_nan, is_infinity, finite_nonzero.
  rewrite !eqb_spec, abs_spec.
  change (Prim2SF 0) with (S754_zero false).
  change (Prim2SF infinity) with (S754_infinity false).
  destruct (Prim2SF x) as [s|s| |s m e] eqn:E; simpl; intros H1 H2;
    try discriminate; eauto.
  destruct s; discriminate.
Qed.

(** [==] on a finite number other than zero is equality. *)
Lemma eqb_finite_nonzero v x :
  finite_nonzero x -> (v =? x) = true -> v = x.
Proof.
  intros (s & m & e & H). rewrite eqb_spec, H. intros E.
  apply Prim2SF_inj. rewrite H.
  destruct (Prim2SF v) as [s'|s'| |s' m' e']; simpl in E; try discriminate.
  - destruct s; discriminate.
  - destruct s', s; discriminate.
  - unfold SFeqb, SFcompare in E.
    destruct s', s; try discriminate.
    + destruct (Z.compare_spec e' e); try discriminate. subst.
      destruct (Pos.compare_cont Eq m' m) eqn:C; try discriminate.
      apply Pos.compare_eq in C. now subst.
    + destruct (Z.compare_spec e' e); try discriminate. subst.
      destruct (Pos.compare_cont Eq m' m) eqn:C; try discriminate.
      apply Pos.compare_eq in C. now subst.
Qed.

(** The sensitivity of the reference value against itself. *)
Lemma scaled_self v x :
  finite_nonzero x -> (v =? x) = true ->
  Frame.round2 (v / x * 100) = 100.
Proof.
  intros Hx E. rewrite (eqb_finite_nonzero Hx E), (div_self Hx). reflexivity.
Qed.

End FloatFacts.

(** ** Tables and the sensitivity *)

Section SensitivityFacts.

Import Str Report Frame Aggregate.
Local Open Scope float_scope.

Lemma find_column_some name cs v :
  find_column name cs = Some v -> existsb (String.eqb name) (map fst cs) = true.
Proof.
  induction cs as [|[k w] cs IH]; simpl; [discriminate|].
  destruct (String.eqb_spec k name) as [->|NE].
  - intros _. now rewrite String.eqb_refl.
  - intros H. rewrite (IH H). apply orb_true_r.
Qed.

Lemma find_column_map (g : list cell -> list cell) name cs :
  find_column name (map (fun c => (fst c, g (snd c))) cs)
  = option_map g (find_column name cs).
Proof.
  induction cs as [|[k w] cs IH]; simpl; [reflexivity|].
  destruct (String.eqb k name); [reflexivity|apply IH].
Qed.

Lemma mask_count {A} (P : A -> bool) l :
  List.length (filter (fun b : bool => b) (map P l)) = 0%nat <-> find_index P l = None.
Proof.
  induction l as [|a l IH]; simpl; [tauto|].
  destruct (P a); simpl; [split; discriminate|].
  rewrite IH. destruct (find_index P l); simpl; split; congruence.
Qed.

Lemma keep_first (P : cell -> bool) (T : list cell) : forall (V : list cell) i,
  List.length T = List.length V -> find_index P T = Some i ->
  hd CNone (keep (map P T) V) = nth i V CNone.
Proof.
  induction T as [|t T IH]; intros [|v V] i L H; simpl in *; try discriminate.
  destruct (P t); [now injection H as <-|].
  destruct (find_index P T) as [j|] eqn:F; [|discriminate].
  injection H as <-. apply IH; [lia|reflexivity].
Qed.

Lemma existsb_find {A} (P : A -> bool) l :
  existsb P l = match find_index P l with Some _ => true | None => false end.
Proof.
  induction l as [|a l IH]; simpl; [reflexivity|].
  destruct (P a); simpl; [reflexivity|]. rewrite IH. now destruct (find_index P l).
Qed.

Lemma bind_ok {A B} (a : A) (k : A -> res B) : bind (Ok a) k = k a.
Proof. reflexivity. Qed.

Variable df : DataFrame.
Variable column : string.
Variables T V : list cell.
Hypothesis HT : getitem df "Treatment" = Ok T.
Hypothesis HV : getitem df column = Ok V.
Hypothesis LT : List.length T = nrows df.
Hypothesis LV : List.length V = nrows df.
Hypothesis Hrows : nrows df <> 0%nat.

Lemma find_V : find_column column (cols df) = Some V.
Proof.
  unfold getitem in HV. destruct (find_column column (cols df)); congruence.
Qed.

Lemma not_degenerate : is_empty df || negb (has_column df column) = false.
Proof.
  unfold is_empty, has_column, columns.
  rewrite (find_column_some _ _ find_V).
  apply Nat.eqb_neq in Hrows. rewrite Hrows.
  pose proof find_V as F. destruct (cols df); [discriminate|reflexivity].
Qed.

Lemma where_empty (P : cell -> bool) :
  is_empty (where_ df (map P T))
  = match find_index P T with Some _ => false | None => true end.
Proof.
  unfold is_empty, where_. cbn [nrows cols].
  rewrite <- LT, <- (length_map P T), firstn_all.
  pose proof find_V as F.
  destruct (cols df) as [|c cs]; [discriminate|]. cbn [map]. rewrite orb_false_r.
  destruct (find_index P T) eqn:E.
  - apply Nat.eqb_neq. intros H. apply mask_count in H. congruence.
  - apply Nat.eqb_eq. now apply mask_count.
Qed.

Lemma where_get (P : cell -> bool) :
  getitem (where_ df (map P T)) column = Ok (keep (map P T) V).
Proof.
  unfold getitem, where_. cbn [cols].
  now rewrite (find_column_map (keep (map P T))), find_V.
Qed.

(** Taking the first row of the rows a test keeps is taking the first row
    at which the test holds. *)
Lemma select_first (P : cell -> bool) :
  (if is_empty (where_ df (map P T)) then Ok None
   else c <- getitem (where_ df (map P T)) column ;;
        x <- to_float (hd CNone c) ;; Ok (Some x))
  = match find_index P T with
    | None => Ok None
    | Some i => x <- to_float (nth i V CNone) ;; Ok (Some x)
    end.
Proof.
  rewrite where_empty. destruct (find_index P T) as [i|] eqn:E; [|reflexivity].
  rewrite where_get, bind_ok.
  assert (K : hd CNone (keep (map P T) V) = nth i V CNone).
  { apply keep_first; [lia|exact E]. }
  now rewrite K.
Qed.

(** The sensitivities are those against the value of the reference row, and
    nulls throughout when there is no such row or its value is zero. *)
Lemma calculate_sensitivity_by_reference day treat :
  calculate_sensitivity df column day treat =
  match reference_row T day treat with
  | None => Ok (nulls df)
  | Some i =>
      x <- to_float (nth i V CNone) ;;
      if x =? 0 then Ok (nulls df)
      else v <- astype_float V ;; Ok (scaled x v)
  end.
Proof.
  unfold calculate_sensitivity. rewrite not_degenerate, HV. cbn [orb].
  match goal with
  | |- context [bind ?b ?k] =>
      match k with
      | (fun base => match base with Some _ => _ | None => _ end) =>
          set (finish := k)
      end
  end.
  assert (Hfin : forall i,
            bind (x <- to_float (nth i V CNone) ;; Ok (Some x)) finish
            = (x <- to_float (nth i V CNone) ;;
               if x =? 0 then Ok (nulls df)
               else v <- astype_float V ;; Ok (scaled x v))).
  { intros i. now destruct (to_float (nth i V CNone)). }
  unfold reference_row.
  destruct treat as [t|].
  - rewrite HT, bind_ok, select_first.
    destruct (find_index (eq_str t) T) as [i|]; [apply Hfin|reflexivity].
  - destruct day as [d|].
    + rewrite HT, bind_ok. cbv zeta.
      rewrite existsb_find.
      destruct (find_index (eq_str ("Day" ++ str_of_int d ++ "_untreated")) T)
        as [i|] eqn:E.
      * rewrite select_first, E. apply Hfin.
      * rewrite select_first.
        destruct (find_index (text_startswith ("Day" ++ str_of_int d ++ "_")) T)
          as [i|]; [apply Hfin|reflexivity].
    + rewrite bind_ok.
      replace (hd CNone V) with (nth 0 V CNone) by (now destruct V).
      apply Hfin.
Qed.

End SensitivityFacts.

Section AggregateFacts.

Import Str FS Report Frame Aggregate.
Local Open Scope float_scope.

Lemma astype_float_nth V : forall vs j v,
  astype_float V = Ok vs -> nth_error V j = Some (CNum v) -> nth_error vs j = Some v.
Proof.
  induction V as [|c V IH]; intros vs j v H N; [now destruct j|].
  simpl in H.
  destruct (match c with CNone => Ok nan | _ => to_float c end) as [x|] eqn:C;
    [|discriminate].
  destruct (astype_float V) as [rest|]; [|discriminate].
  simpl in H. injection H as <-.
  destruct j as [|j]; simpl in *.
  - injection N as ->. simpl in C. now injection C as <-.
  - now apply IH.
Qed.

Lemma scaled_numbers x vs : Forall (fun c => is_num c = true) (scaled x vs).
Proof. unfold scaled. apply Forall_forall. intros c H. apply in_map_iff in H as (v & <- & _). reflexivity. Qed.

(** C1, as the code has it.  The reference row is the first row of the
    reference treatment when one is given; else, when a reference day N is
    given, the first row [DayN_untreated] or, when the table has none, the
    first row whose treatment starts with [DayN_]; else the first row.  When
    there is no such row (so when the reference treatment is not in the
    table) or when its value is zero, every sensitivity of the table is
    null; a result is never nulls in part. *)
Theorem reference_row_priority
  (df : DataFrame) (column : string) (T V : list cell)
  (reference_day : option Z) (reference_treatment : option string) :
  getitem df "Treatment" = Ok T ->
  getitem df column = Ok V ->
  List.length T = nrows df ->
  List.length V = nrows df ->
  nrows df <> 0%nat ->
  calculate_sensitivity df column reference_day reference_treatment
  = match reference_row T reference_day reference_treatment with
    | None => Ok (repeat CNone (nrows df))
    | Some i =>
        x <- to_float (nth i V CNone) ;;
        if x =? 0 then Ok (repeat CNone (nrows df))
        else v <- astype_float V ;; Ok (scaled x v)
    end
  /\ (forall t, reference_treatment = Some t ->
                find_index (eq_str t) T = None ->
                calculate_sensitivity df column reference_day reference_treatment
                = Ok (repeat CNone (nrows df)))
  /\ (forall out,
        calculate_sensitivity df column reference_day reference_treatment = Ok out ->
        out = repeat CNone (nrows df) \/ Forall (fun c => is_num c = true) out).
Proof.
  intros HT HV LT LV Hrows.
  pose proof (@calculate_sensitivity_by_reference df column T V HT HV LT LV Hrows
                reference_day reference_treatment) as H.
  unfold nulls in H.
  split; [exact H|split].
  - intros t -> Hnone. rewrite H. unfold reference_row. now rewrite Hnone.
  - intros out. rewrite H.
    destruct (reference_row T reference_day reference_treatment) as [i|];
      [|intros [= <-]; now left].
    destruct (to_float (nth i V CNone)) as [x|]; [|discriminate]. cbn [bind].
    destruct (x =? 0); [intros [= <-]; now left|].
    destruct (astype_float V) as [vs|]; [|discriminate]. cbn [bind].
    intros [= <-]. right. apply scaled_numbers.
Qed.

Lemma reference_row_priority_witness :
  calculate_sensitivity
    (ratios [("Day0_x", 10); ("Day3_druga", 50); ("Day3_untreated", 25)])
    "MUT/WT*%" (Some 3%Z) None
  = Ok [CNum 40; CNum 200; CNum 100].
Proof.
  destruct (@reference_row_priority
              (ratios [("Day0_x", 10); ("Day3_druga", 50); ("Day3_untreated", 25)])
              "MUT/WT*%"
              [CStr "Day0_x"; CStr "Day3_druga"; CStr "Day3_untreated"]
              [CNum 10; CNum 50; CNum 25] (Some 3%Z) None) as (H & _).
  - reflexivity.
  - reflexivity.
  - reflexivity.
  - reflexivity.
  - discriminate.
  - rewrite H. vm_compute. reflexivity.
Defined.

(** With a reference day and no untreated row of that day, C1 as it is
    worded leaves the table without a reference row, so with nulls, or
    falls back on its first row; the code takes the first row of that
    day. *)
Lemma reference_day_counterexample :
  claimed_reference_row [CStr "Day0_x"; CStr "Day3_druga"] (Some 3%Z) None = None
  /\ calculate_sensitivity (ratios [("Day0_x", 10); ("Day3_druga", 50)])
       "MUT/WT*%" (Some 3%Z) None
     = Ok [CNum 20; CNum 100]
  /\ calculate_sensitivity (ratios [("Day0_x", 10); ("Day3_druga", 50)])
       "MUT/WT*%" (Some 3%Z) None
     <> Ok (repeat CNone 2)
  /\ calculate_sensitivity (ratios [("Day0_x", 10); ("Day3_druga", 50)])
       "MUT/WT*%" (Some 3%Z) None
     <> calculate_sensitivity (ratios [("Day0_x", 10); ("Day3_druga", 50)])
          "MUT/WT*%" None None.
Proof.
  assert (E : calculate_sensitivity (ratios [("Day0_x", 10); ("Day3_druga", 50)])
                "MUT/WT*%" (Some 3%Z) None = Ok [CNum 20; CNum 100])
    by (vm_compute; reflexivity).
  split; [reflexivity|]. split; [exact E|]. rewrite E. split.
  - discriminate.
  - intros H. vm_compute in H. discriminate.
Qed.

(** C7, as the code has it.  When the reference value X is finite and not
    zero, every row whose ratio equals X has the sensitivity 100. *)
Theorem reference_value_scores_100
  (df : DataFrame) (column : string) (T V : list cell)
  (reference_day : option Z) (reference_treatment : option string)
  (i : nat) (X : float) (out : list cell) :
  getitem df "Treatment" = Ok T ->
  getitem df column = Ok V ->
  List.length T = nrows df ->
  List.length V = nrows df ->
  nrows df <> 0%nat ->
  reference_row T reference_day reference_treatment = Some i ->
  nth_error V i = Some (CNum X) ->
  is_finite X = true ->
  (X =? 0) = false ->
  calculate_sensitivity df column reference_day reference_treatment = Ok out ->
  forall j v, nth_error V j = Some (CNum v) -> (v =? X) = true ->
              nth_error out j = Some (CNum 100).
Proof.
  intros HT HV LT LV Hrows Hi HX Hfin Hnz Hout j v Hj Hv.
  rewrite (@calculate_sensitivity_by_reference df column T V HT HV LT LV Hrows), Hi
    in Hout.
  rewrite (nth_error_nth _ _ CNone HX) in Hout. cbn [to_float bind] in Hout.
  rewrite Hnz in Hout.
  destruct (astype_float V) as [vs|] eqn:A; [|discriminate].
  cbn [bind] in Hout. injection Hout as <-.
  unfold scaled. rewrite nth_error_map, (astype_float_nth _ _ A Hj). cbn [option_map].
  now rewrite (@scaled_self v X (@finite_nonzero_test X Hfin Hnz) Hv).
Qed.

Lemma reference_value_scores_100_witness :
  calculate_sensitivity
    (ratios [("Day0_untreated", 25); ("Day3_druga", 12.5); ("Day3_drugb", 25)])
    "MUT/WT*%" (Some 0%Z) None
  = Ok [CNum 100; CNum 50; CNum 100]
  /\ nth_error [CNum 100; CNum 50; CNum 100] 2 = Some (CNum 100).
Proof.
  split; [reflexivity|].
  apply (@reference_value_scores_100
           (ratios [("Day0_untreated", 25); ("Day3_druga", 12.5); ("Day3_drugb", 25)])
           "MUT/WT*%"
           [CStr "Day0_untreated"; CStr "Day3_druga"; CStr "Day3_drugb"]
           [CNum 25; CNum 12.5; CNum 25] (Some 0%Z) None 0%nat 25
           [CNum 100; CNum 50; CNum 100]) with (v := 25);
    try reflexivity.
  discriminate.
Defined.

(** C7 as it is worded fails when the reference value is zero:
    the rows that equal it are null.  It also fails at infinity, whose
    quotient by itself is NaN. *)
Lemma zero_reference_counterexample :
  reference_row [CStr "Day0_untreated"; CStr "Day3_druga"] None None = Some 0%nat
  /\ calculate_sensitivity (ratios [("Day0_untreated", 0); ("Day3_druga", 0)])
       "MUT/WT*%" None None
     = Ok [CNone; CNone]
  /\ nth_error [CNone; CNone] 0 <> Some (CNum 100)
  /\ calculate_sensitivity (ratios [("Day0_untreated", infinity)])
       "MUT/WT*%" None None
     = Ok [CNum nan].
Proof.
  repeat split; try (vm_compute; reflexivity). discriminate.
Qed.

Lemma bind_inv {A B} (m : res A) (k : A -> res B) b :
  bind m k = Ok b -> exists a, m = Ok a /\ k a = Ok b.
Proof. destruct m as [a|e]; simpl; [now exists a|discriminate]. Qed.

Lemma has_column_false df name : has_column df name = false -> ~ In name (columns df).
Proof.
  unfold has_column. intros H Hin.
  assert (existsb (String.eqb name) (columns df) = true); [|congruence].
  apply existsb_exists. exists name. split; [assumption|apply String.eqb_refl].
Qed.

(** What is left after the report path is dropped has no such column. *)
Lemma without_report_path_columns df df' :
  without_report_path df = Ok df' -> ~ In "ReportPath" (columns df').
Proof.
  unfold without_report_path, drop_column.
  destruct (has_column df "ReportPath") eqn:H.
  - intros [= <-]. unfold columns. cbn [cols]. intros Hin.
    apply in_map_iff in Hin as ([k v] & E & Hin). simpl in E. subst k.
    apply filter_In in Hin as [_ Hin]. simpl in Hin. discriminate.
  - intros [= <-]. now apply has_column_false.
Qed.

Section BuildFacts.

Variable parser : parser_module.
Variable fs : node.
Variable out_root : Path.
Variables wt_seq mut_seq amplicon_seq : string.
Variable reference_day : option Z.
Variable reference_treatment : option string.

Lemma build_one_columns rep df :
  build_one parser fs out_root wt_seq mut_seq amplicon_seq reference_day
    reference_treatment rep = Ok df ->
  ~ In "ReportPath" (columns df).
Proof.
  unfold build_one.
  destruct (negb (is_dir fs (out_root ++ [rep]))); [intros [= <-]; intros []|].
  destruct (subdirs_of fs (out_root ++ [rep])) as [|t ts].
  - intros H. apply bind_inv in H as (data & _ & H).
    destruct (some_record data) as [r|]; [|injection H as <-; intros []].
    apply bind_inv in H as (sens & _ & H).
    apply bind_inv in H as (df1 & _ & H).
    now apply without_report_path_columns in H.
  - intros H. apply bind_inv in H as (rows & _ & H).
    destruct rows as [|r rows]; [injection H as <-; intros []|].
    apply bind_inv in H as (sens & _ & H).
    apply bind_inv in H as (df1 & _ & H).
    now apply without_report_path_columns in H.
Qed.

Lemma dict_set_in k v d k' v' :
  In (k', v') (dict_set k v d) -> v' = v \/ In (k', v') d.
Proof.
  induction d as [|[k0 w] d IH]; simpl.
  - intros [[= <- <-]|[]]. now left.
  - destruct (String.eqb k0 k).
    + intros [[= <- <-]|H]; [now left|right; now right].
    + intros [[= <- <-]|H]; [right; now left|].
      destruct (IH H); [now left|right; now right].
Qed.

Lemma build_all_columns samples : forall dfs0 dfs,
  (forall rep df, In (rep, df) dfs0 -> ~ In "ReportPath" (columns df)) ->
  for_each (fun dfs rep =>
              df <- build_one parser fs out_root wt_seq mut_seq amplicon_seq
                      reference_day reference_treatment rep ;;
              Ok (dict_set rep df dfs)) samples dfs0 = Ok dfs ->
  forall rep df, In (rep, df) dfs -> ~ In "ReportPath" (columns df).
Proof.
  induction samples as [|s samples IH]; intros dfs0 dfs H0 H; simpl in H.
  - now injection H as <-.
  - apply bind_inv in H as (dfs1 & H1 & H).
    apply bind_inv in H1 as (df1 & B & [= <-]).
    apply (IH (dict_set s df1 dfs0) dfs); [|exact H].
    intros rep df Hin. apply dict_set_in in Hin as [->|Hin].
    + exact (@build_one_columns s df1 B).
    + exact (H0 _ _ Hin).
Qed.

(** Every record of the report parser has the report path as its last
    key. *)
Lemma record_has_report_path tp r :
  process_treatment_folder parser fs tp wt_seq mut_seq amplicon_seq = Ok (Some r) ->
  In "ReportPath" (map fst r).
Proof.
  unfold process_treatment_folder.
  destruct (actual_dir_of fs tp) as [d|]; [|discriminate].
  destruct (Sort.sorted _ (allele_matches fs d)) as [|a rest]; [discriminate|].
  destruct (negb _); [discriminate|].
  intros H.
  apply bind_inv in H as (total & _ & H).
  apply bind_inv in H as (modif & _ & H).
  apply bind_inv in H as (frame & _ & H).
  apply bind_inv in H as (mw & _ & H).
  injection H as <-. simpl. tauto.
Qed.

(** C10.  No table that [build_dfs_by_replicate] returns has a column
    [ReportPath], although every record of [process_treatment_folder] has
    that key: the column is dropped before the table is stored. *)
Theorem report_path_dropped (samples : list string) (dfs : list (string * DataFrame)) :
  build_dfs_by_replicate parser fs out_root wt_seq mut_seq amplicon_seq
    reference_day reference_treatment samples = Ok dfs ->
  (forall rep df, In (rep, df) dfs -> ~ In "ReportPath" (columns df))
  /\ (forall tp r,
        process_treatment_folder parser fs tp wt_seq mut_seq amplicon_seq = Ok (Some r) ->
        In "ReportPath" (map fst r)).
Proof.
  intros H. split.
  - unfold build_dfs_by_replicate in H.
    apply (@build_all_columns samples [] dfs); [intros ? ? []|exact H].
  - apply record_has_report_path.
Qed.

End BuildFacts.

Lemma report_path_dropped_witness :
  (forall rep df, In (rep, df) sample_tables -> ~ In "ReportPath" (columns df))
  /\ (forall tp r,
        process_treatment_folder sample_parser sample_outputs tp "" "" "" = Ok (Some r) ->
        In "ReportPath" (map fst r)).
Proof.
  apply (@report_path_dropped sample_parser sample_outputs ["out"] "" "" "" None
           (Some "Day0_untreated") ["Replica-1"; "Replica-2"] sample_tables).
  vm_compute. reflexivity.
Defined.

End AggregateFacts.

(** ** The orders of [sorted] *)

Section OrderFacts.

Import Sort.

Lemma string_compare_refl a : String.compare a a = Eq.
Proof.
  pose proof (String.compare_antisym a a) as H.
  destruct (String.compare a a); simpl in H; congruence.
Qed.

Lemma string_lt_trans a b c :
  String.compare a b = Lt -> String.compare b c = Lt -> String.compare a c = Lt.
Proof.
  intros H1 H2.
  apply OrderedTypeEx.String_as_OT.cmp_lt.
  apply OrderedTypeEx.String_as_OT.lt_trans with b;
    now apply OrderedTypeEx.String_as_OT.cmp_lt.
Qed.

Lemma path_compare_refl p : path_compare p p = Eq.
Proof.
  induction p as [|a p IH]; simpl; [reflexivity|]. now rewrite string_compare_refl.
Qed.

Lemma path_lt_trans p : forall q r,
  path_compare p q = Lt -> path_compare q r = Lt -> path_compare p r = Lt.
Proof.
  induction p as [|a p IH]; intros [|b q] [|c r]; simpl; try congruence.
  destruct (String.compare a b) eqn:E1; try discriminate.
  - apply String.compare_eq_iff in E1 as ->.
    destruct (String.compare b c); try congruence. apply IH.
  - destruct (String.compare b c) eqn:E2; try discriminate.
    + apply String.compare_eq_iff in E2 as <-. now rewrite E1.
    + now rewrite (string_lt_trans _ _ _ E1 E2).
Qed.

Lemma leb_of_trans {X} (cmp : X -> X -> comparison) :
  (forall x y, cmp x y = Eq -> x = y) ->
  (forall x y z, cmp x y = Lt -> cmp y z = Lt -> cmp x z = Lt) ->
  forall x y z, leb_of cmp x y = true -> leb_of cmp y z = true -> leb_of cmp x z = true.
Proof.
  intros Heq Hlt x y z. unfold leb_of.
  destruct (cmp x y) eqn:E1; try discriminate; intros _.
  - now apply Heq in E1 as ->.
  - destruct (cmp y z) eqn:E2; try discriminate; intros _.
    + apply Heq in E2 as <-. now rewrite E1.
    + now rewrite (Hlt _ _ _ E1 E2).
Qed.

Lemma leb_of_antisym {X} (cmp : X -> X -> comparison) :
  (forall x y, cmp x y = Eq -> x = y) ->
  (forall x y, cmp x y = CompOpp (cmp y x)) ->
  forall x y, leb_of cmp x y = true -> leb_of cmp y x = true -> x = y.
Proof.
  intros Heq Hanti x y. unfold leb_of. rewrite (Hanti y x).
  destruct (cmp x y) eqn:E; simpl; try discriminate.
  intros _ _. now apply Heq.
Qed.

Lemma path_leb_total :
  forall p q, leb_of path_compare p q = false -> leb_of path_compare q p = true.
Proof. apply leb_of_total. intros x y. apply path_compare_antisym. Qed.

Lemma path_leb_trans p q r :
  leb_of path_compare p q = true -> leb_of path_compare q r = true ->
  leb_of path_compare p r = true.
Proof.
  apply leb_of_trans.
  - intros x y. apply path_compare_eq.
  - intros x y z. apply path_lt_trans.
Qed.

Lemma path_leb_antisym p q :
  leb_of path_compare p q = true -> leb_of path_compare q p = true -> p = q.
Proof.
  apply leb_of_antisym.
  - intros x y. apply path_compare_eq.
  - intros x y. apply path_compare_antisym.
Qed.

Lemma string_leb_total :
  forall a b, leb_of String.compare a b = false -> leb_of String.compare b a = true.
Proof. apply leb_of_total. apply String.compare_antisym. Qed.

Lemma in_sorted {X} (leb : X -> X -> bool) l x : In x (sorted leb l) <-> In x l.
Proof.
  split; apply Permutation_in; [|symmetry]; apply sorted_perm.
Qed.

(** The head of a sorted list is below every element. *)
Lemma sorted_head_least {X} (leb : X -> X -> bool) l x rest :
  (forall a b, leb a b = false -> leb b a = true) ->
  (forall a b c, leb a b = true -> leb b c = true -> leb a c = true) ->
  sorted leb l = x :: rest ->
  forall y, In y l -> leb x y = true.
Proof.
  intros Htot Htrans E y Hy.
  assert (Hs : StronglySorted (fun a b => leb a b = true) (x :: rest)).
  { apply Sorted_StronglySorted.
    - intros a b c. apply Htrans.
    - rewrite <- E. now apply sorted_sorted. }
  apply (in_sorted leb) in Hy. rewrite E in Hy. destruct Hy as [<-|Hy].
  - pose proof (Htot x x) as R. destruct (leb x x); [reflexivity|now apply R].
  - inversion Hs as [|? ? _ HF]; subst. rewrite Forall_forall in HF. now apply HF.
Qed.

(** Two lists with the same elements have the same least element. *)
Lemma sorted_head_same {X} (leb : X -> X -> bool) l1 l2 :
  (forall a b, leb a b = false -> leb b a = true) ->
  (forall a b c, leb a b = true -> leb b c = true -> leb a c = true) ->
  (forall a b, leb a b = true -> leb b a = true -> a = b) ->
  (forall x, In x l1 <-> In x l2) ->
  hd_error (sorted leb l1) = hd_error (sorted leb l2).
Proof.
  intros Htot Htrans Hanti Hsame.
  destruct (sorted leb l1) as [|x1 r1] eqn:E1, (sorted leb l2) as [|x2 r2] eqn:E2;
    simpl; [reflexivity| | |].
  - apply sorted_nil in E1. subst l1.
    assert (In x2 (sorted leb l2)) by (rewrite E2; now left).
    apply in_sorted, Hsame in H. destruct H.
  - apply sorted_nil in E2. subst l2.
    assert (In x1 (sorted leb l1)) by (rewrite E1; now left).
    apply in_sorted, Hsame in H. destruct H.
  - f_equal. apply Hanti.
    + apply (sorted_head_least leb l1 Htot Htrans E1).
      apply Hsame, (in_sorted leb). rewrite E2. now left.
    + apply (sorted_head_least leb l2 Htot Htrans E2).
      apply Hsame, (in_sorted leb). rewrite E1. now left.
Qed.

End OrderFacts.

(** ** Discovery of the outputs *)

Section ListingFacts.

Import Str FS Sort Listing.

Lemma name_child (p : Path) k : name (p ++ [k]) = k.
Proof. unfold name. apply last_last. Qed.

Lemma parent_child (p : Path) k : parent (p ++ [k]) = p.
Proof. unfold parent. apply removelast_last. Qed.

Lemma find_entry_some k v es : find_entry k es = Some v -> In (k, v) es.
Proof.
  induction es as [|[k' v'] es IH]; simpl; [discriminate|].
  destruct (String.eqb_spec k' k) as [->|_].
  - intros [= ->]. now left.
  - intros H. right. now apply IH.
Qed.

Lemma is_dir_child fs root es n :
  lookup fs root = Some (Dir es) -> is_dir fs (root ++ [n]) = true ->
  In n (map fst es).
Proof.
  unfold is_dir. rewrite lookup_app. intros ->. simpl.
  destruct (find_entry n es) as [v|] eqn:F; [|discriminate]. intros _.
  apply in_map_iff. exists (n, v). split; [reflexivity|]. now apply find_entry_some.
Qed.

(** The names of the entries of a directory that pass a test on paths which
    only directories pass. *)
Lemma in_entry_names fs root es (P : Path -> bool) n :
  lookup fs root = Some (Dir es) ->
  (forall p, P p = true -> is_dir fs p = true) ->
  In n (map name (filter P (map (fun e => root ++ [fst e]) es)))
  <-> P (root ++ [n]) = true.
Proof.
  intros L HP. split.
  - intros H. apply in_map_iff in H as (p & <- & H).
    apply filter_In in H as [H Hp].
    apply in_map_iff in H as (e & <- & _). now rewrite name_child.
  - intros Hp. apply in_map_iff. exists (root ++ [n]).
    split; [apply name_child|]. apply filter_In. split; [|assumption].
    apply HP in Hp. apply (@is_dir_child _ _ _ _ L) in Hp.
    apply in_map_iff in Hp as (e & <- & He).
    apply in_map_iff. now exists e.
Qed.

Lemma is_replica_dir_iff fs (root : Path) n :
  is_replica_dir fs (root ++ [n]) = true
  <-> is_dir fs (root ++ [n]) = true /\ startswith n "Replica-" = true.
Proof. unfold is_replica_dir. rewrite name_child. apply andb_true_iff. Qed.

Lemma sorted_names_sorted l :
  Sorted (fun a b => leb_of String.compare a b = true) (sorted_names l).
Proof. apply sorted_sorted. apply string_leb_total. Qed.

Lemma set_add_in x s y : In y (set_add x s) <-> In y s \/ y = x.
Proof.
  unfold set_add. destruct (existsb (String.eqb x) s) eqn:E.
  - split; [now left|]. intros [H| ->]; [assumption|].
    apply existsb_exists in E as (z & Hz & Ez). now apply String.eqb_eq in Ez as ->.
  - rewrite in_app_iff. simpl. intuition congruence.
Qed.

Lemma set_add_nodup x s : NoDup s -> NoDup (set_add x s).
Proof.
  intros H. unfold set_add. destruct (existsb (String.eqb x) s) eqn:E; [assumption|].
  apply NoDup_app; [assumption|repeat constructor; intros []|].
  intros y Hy [<-|[]].
  assert (existsb (String.eqb x) s = true); [|congruence].
  apply existsb_exists. exists x. split; [assumption|apply String.eqb_refl].
Qed.

(** What a loop of [names.add] leaves in the set. *)
Lemma add_loop {A} (P : A -> bool) (g : A -> string) l : forall s,
  NoDup s ->
  let s' := fold_left (fun names t => if P t then set_add (g t) names else names) l s in
  NoDup s' /\ forall y, In y s' <-> In y s \/ exists t, In t l /\ P t = true /\ g t = y.
Proof.
  induction l as [|a l IH]; intros s Hs; simpl.
  - split; [assumption|]. intros y. split; [now left|]. now intros [H|(t & [] & _)].
  - destruct (IH (if P a then set_add (g a) s else s)) as [Hnd Hin].
    { destruct (P a); [now apply set_add_nodup|assumption]. }
    split; [exact Hnd|]. intros y. rewrite Hin. clear Hin Hnd IH.
    destruct (P a) eqn:Pa.
    + rewrite set_add_in. split.
      * intros [[H| -> ]|(t & Ht & Pt & Gy)]; [now left| |].
        -- right. exists a. auto.
        -- right. exists t. auto.
      * intros [H|(t & [<-|Ht] & Pt & Gy)]; [now left; left| |].
        -- left. right. now symmetry.
        -- right. now exists t.
    + split.
      * intros [H|(t & Ht & Pt & Gy)]; [now left|]. right. exists t. auto.
      * intros [H|(t & [<-|Ht] & Pt & Gy)]; [now left|congruence|].
        right. now exists t.
Qed.

Lemma add_all_loop {A} (g : A -> string) l : forall s,
  NoDup s ->
  let s' := fold_left (fun names p => set_add (g p) names) l s in
  NoDup s' /\ forall y, In y s' <-> In y s \/ exists t, In t l /\ g t = y.
Proof.
  induction l as [|a l IH]; intros s Hs; simpl.
  - split; [assumption|]. intros y. split; [now left|]. now intros [H|(t & [] & _)].
  - destruct (IH (set_add (g a) s)) as [Hnd Hin]; [now apply set_add_nodup|].
    split; [exact Hnd|]. intros y. rewrite Hin, set_add_in. clear. split.
    + intros [[H| -> ]|(t & Ht & Gy)]; [now left| |].
      * right. exists a. auto.
      * right. exists t. auto.
    + intros [H|(t & [<-|Ht] & Gy)]; [now left; left| |].
      * left. right. now symmetry.
      * right. now exists t.
Qed.

(** The loop over the replicates does not raise, and collects the names of
    the directories in them. *)
Lemma treatments_loop fs reps : forall s,
  NoDup s ->
  (forall r, In r reps -> is_dir fs r = true) ->
  exists s', for_each (add_treatments fs) reps s = Ok s' /\ NoDup s' /\
    forall y, In y s' <->
      In y s \/ exists r, In r reps /\ is_dir fs (r ++ [y]) = true.
Proof.
  induction reps as [|r reps IH]; intros s Hs Hd; simpl.
  - exists s. split; [reflexivity|]. split; [assumption|].
    intros y. split; [now left|]. now intros [H|(t & [] & _)].
  - assert (Hr : is_dir fs r = true) by (apply Hd; now left).
    unfold add_treatments at 1, iterdir. unfold is_dir in Hr.
    destruct (lookup fs r) as [[c|es]|] eqn:L; try discriminate.
    simpl.
    destruct (@add_loop _ (is_dir fs) name (map (fun e => r ++ [fst e]) es) s Hs)
      as [Hnd Hin].
    destruct (IH _ Hnd) as (s' & E & Hnd' & Hin').
    { intros r' H'. apply Hd. now right. }
    exists s'. split; [exact E|]. split; [exact Hnd'|].
    intros y. rewrite Hin', Hin. clear Hin Hin'. split.
    + intros [[H|(t & Ht & Pt & Gy)]|(r' & Hr' & H)]; [now left| |].
      * right. exists r. split; [now left|].
        apply in_map_iff in Ht as (e & <- & _). rewrite name_child in Gy. now subst.
      * right. exists r'. auto.
    + intros [H|(r' & [<-|Hr'] & H)]; [now left; left| |].
      * left. right. exists (r ++ [y]). split; [|split; [assumption|apply name_child]].
        apply (@is_dir_child _ _ _ _ L) in H. apply in_map_iff in H as (e & <- & He).
        apply in_map_iff. now exists e.
      * right. now exists r'.
Qed.

(** X1.  [list_replicates_from_outputs] raises when the root is missing or
    is a file.  On a directory it returns names in increasing order: the
    sub-directories whose name starts with [Replica-] and, only when there
    is none, every sub-directory. *)
Theorem list_replicates_spec (fs : node) (root : Path) :
  match lookup fs root with
  | Some (Dir _) =>
      exists reps,
        list_replicates_from_outputs fs root = Ok reps
        /\ Sorted (fun a b => leb_of String.compare a b = true) reps
        /\ forall n, In n reps <->
             is_dir fs (root ++ [n]) = true
             /\ (startswith n "Replica-" = true
                 \/ forall k, is_dir fs (root ++ [k]) = true ->
                              startswith k "Replica-" = false)
  | Some (File _) => list_replicates_from_outputs fs root = Raise NotADirectoryError
  | None => list_replicates_from_outputs fs root = Raise FileNotFoundError
  end.
Proof.
  unfold list_replicates_from_outputs, iterdir.
  destruct (lookup fs root) as [[c|es]|] eqn:L; try reflexivity.
  simpl.
  set (ps := map (fun e => root ++ [fst e]) es).
  assert (Hrep : forall n, In n (map name (filter (is_replica_dir fs) ps))
                           <-> is_replica_dir fs (root ++ [n]) = true).
  { intros n. apply (@in_entry_names fs root es (is_replica_dir fs) n L).
    intros p H. unfold is_replica_dir in H. now apply andb_true_iff in H as [H _]. }
  assert (Hall : forall n, In n (map name (filter (is_dir fs) ps))
                           <-> is_dir fs (root ++ [n]) = true).
  { intros n. apply (@in_entry_names fs root es (is_dir fs) n L). auto. }
  destruct (sorted_names (map name (filter (is_replica_dir fs) ps))) as [|r reps] eqn:E.
  - apply sorted_nil in E.
    assert (Hno : forall k, is_dir fs (root ++ [k]) = true ->
                            startswith k "Replica-" = false).
    { intros k Hk. destruct (startswith k "Replica-") eqn:S; [|reflexivity].
      assert (In k (map name (filter (is_replica_dir fs) ps))).
      { apply Hrep, is_replica_dir_iff. auto. }
      rewrite E in H. destruct H. }
    eexists. split; [reflexivity|]. split; [apply sorted_names_sorted|].
    intros n. unfold sorted_names. rewrite in_sorted, Hall. split; [auto|tauto].
  - eexists. split; [reflexivity|]. split; [rewrite <- E; apply sorted_names_sorted|].
    intros n. rewrite <- E. unfold sorted_names at 1.
    rewrite in_sorted, Hrep, is_replica_dir_iff. split.
    + intros [H1 H2]. auto.
    + intros [H1 [H2|H2]]; [auto|]. exfalso.
      assert (Hr : In r (sorted_names (map name (filter (is_replica_dir fs) ps))))
        by (rewrite E; now left).
      unfold sorted_names in Hr.
      apply in_sorted, Hrep, is_replica_dir_iff in Hr as [Hd Hs].
      rewrite (H2 _ Hd) in Hs. discriminate.
Qed.

(** On a directory [list_treatments_from_outputs] returns, in strictly
    increasing order, the names of the directories inside the [Replica-]
    directories or, when there is none, of the sub-directories of the
    root. *)
Lemma list_treatments_dir fs root es :
  lookup fs root = Some (Dir es) ->
  exists names,
    list_treatments_from_outputs fs root = Ok names
    /\ Sorted (fun a b => String.compare a b = Lt) names
    /\ forall t, In t names <->
         (exists r, is_replica_dir fs (root ++ [r]) = true
                    /\ is_dir fs (root ++ [r; t]) = true)
         \/ ((forall r t', is_replica_dir fs (root ++ [r]) = true ->
                           is_dir fs (root ++ [r; t']) = false)
             /\ is_dir fs (root ++ [t]) = true).
Proof.
  intros L. unfold list_treatments_from_outputs, iterdir. rewrite L.
  simpl.
  set (ps := map (fun e => root ++ [fst e]) es).
  assert (Hstrict : forall l, NoDup l ->
            Sorted (fun a b => String.compare a b = Lt) (sorted_names l)).
  { intros l Hl.
    apply Sorted_strict with (g := fun x : string => x)
                             (R := fun a b => leb_of String.compare a b = true).
    - rewrite map_id. eapply Permutation_NoDup; [|exact Hl].
      symmetry. apply sorted_perm.
    - intros x y Hle Hne. unfold leb_of in Hle.
      destruct (String.compare x y) eqn:C; [|reflexivity|discriminate].
      now apply String.compare_eq_iff in C.
    - apply sorted_names_sorted. }
  assert (Hreps : forall p, In p (filter (is_replica_dir fs) ps) <->
                    exists r, p = root ++ [r] /\ is_replica_dir fs (root ++ [r]) = true).
  { intros p. rewrite filter_In. split.
    - intros [H Hp]. apply in_map_iff in H as (e & <- & _). now exists (fst e).
    - intros (r & -> & Hr). split; [|assumption].
      apply is_replica_dir_iff in Hr as [Hd _].
      apply (@is_dir_child _ _ _ _ L) in Hd. apply in_map_iff in Hd as (e & <- & He).
      apply in_map_iff. now exists e. }
  destruct (@treatments_loop fs (filter (is_replica_dir fs) ps) [] (NoDup_nil _))
    as (s & E & Hnd & Hin).
  { intros r Hr. apply filter_In in Hr as [_ Hr].
    unfold is_replica_dir in Hr. now apply andb_true_iff in Hr as [Hr _]. }
  rewrite E. simpl.
  assert (Hs : forall t, In t s <->
                 exists r, is_replica_dir fs (root ++ [r]) = true
                           /\ is_dir fs (root ++ [r; t]) = true).
  { intros t. rewrite Hin. split.
    - intros [[]|(p & Hp & Ht)]. apply Hreps in Hp as (r & -> & Hr).
      exists r. split; [assumption|]. now rewrite <- app_assoc in Ht.
    - intros (r & Hr & Ht). right. exists (root ++ [r]).
      split; [apply Hreps; now exists r|]. now rewrite <- app_assoc. }
  destruct s as [|t0 s].
  - destruct (@add_all_loop _ name (filter (is_dir fs) ps) [] (NoDup_nil _))
      as [Hnd2 Hin2].
    eexists. split; [reflexivity|]. split; [now apply Hstrict|].
    intros t. unfold sorted_names. rewrite in_sorted, Hin2. split.
    + intros [[]|(p & Hp & Hn)]. right. split.
      * intros r t' Hr. destruct (is_dir fs (root ++ [r; t'])) eqn:D; [|reflexivity].
        exfalso. apply (proj2 (Hs t')). now exists r.
      * apply filter_In in Hp as [Hp Hd].
        apply in_map_iff in Hp as (e & <- & _). rewrite name_child in Hn. now subst.
    + intros [(r & Hr & Ht)|[_ Hd]].
      * exfalso. apply (proj2 (Hs t)). now exists r.
      * right. exists (root ++ [t]). split; [|apply name_child].
        apply filter_In. split; [|assumption].
        apply (@is_dir_child _ _ _ _ L) in Hd. apply in_map_iff in Hd as (e & <- & He).
        apply in_map_iff. now exists e.
  - eexists. split; [reflexivity|]. split; [now apply Hstrict|].
    intros t. unfold sorted_names. rewrite in_sorted, Hs. split; [now left|].
    intros [H|[Hno _]]; [assumption|]. exfalso.
    assert (H0 : In t0 (t0 :: s)) by now left.
    apply Hs in H0 as (r & Hr & Ht). now rewrite (Hno _ _ Hr) in Ht.
Qed.


(** X2.  [list_treatments_from_outputs] raises when the root is missing or
    is a file.  On a directory it returns names in strictly increasing
    order, so each once, also when several replicates hold the same
    treatment: the names of the directories inside the [Replica-]
    directories and, only when there is none, the names of the
    sub-directories of the root. *)
Theorem list_treatments_spec (fs : node) (root : Path) :
  match lookup fs root with
  | Some (Dir _) =>
      exists names,
        list_treatments_from_outputs fs root = Ok names
        /\ Sorted (fun a b => String.compare a b = Lt) names
        /\ forall t, In t names <->
             (exists r, is_replica_dir fs (root ++ [r]) = true
                        /\ is_dir fs (root ++ [r; t]) = true)
             \/ ((forall r t', is_replica_dir fs (root ++ [r]) = true ->
                               is_dir fs (root ++ [r; t']) = false)
                 /\ is_dir fs (root ++ [t]) = true)
  | Some (File _) => list_treatments_from_outputs fs root = Raise NotADirectoryError
  | None => list_treatments_from_outputs fs root = Raise FileNotFoundError
  end.
Proof.
  destruct (lookup fs root) as [[c|es]|] eqn:L.
  - unfold list_treatments_from_outputs, iterdir. now rewrite L.
  - exact (@list_treatments_dir fs root es L).
  - unfold list_treatments_from_outputs, iterdir. now rewrite L.
Qed.

End ListingFacts.

(** ** Which file the pair matcher keeps *)

Section FilingFacts.

Import Str Re FS Sort Pairing Filing.

Lemma filed_under_iff first k p :
  filed_under first k p = true <->
  fst k = parent p /\ reads_as p (snd k) (if first then "1" else "2").
Proof.
  unfold filed_under, reads_as.
  destruct (re_match r12_re (name p)) as [m|] eqn:M.
  - destruct (r12_groups _ M) as (base & read & Gb & Gr & _ & Hread).
    rewrite Gb, Gr, andb_true_iff, key_eqb_eq. split.
    + intros [<- H]. apply Bool.eqb_prop in H. simpl. split; [reflexivity|].
      exists m. split; [reflexivity|]. split; [assumption|].
      rewrite Gr. f_equal. rewrite <- H.
      destruct Hread as [-> | ->]; reflexivity.
    + intros [Hk (m' & [= <-] & Gb' & Gr')]. split.
      * destruct k as [d b]. simpl in *. congruence.
      * rewrite Gr in Gr'. injection Gr' as ->. now destruct first.
  - split; [discriminate|]. now intros [_ (m & H & _)].
Qed.

Lemma get_app k d1 d2 :
  get k (d1 ++ d2) = match get k d1 with Some v => Some v | None => get k d2 end.
Proof.
  induction d1 as [|[k' v'] d1 IH]; simpl; [reflexivity|].
  now destruct (key_eqb k' k).
Qed.

Lemma get_setdefault k k' v d :
  get k (setdefault k' v d)
  = match get k d with
    | Some x => Some x
    | None => if key_eqb k' k then Some v else None
    end.
Proof.
  unfold setdefault. destruct (get k' d) as [x|] eqn:G.
  - destruct (get k d) eqn:G'; [reflexivity|].
    destruct (key_eqb k' k) eqn:E; [|reflexivity].
    apply key_eqb_eq in E. congruence.
  - rewrite get_app. simpl. reflexivity.
Qed.

Lemma scan_get_first maps p k :
  get k (fst (scan maps p))
  = match get k (fst maps) with
    | Some v => Some v
    | None => if filed_under true k p then Some p else None
    end.
Proof.
  unfold scan, filed_under.
  destruct (re_match r12_re (name p)) as [m|]; [|now destruct (get k (fst maps))].
  destruct (group m "base") as [base|]; [|now destruct (get k (fst maps))].
  destruct (group m "read") as [read|]; [|now destruct (get k (fst maps))].
  destruct (String.eqb read "1"); simpl.
  - now rewrite get_setdefault, andb_true_r.
  - rewrite andb_false_r. now destruct (get k (fst maps)).
Qed.

Lemma scan_get_second maps p k :
  get k (snd (scan maps p))
  = match get k (snd maps) with
    | Some v => Some v
    | None => if filed_under false k p then Some p else None
    end.
Proof.
  unfold scan, filed_under.
  destruct (re_match r12_re (name p)) as [m|]; [|now destruct (get k (snd maps))].
  destruct (group m "base") as [base|]; [|now destruct (get k (snd maps))].
  destruct (group m "read") as [read|]; [|now destruct (get k (snd maps))].
  destruct (String.eqb read "1"); simpl.
  - rewrite andb_false_r. now destruct (get k (snd maps)).
  - now rewrite get_setdefault, andb_true_r.
Qed.

(** Each map keeps, for a key, the first file of the walk that is filed
    under it. *)
Lemma fold_scan_get l : forall maps k,
  get k (fst (fold_left scan l maps))
  = match get k (fst maps) with
    | Some v => Some v
    | None => find (filed_under true k) l
    end
  /\ get k (snd (fold_left scan l maps))
     = match get k (snd maps) with
       | Some v => Some v
       | None => find (filed_under false k) l
       end.
Proof.
  induction l as [|p l IH]; intros maps k; simpl.
  - split; [now destruct (get k (fst maps))|now destruct (get k (snd maps))].
  - destruct (IH (scan maps p) k) as [-> ->].
    rewrite scan_get_first, scan_get_second. split.
    + destruct (get k (fst maps)); [reflexivity|].
      now destruct (filed_under true k p).
    + destruct (get k (snd maps)); [reflexivity|].
      now destruct (filed_under false k p).
Qed.

Lemma scan_all_get fs root k :
  let files := sorted (leb_of path_compare) (rglob fs root fastq_gz) in
  get k (fst (scan_all fs root)) = find (filed_under true k) files
  /\ get k (snd (scan_all fs root)) = find (filed_under false k) files.
Proof. apply (fold_scan_get _ ([], []) k). Qed.

(** The first element of a sorted list that passes a test is below every
    element that passes it. *)
Lemma find_least {X} (R : X -> X -> Prop) (P : X -> bool) l :
  StronglySorted R l -> (forall x, R x x) ->
  match find P l with
  | Some q => In q l /\ P q = true /\ forall p, In p l -> P p = true -> R q p
  | None => forall p, In p l -> P p = false
  end.
Proof.
  intros Hs Hrefl. induction Hs as [|a l Hs IH Ha]; simpl; [now intros p []|].
  destruct (P a) eqn:Pa.
  - split; [now left|]. split; [assumption|].
    intros p [<-|Hp] _; [apply Hrefl|]. rewrite Forall_forall in Ha. now apply Ha.
  - destruct (find P l) as [q|].
    + destruct IH as (Hq & Pq & Hleast). split; [now right|]. split; [assumption|].
      intros p [<-|Hp] Pp; [congruence|now apply Hleast].
    + intros p [<-|Hp]; [assumption|now apply IH].
Qed.

Lemma sorted_files fs root :
  StronglySorted (fun a b => leb_of path_compare a b = true)
    (sorted (leb_of path_compare) (rglob fs root fastq_gz)).
Proof.
  apply Sorted_StronglySorted.
  - intros a b c. apply path_leb_trans.
  - apply sorted_sorted. apply path_leb_total.
Qed.

Lemma path_leb_refl p : leb_of path_compare p p = true.
Proof. unfold leb_of. now rewrite path_compare_refl. Qed.

(** The file kept for a key, among the files found. *)
Lemma kept_file fs root first k :
  match find (filed_under first k)
          (sorted (leb_of path_compare) (rglob fs root fastq_gz)) with
  | Some q =>
      In q (rglob fs root fastq_gz) /\ filed_under first k q = true /\
      forall p, In p (rglob fs root fastq_gz) -> filed_under first k p = true ->
                leb_of path_compare q p = true
  | None =>
      forall p, In p (rglob fs root fastq_gz) -> filed_under first k p = false
  end.
Proof.
  pose proof (@find_least _ _ (filed_under first k) _ (sorted_files fs root)
                path_leb_refl) as H.
  destruct (find (filed_under first k) _) as [q|].
  - destruct H as (Hq & Pq & Hleast). apply in_sorted in Hq. split; [assumption|].
    split; [assumption|]. intros p Hp. apply Hleast. now apply in_sorted.
  - intros p Hp. apply H. now apply in_sorted.
Qed.

(** The entries of [pair_fastqs] are those of the first map. *)
Lemma pair_fastqs_entry fs root base r1 r2 :
  In (base, r1, r2) (pair_fastqs fs root) <->
  get (parent r1, base) (fst (scan_all fs root)) = Some r1
  /\ r2 = get (parent r1, base) (snd (scan_all fs root)).
Proof.
  destruct (scan_all_scanned fs root) as (Hnd & H1 & _).
  unfold pair_fastqs. rewrite in_map_iff. split.
  - intros ([k v] & E & Hin). simpl in E. injection E as <- <- <-.
    apply in_sorted in Hin. destruct (H1 _ _ Hin) as (_ & Hk & _).
    assert (Ek : (parent v, snd k) = k) by (destruct k; simpl in *; congruence).
    rewrite Ek. split; [|reflexivity].
    destruct (get k (fst (scan_all fs root))) as [v'|] eqn:G.
    + apply get_in in G. f_equal.
      clear - Hnd Hin G. revert Hnd Hin G.
      generalize (fst (scan_all fs root)). intros d.
      induction d as [|[k0 v0] d IH]; simpl; [tauto|].
      intros Hnd [E1|H1] [E2|H2]; inversion Hnd as [|? ? Hni Hnd']; subst.
      * congruence.
      * injection E1 as -> ->. exfalso. apply Hni. apply in_map_iff.
        now exists (k, v').
      * injection E2 as -> ->. exfalso. apply Hni. apply in_map_iff.
        now exists (k, v).
      * now apply IH.
    + apply get_none in G. exfalso. apply G. apply in_map_iff. now exists (k, v).
  - intros [G ->]. exists ((parent r1, base), r1). split; [reflexivity|].
    apply in_sorted. now apply get_in.
Qed.

(** X3.  Every file found that reads as R1 of a base has its entry: the pair
    of its directory and base is in the result, and the first read of that
    pair is the least path, in the order of [sorted], among the files of the
    directory that read as R1 of the base. *)
Theorem pair_fastqs_complete (fs : node) (root : Path) (p : Path) (base : string) :
  In p (rglob fs root fastq_gz) ->
  reads_as p base "1" ->
  exists r1 r2,
    In (base, r1, r2) (pair_fastqs fs root)
    /\ parent r1 = parent p
    /\ forall q, In q (rglob fs root fastq_gz) -> parent q = parent p ->
                 reads_as q base "1" -> leb_of path_compare r1 q = true.
Proof.
  intros Hp Hr.
  set (k := (parent p, base)).
  assert (Fp : filed_under true k p = true) by now apply filed_under_iff.
  pose proof (kept_file fs root true k) as H.
  destruct (scan_all_get fs root k) as [G1 _].
  destruct (find (filed_under true k) _) as [r1|].
  - destruct H as (Hin & F1 & Hleast).
    apply filed_under_iff in F1 as [Hk _]. simpl in Hk.
    exists r1, (get k (snd (scan_all fs root))). split; [|split].
    + apply pair_fastqs_entry. rewrite <- Hk. fold k. now split.
    + now symmetry.
    + intros q Hq Hpar Hrq. apply Hleast; [assumption|].
      apply filed_under_iff. simpl. now split.
  - now rewrite (H p Hp) in Fp.
Qed.

Lemma pair_fastqs_complete_witness :
  exists r1 r2,
    In ("Day1_v_DrugA_2_S1", r1, r2)
       (pair_fastqs Reorganize.upload_organized ["tmp"])
    /\ parent r1
       = parent ["tmp"; "Replica-2"; "Day1_druga"; "Day1_v_DrugA_2_S1_R1_001.fastq.gz"]
    /\ forall q, In q (rglob Reorganize.upload_organized ["tmp"] fastq_gz) ->
         parent q
         = parent ["tmp"; "Replica-2"; "Day1_druga"; "Day1_v_DrugA_2_S1_R1_001.fastq.gz"] ->
         reads_as q "Day1_v_DrugA_2_S1" "1" -> leb_of path_compare r1 q = true.
Proof.
  apply (@pair_fastqs_complete Reorganize.upload_organized ["tmp"]
           ["tmp"; "Replica-2"; "Day1_druga"; "Day1_v_DrugA_2_S1_R1_001.fastq.gz"]
           "Day1_v_DrugA_2_S1").
  - vm_compute. tauto.
  - eexists. split; [vm_compute; reflexivity|]. split; vm_compute; reflexivity.
Defined.

(** X4.  The second read of an entry is the least path among the files of
    the same directory that read as R2 of the same base, and it is [None]
    exactly when no file found reads so. *)
Theorem pair_fastqs_second_read (fs : node) (root : Path)
  (base : string) (r1 : Path) (r2 : option Path) :
  In (base, r1, r2) (pair_fastqs fs root) ->
  match r2 with
  | Some q =>
      In q (rglob fs root fastq_gz) /\ parent q = parent r1 /\ reads_as q base "2"
      /\ forall p, In p (rglob fs root fastq_gz) -> parent p = parent r1 ->
                   reads_as p base "2" -> leb_of path_compare q p = true
  | None =>
      forall p, In p (rglob fs root fastq_gz) -> parent p = parent r1 ->
                ~ reads_as p base "2"
  end.
Proof.
  intros H. apply pair_fastqs_entry in H as [_ ->].
  set (k := (parent r1, base)).
  pose proof (kept_file fs root false k) as H.
  destruct (scan_all_get fs root k) as [_ ->].
  destruct (find (filed_under false k) _) as [q|].
  - destruct H as (Hin & F & Hleast).
    apply filed_under_iff in F as [Hk Hr]. simpl in Hk, Hr.
    split; [assumption|]. split; [now symmetry|]. split; [assumption|].
    intros p Hp Hpar Hrp. apply Hleast; [assumption|].
    apply filed_under_iff. simpl. now split.
  - intros p Hp Hpar Hrp.
    assert (F : filed_under false k p = true).
    { apply filed_under_iff. simpl. now split. }
    now rewrite (H p Hp) in F.
Qed.

Lemma pair_fastqs_second_read_witness :
  In ["tmp"; "Replica-2"; "Day1_druga"; "Day1_v_DrugA_2_S1_R2_001.fastq.gz"]
     (rglob Reorganize.upload_organized ["tmp"] fastq_gz)
  /\ parent ["tmp"; "Replica-2"; "Day1_druga"; "Day1_v_DrugA_2_S1_R2_001.fastq.gz"]
     = parent ["tmp"; "Replica-2"; "Day1_druga"; "Day1_v_DrugA_2_S1_R1_001.fastq.gz"]
  /\ reads_as ["tmp"; "Replica-2"; "Day1_druga"; "Day1_v_DrugA_2_S1_R2_001.fastq.gz"]
       "Day1_v_DrugA_2_S1" "2"
  /\ forall p, In p (rglob Reorganize.upload_organized ["tmp"] fastq_gz) ->
       parent p
       = parent ["tmp"; "Replica-2"; "Day1_druga"; "Day1_v_DrugA_2_S1_R1_001.fastq.gz"] ->
       reads_as p "Day1_v_DrugA_2_S1" "2" ->
       leb_of path_compare
         ["tmp"; "Replica-2"; "Day1_druga"; "Day1_v_DrugA_2_S1_R2_001.fastq.gz"] p = true.
Proof.
  apply (@pair_fastqs_second_read Reorganize.upload_organized ["tmp"]
           "Day1_v_DrugA_2_S1"
           ["tmp"; "Replica-2"; "Day1_druga"; "Day1_v_DrugA_2_S1_R1_001.fastq.gz"]
           (Some ["tmp"; "Replica-2"; "Day1_druga"; "Day1_v_DrugA_2_S1_R2_001.fastq.gz"])).
  vm_compute. tauto.
Defined.

(** X5.  [pair_fastqs] returns no pair exactly when no file found reads as
    R1: files that read as R2 alone give nothing. *)
Theorem pair_fastqs_empty (fs : node) (root : Path) :
  pair_fastqs fs root = []
  <-> forall p base, In p (rglob fs root fastq_gz) -> ~ reads_as p base "1".
Proof.
  split.
  - intros E p base Hp Hr.
    set (k := (parent p, base)).
    assert (Fp : filed_under true k p = true) by now apply filed_under_iff.
    pose proof (kept_file fs root true k) as H.
    destruct (scan_all_get fs root k) as [G1 _].
    destruct (find (filed_under true k) _) as [r1|].
    + destruct H as (_ & F1 & _). apply filed_under_iff in F1 as [Hk _]. simpl in Hk.
      assert (Hin : In (base, r1, get k (snd (scan_all fs root))) (pair_fastqs fs root)).
      { apply pair_fastqs_entry. rewrite <- Hk. fold k. now split. }
      rewrite E in Hin. destruct Hin.
    + now rewrite (H p Hp) in Fp.
  - intros Hno. destruct (pair_fastqs fs root) as [|[[s r1] r2] l] eqn:E; [reflexivity|].
    exfalso.
    assert (Hin : In (s, r1, r2) (pair_fastqs fs root)) by (rewrite E; now left).
    apply pair_fastqs_members in Hin as (Hr1 & Hreads & _).
    exact (Hno _ _ Hr1 Hreads).
Qed.

End FilingFacts.

(** ** Where the jobs write *)

Section JobFacts.

Import Str Re FS Sort Classifier Reorganize Pairing Runner Organised.

(** What a job returns when it returns: the sample it was given and the
    folder it made. *)
Lemma one_result w cfg i sample r1 r2 res :
  one w cfg i sample r1 r2 = Ok res ->
  fst (fst (fst res)) = sample
  /\ snd res
     = (let rep := if path_exists w (parent (parent r1))
                   then name (parent (parent r1)) else "" in
        if startswith rep "Replica-"
        then out_root cfg ++ [rep; name (parent r1); sample]
        else out_root cfg ++ [sample]).
Proof.
  unfold one. cbv zeta. intros H.
  apply bind_inv in H as (u & _ & H).
  apply bind_inv in H as (cmd & _ & H).
  apply bind_inv in H as (proc & _ & H).
  injection H as <-. split; reflexivity.
Qed.

Lemma prefix_app p x : String.prefix p (p ++ x) = true.
Proof.
  induction p as [|a p IH]; simpl; [now destruct x|].
  destruct (ascii_dec a a); [assumption|congruence].
Qed.

Lemma classified_replica n rep treat :
  parse_fastq_metadata n = Some (rep, treat) -> startswith rep "Replica-" = true.
Proof.
  unfold parse_fastq_metadata. destruct (re_match fastq_re n); [|discriminate].
  intros [= <- _]. apply (prefix_app "Replica-").
Qed.

(** The destination of a file: two folders below the root, the first a
    [Replica-] folder. *)
Lemma destination_shape tmp p :
  exists rep treat,
    destination tmp p = tmp ++ [rep; treat] /\ startswith rep "Replica-" = true
    /\ (rep, treat) = match parse_fastq_metadata (name p) with
                      | Some m => m
                      | None => ("Replica-unknown", "Day-unknown")
                      end.
Proof.
  unfold destination.
  destruct (parse_fastq_metadata (name p)) as [[rep treat]|] eqn:E.
  - exists rep, treat. split; [reflexivity|]. split; [|reflexivity].
    now apply classified_replica in E.
  - exists "Replica-unknown", "Day-unknown". split; [reflexivity|].
    split; [apply (prefix_app "Replica-" "unknown")|reflexivity].
Qed.

Lemma job_folder w cfg i sample r1 r2 res (tmp : Path) rep treat :
  parent r1 = tmp ++ [rep; treat] ->
  startswith rep "Replica-" = true ->
  path_exists w (parent (parent r1)) = true ->
  one w cfg i sample r1 r2 = Ok res ->
  snd res = out_root cfg ++ [rep; treat; sample].
Proof.
  intros Hp Hs He H. apply one_result in H as [_ ->]. cbv zeta.
  rewrite He, Hp.
  change (tmp ++ [rep; treat]) with (tmp ++ [rep] ++ [treat]).
  rewrite app_assoc, parent_child, !name_child, Hs. reflexivity.
Qed.



Lemma lookup_parent fs p n :
  lookup fs p = Some n -> exists n', lookup fs (parent p) = Some n'.
Proof.
  destruct p as [|c p'] eqn:E; [intros H; now exists n|]. rewrite <- E.
  assert (Hne : p <> []) by (subst; discriminate).
  rewrite (parent_name Hne) at 1. rewrite lookup_app.
  destruct (lookup fs (parent p)) as [n'|]; [now exists n'|discriminate].
Qed.

Lemma pair_fastqs_keys fs root : NoDup (map key_of (pair_fastqs fs root)).
Proof.
  destruct (sorted_items fs root) as (Hnd & Hitem).
  replace (map key_of (pair_fastqs fs root))
    with (map fst (sorted (leb_of item_compare) (fst (scan_all fs root))));
    [exact Hnd|].
  unfold pair_fastqs. rewrite map_map. apply map_ext_in.
  intros [k v] Hin. unfold key_of. simpl.
  destruct (Hitem _ _ Hin) as (_ & <- & _). now destruct k.
Qed.

Lemma NoDup_map_inj {X Y} (f : X -> Y) l x y :
  NoDup (map f l) -> In x l -> In y l -> f x = f y -> x = y.
Proof.
  induction l as [|a l IH]; simpl; [tauto|].
  intros Hnd Hx Hy E. inversion Hnd as [|? ? Hni Hnd']; subst.
  destruct Hx as [->|Hx], Hy as [->|Hy]; [reflexivity| | |now apply IH].
  - exfalso. apply Hni. rewrite E. now apply in_map.
  - exfalso. apply Hni. rewrite <- E. now apply in_map.
Qed.

(** X7.  On an organised upload no two pairs of [pair_fastqs] write to the
    same folder: their jobs return different output folders. *)
Theorem organised_jobs_apart (w : world) (cfg : config) (fs : node) (tmp : Path)
  (e1 e2 : string * Path * option Path) (i j : nat) (res1 res2 : job_result) :
  wf fs -> organized tmp fs ->
  (forall p, path_exists w p = exists_ fs p) ->
  In e1 (pair_fastqs fs tmp) -> In e2 (pair_fastqs fs tmp) -> e1 <> e2 ->
  one w cfg i (fst (fst e1)) (snd (fst e1)) (snd e1) = Ok res1 ->
  one w cfg j (fst (fst e2)) (snd (fst e2)) (snd e2) = Ok res2 ->
  snd res1 <> snd res2.
Proof.
  intros Hwf Horg Hw H1 H2 Hne J1 J2 E.
  assert (Hfolder : forall e k res,
            In e (pair_fastqs fs tmp) ->
            one w cfg k (fst (fst e)) (snd (fst e)) (snd e) = Ok res ->
            exists rep treat,
              parent (snd (fst e)) = tmp ++ [rep; treat]
              /\ snd res = out_root cfg ++ [rep; treat; fst (fst e)]).
  { intros [[s r1] r2] k res Hin J. simpl in *.
    apply pair_fastqs_members in Hin as (Hr1 & _).
    destruct (destination_shape tmp r1) as (rep & treat & Hd & Hs & _).
    rewrite <- (Horg _ Hr1) in Hd.
    exists rep, treat. split; [assumption|].
    apply (@job_folder w cfg k s r1 r2 res tmp rep treat Hd Hs); [|assumption].
    rewrite Hw. unfold exists_.
    destruct (@rglob_parent fs tmp fastq_gz r1 Hwf Hr1) as (_ & es & L).
    destruct (@lookup_parent fs (parent r1) (Dir es) L) as (n' & ->). reflexivity. }
  destruct (Hfolder _ _ _ H1 J1) as (rep1 & treat1 & P1 & R1).
  destruct (Hfolder _ _ _ H2 J2) as (rep2 & treat2 & P2 & R2).
  rewrite R1, R2 in E. apply app_inv_head in E. injection E as -> -> Es.
  apply Hne.
  apply (@NoDup_map_inj _ _ key_of _ e1 e2 (pair_fastqs_keys fs tmp) H1 H2).
  unfold key_of. now rewrite P1, P2, Es.
Qed.

Lemma organised_jobs_apart_witness :
  In ("Day1_v_a_1", ["tmp"; "Replica-1"; "Day1_a"; "Day1_v_a_1_R1.fastq.gz"], None)
     (pair_fastqs two_samples ["tmp"])
  /\ In ("Day1_v_a_2", ["tmp"; "Replica-2"; "Day1_a"; "Day1_v_a_2_R1.fastq.gz"], None)
        (pair_fastqs two_samples ["tmp"])
  /\ snd ("Day1_v_a_1", 0%Z, "", ["out"; "Replica-1"; "Day1_a"; "Day1_v_a_1"])
     <> snd ("Day1_v_a_2", 0%Z, "", ["out"; "Replica-2"; "Day1_a"; "Day1_v_a_2"]).
Proof.
  split; [vm_compute; tauto|]. split; [vm_compute; tauto|].
  apply (@organised_jobs_apart (tree_world two_samples) sample_config two_samples
           ["tmp"]
           ("Day1_v_a_1", ["tmp"; "Replica-1"; "Day1_a"; "Day1_v_a_1_R1.fastq.gz"], None)
           ("Day1_v_a_2", ["tmp"; "Replica-2"; "Day1_a"; "Day1_v_a_2_R1.fastq.gz"], None)
           0 1).
  - vm_compute. reflexivity.
  - intros p Hp. vm_compute in Hp.
    repeat (destruct Hp as [<-|Hp]; [vm_compute; reflexivity|]). destruct Hp.
  - intros p. reflexivity.
  - vm_compute. tauto.
  - vm_compute. tauto.
  - discriminate.
  - vm_compute. reflexivity.
  - vm_compute. reflexivity.
Defined.

End JobFacts.

(** ** How the generator ends *)

Section EndingFacts.

Import FS Runner.

Variable w : world.
Variable cfg : config.

(** Every line of the loop is the failure line of a job that returned an
    exit code other than zero. *)
Lemma drain_lines (futs : list (res job_result)) order :
  Forall (fun line => exists s code out dir,
            In (Ok (s, code, out, dir)) futs /\ code <> 0%Z /\ line = error_line s)
    (fst (drain futs order)).
Proof.
  induction order as [|i order IH]; simpl; [constructor|].
  destruct (nth_error futs i) as [[[[[s code] out] dir]|e]|] eqn:N; simpl.
  - apply Forall_app. split; [|exact IH].
    destruct (Z.eqb_spec code 0); constructor; [|constructor].
    exists s, code, out, dir. split; [|split; [assumption|reflexivity]].
    now apply nth_error_In in N.
  - constructor.
  - exact IH.
Qed.

Lemma submit_samples pairs : forall i s code out dir,
  In (Ok (s, code, out, dir)) (submit_from w cfg i pairs) ->
  exists r1 r2, In (s, r1, r2) pairs.
Proof.
  induction pairs as [|[[s0 r1] r2] pairs IH]; intros i s code out dir; simpl; [tauto|].
  intros [H|H].
  - apply one_result in H as [H _]. simpl in H. subst. now exists r1, r2; left.
  - destruct (IH (S i) s code out dir H) as (a & b & Hin). exists a, b. now right.
Qed.

(** X8.  However the jobs end, the generator yields nothing but failure
    lines of samples it was given, whose job returned an exit code other
    than zero, and the closing line; the closing line comes last and once
    when the generator ends normally and never when it raises.  With no
    worker allowed it raises before any line. *)
Theorem generator_ending
  (pairs : list (string * Path * option Path)) (order : list nat) :
  let result := run_crispresso_parallel w cfg pairs order in
  let closing := completed_line (List.length pairs) in
  Forall (fun line =>
            line = closing
            \/ exists s r1 r2 code out dir,
                 In (s, r1, r2) pairs
                 /\ In (Ok (s, code, out, dir)) (submit_from w cfg 0 pairs)
                 /\ code <> 0%Z /\ line = error_line s)
    (fst result)
  /\ match snd result with
     | Finished => exists errors, fst result = errors ++ [closing] /\ ~ In closing errors
     | Raised _ => ~ In closing (fst result)
     end
  /\ ((parallel_samples cfg <= 0)%Z -> fst result = [] /\ snd result <> Finished).
Proof.
  cbv zeta. unfold run_crispresso_parallel.
  destruct (mkdir w (out_root cfg)) as [u|e].
  2:{ split; [constructor|]. split; [now intros []|]. intros _. now split. }
  destruct (Z.leb_spec (parallel_samples cfg) 0) as [Hle|Hgt].
  { split; [constructor|]. split; [now intros []|]. intros _. now split. }
  pose proof (drain_lines (submit_from w cfg 0 pairs) order) as HL.
  assert (HE : Forall (fun line =>
                 exists s r1 r2 code out dir,
                   In (s, r1, r2) pairs
                   /\ In (Ok (s, code, out, dir)) (submit_from w cfg 0 pairs)
                   /\ code <> 0%Z /\ line = error_line s)
                (fst (drain (submit_from w cfg 0 pairs) order))).
  { eapply Forall_impl; [|exact HL].
    intros line (s & code & out & dir & Hin & Hc & ->).
    destruct (@submit_samples pairs 0 s code out dir Hin) as (r1 & r2 & Hp).
    now exists s, r1, r2, code, out, dir. }
  assert (Hno : ~ In (completed_line (List.length pairs))
                     (fst (drain (submit_from w cfg 0 pairs) order))).
  { intros Hin. rewrite Forall_forall in HE.
    destruct (HE _ Hin) as (s & _ & _ & _ & _ & _ & _ & _ & _ & E).
    symmetry in E. now apply error_line_not_completed in E. }
  destruct (drain (submit_from w cfg 0 pairs) order) as [lines [|e]]; simpl in *.
  - split; [|split; [|lia]].
    + apply Forall_app. split.
      * eapply Forall_impl; [|exact HE]. intros line H. now right.
      * constructor; [now left|constructor].
    + now exists lines.
  - split; [|split; [assumption|lia]].
    eapply Forall_impl; [|exact HE]. intros line H. now right.
Qed.

End EndingFacts.

Unset Implicit Arguments.

(** ** Moving a file in the tree *)

Section MoveFacts.

Import Str FS Classifier Reorganize.

Lemma find_entry_set_same c v es : find_entry c (set_entry c v es) = Some v.
Proof.
  induction es as [|[k w] es IH]; simpl.
  - now rewrite String.eqb_refl.
  - destruct (String.eqb k c) eqn:E; simpl; rewrite E; [reflexivity|exact IH].
Qed.

Lemma find_entry_set_other b c v es :
  b <> c -> find_entry b (set_entry c v es) = find_entry b es.
Proof.
  intros NE. induction es as [|[k w] es IH]; simpl.
  - destruct (String.eqb_spec c b); [congruence|reflexivity].
  - destruct (String.eqb_spec k c) as [->|NE']; simpl.
    + destruct (String.eqb_spec c b); [congruence|reflexivity].
    + destruct (String.eqb k b); [reflexivity|exact IH].
Qed.

Lemma find_entry_del_other b c es :
  b <> c -> find_entry b (del_entry c es) = find_entry b es.
Proof.
  intros NE. induction es as [|[k w] es IH]; simpl; [reflexivity|].
  destruct (String.eqb_spec k c) as [->|NE']; simpl.
  - destruct (String.eqb_spec c b); [congruence|reflexivity].
  - destruct (String.eqb k b); [reflexivity|exact IH].
Qed.

Lemma find_entry_absent c es : ~ In c (map fst es) -> find_entry c es = None.
Proof.
  induction es as [|[k w] es IH]; simpl; [reflexivity|].
  intros H. destruct (String.eqb_spec k c) as [->|NE]; [tauto|]. apply IH. tauto.
Qed.

Lemma find_entry_present c es : find_entry c es = None -> ~ In c (map fst es).
Proof.
  induction es as [|[k w] es IH]; simpl; [tauto|].
  destruct (String.eqb_spec k c) as [->|NE]; [discriminate|].
  intros H [E|Hin]; [congruence|now apply IH].
Qed.

Lemma find_entry_del_same c es :
  NoDup (map fst es) -> find_entry c (del_entry c es) = None.
Proof.
  induction es as [|[k w] es IH]; simpl; intros Hnd; [reflexivity|].
  inversion Hnd as [|? ? Hni Hnd']; subst.
  destruct (String.eqb_spec k c) as [->|NE]; simpl.
  - now apply find_entry_absent.
  - destruct (String.eqb_spec k c); [congruence|]. now apply IH.
Qed.

Lemma find_entry_app b es es' :
  find_entry b (es ++ es')
  = match find_entry b es with Some v => Some v | None => find_entry b es' end.
Proof.
  induction es as [|[k w] es IH]; simpl; [reflexivity|].
  now destruct (String.eqb k b).
Qed.

Lemma set_entry_keys c v n es :
  find_entry c es = Some n -> map fst (set_entry c v es) = map fst es.
Proof.
  induction es as [|[k w] es IH]; simpl; [discriminate|].
  destruct (String.eqb k c); simpl; [reflexivity|].
  intros H. now rewrite IH.
Qed.

Lemma set_entry_in c v es k w :
  In (k, w) (set_entry c v es) -> w = v \/ In (k, w) es.
Proof.
  induction es as [|[k0 w0] es IH]; simpl.
  - intros [[= <- <-]|[]]. now left.
  - destruct (String.eqb k0 c); simpl.
    + intros [[= <- <-]|H]; [now left|right; now right].
    + intros [E|H]; [right; now left|].
      destruct (IH H); [now left|right; now right].
Qed.

Lemma NoDup_nodupb l : NoDup l -> nodupb l = true.
Proof.
  induction 1 as [|x l Hni Hnd IH]; simpl; [reflexivity|].
  rewrite IH, andb_true_r. apply negb_true_iff.
  destruct (existsb (String.eqb x) l) eqn:E; [|reflexivity].
  apply existsb_exists in E as (y & Hy & Ey). apply String.eqb_eq in Ey. now subst.
Qed.

Lemma wf_intro es :
  NoDup (map fst es) -> (forall k v, In (k, v) es -> wf v) -> wf (Dir es).
Proof.
  intros Hnd Hch. unfold wf. simpl. rewrite (NoDup_nodupb _ Hnd). simpl.
  apply forallb_forall. intros [k v] Hin. exact (Hch _ _ Hin).
Qed.

(** [mkdir] keeps a tree well formed. *)
Lemma mkdir_p_wf d : forall fs fs1, wf fs -> mkdir_p fs d = Ok fs1 -> wf fs1.
Proof.
  induction d as [|c d IH]; intros fs fs1 Hwf H.
  - destruct fs; simpl in H; [discriminate|]. now injection H as <-.
  - destruct fs as [x|es]; [discriminate|]. simpl in H.
    destruct (wf_dir Hwf) as [Hnd Hch].
    destruct (find_entry c es) as [n|] eqn:F.
    + apply bind_inv in H as (n' & Hn & [= <-]).
      apply wf_intro.
      * now rewrite (set_entry_keys _ _ _ _ F).
      * intros k v Hin. apply set_entry_in in Hin as [->|Hin].
        -- apply (IH n); [|assumption]. apply (Hch c). now apply find_entry_some.
        -- exact (Hch _ _ Hin).
    + apply bind_inv in H as (n' & Hn & [= <-]).
      apply wf_intro.
      * rewrite map_app. simpl. apply NoDup_app; [assumption|repeat constructor; tauto|].
        intros k Hk [<-|[]]. now apply find_entry_present in F.
      * intros k v Hin. apply in_app_iff in Hin as [Hin|[[= <- <-]|[]]].
        -- exact (Hch _ _ Hin).
        -- apply (IH (Dir [])); [reflexivity|assumption].
Qed.

(** [mkdir] changes nothing at a path that does not lead to the new
    directory. *)
Lemma mkdir_p_lookup d : forall fs fs1 q,
  mkdir_p fs d = Ok fs1 -> is_prefix q d = false -> lookup fs1 q = lookup fs q.
Proof.
  induction d as [|c d IH]; intros fs fs1 q H Hq.
  - destruct fs; simpl in H; [discriminate|]. now injection H as <-.
  - destruct fs as [x|es]; [discriminate|]. simpl in H.
    destruct q as [|b q]; [discriminate|]. simpl in Hq.
    destruct (find_entry c es) as [n|] eqn:F;
      apply bind_inv in H as (n' & Hn & [= <-]); simpl.
    + destruct (String.eqb_spec b c) as [->|NE].
      * rewrite find_entry_set_same, F. simpl in Hq. exact (IH _ _ _ Hn Hq).
      * now rewrite find_entry_set_other.
    + rewrite find_entry_app. simpl.
      destruct (String.eqb_spec b c) as [->|NE].
      * rewrite F, String.eqb_refl. simpl in Hq.
        rewrite (IH _ _ _ Hn Hq). destruct q; [discriminate|reflexivity].
      * destruct (find_entry b es); [reflexivity|].
        destruct (String.eqb_spec c b); [congruence|reflexivity].
Qed.

Lemma mkdir_p_is_dir d : forall fs fs1, mkdir_p fs d = Ok fs1 -> is_dir fs1 d = true.
Proof.
  unfold is_dir. induction d as [|c d IH]; intros fs fs1 H.
  - destruct fs; simpl in H; [discriminate|]. now injection H as <-.
  - destruct fs as [x|es]; [discriminate|]. simpl in H.
    destruct (find_entry c es) as [n|] eqn:F;
      apply bind_inv in H as (n' & Hn & [= <-]); simpl.
    + rewrite find_entry_set_same. exact (IH _ _ Hn).
    + rewrite find_entry_app, F. simpl. rewrite String.eqb_refl. exact (IH _ _ Hn).
Qed.

(** [mkdir] does not go through a file. *)
Lemma file_not_prefix p : forall fs c d fs1,
  lookup fs p = Some (File c) -> mkdir_p fs d = Ok fs1 -> is_prefix p d = false.
Proof.
  induction p as [|a p IH]; intros fs c d fs1 L H.
  - simpl in L. injection L as ->. destruct d; discriminate.
  - destruct fs as [x|es]; [discriminate|].
    destruct d as [|b d]; [reflexivity|]. simpl in *.
    destruct (String.eqb_spec a b) as [->|NE]; [|reflexivity]. simpl.
    destruct (find_entry b es) as [n|]; [|discriminate].
    apply bind_inv in H as (n' & Hn & _). exact (IH _ _ _ _ L Hn).
Qed.

Lemma is_prefix_snoc p : forall d x,
  is_prefix p (d ++ [x]) = true -> p = d ++ [x] \/ is_prefix p d = true.
Proof.
  induction p as [|a p IH]; intros d x H; [now right|].
  destruct d as [|b d]; simpl in H.
  - apply andb_true_iff in H as [E H]. apply String.eqb_eq in E as ->.
    destruct p; [now left|discriminate].
  - apply andb_true_iff in H as [E H]. apply String.eqb_eq in E as ->.
    destruct (IH _ _ H) as [->|H']; [now left|right].
    simpl. now rewrite String.eqb_refl.
Qed.

Lemma is_prefix_longer d x : is_prefix (d ++ [x]) d = false.
Proof.
  induction d as [|b d IH]; simpl; [reflexivity|]. now rewrite IH, andb_false_r.
Qed.

Lemma is_prefix_refl p : is_prefix p p = true.
Proof. induction p as [|a p IH]; simpl; [reflexivity|]. now rewrite String.eqb_refl. Qed.

(** What is placed in a directory of the tree is found there. *)
Lemma lookup_place q : forall fs v,
  q <> [] -> is_dir fs (parent q) = true -> lookup (place fs q v) q = Some v.
Proof.
  unfold is_dir, parent.
  induction q as [|c q IH]; intros fs v Hne Hd; [congruence|].
  destruct q as [|c' q].
  - simpl in Hd. destruct fs as [x|es]; [discriminate|]. simpl.
    now rewrite find_entry_set_same.
  - change (removelast (c :: c' :: q)) with (c :: removelast (c' :: q)) in Hd.
    destruct fs as [x|es]; [discriminate|]. cbn [lookup] in Hd.
    destruct (find_entry c es) as [n|] eqn:F; [|discriminate].
    cbn [place]. rewrite F. cbn [lookup]. rewrite find_entry_set_same.
    apply IH; [discriminate|assumption].
Qed.

(** A directory stays one when an entry that is not above it is removed. *)
Lemma is_dir_remove p : forall fs q,
  is_dir fs q = true -> is_prefix p q = false -> is_dir (remove fs p) q = true.
Proof.
  unfold is_dir.
  induction p as [|c p IH]; intros fs q Hd Hq; [discriminate|].
  destruct fs as [x|es]; [destruct p; exact Hd|].
  destruct q as [|b q]; [destruct p; simpl; [reflexivity|]; now destruct (find_entry c es)|].
  simpl in Hq. cbn [lookup] in Hd.
  destruct p as [|c' p].
  - simpl. rewrite andb_true_r in Hq. apply String.eqb_neq in Hq.
    rewrite find_entry_del_other by congruence. exact Hd.
  - cbn [remove]. destruct (find_entry c es) as [n|] eqn:F; [|exact Hd].
    cbn [lookup]. destruct (String.eqb_spec c b) as [->|NE].
    + rewrite find_entry_set_same. rewrite F in Hd. simpl in Hq. now apply IH.
    + rewrite find_entry_set_other by congruence. exact Hd.
Qed.

(** In a well-formed tree nothing is left where an entry was removed. *)
Lemma lookup_remove_self p : forall fs,
  wf fs -> p <> [] -> lookup (remove fs p) p = None.
Proof.
  induction p as [|c p IH]; intros fs Hwf Hne; [congruence|].
  destruct fs as [x|es]; [now destruct p|].
  destruct (wf_dir Hwf) as [Hnd Hch].
  destruct p as [|c' p].
  - simpl. now rewrite find_entry_del_same.
  - cbn [remove]. destruct (find_entry c es) as [n|] eqn:F.
    + cbn [lookup]. rewrite find_entry_set_same.
      apply IH; [|discriminate]. apply (Hch c). now apply find_entry_some.
    + cbn [lookup]. now rewrite F.
Qed.

(** Placing an entry changes nothing at a path that neither leads to it nor
    lies below it. *)
Lemma lookup_place_apart q : forall fs p v,
  is_prefix q p = false -> is_prefix p q = false ->
  lookup (place fs q v) p = lookup fs p.
Proof.
  induction q as [|c q IH]; intros fs p v H1 H2; [discriminate|].
  destruct p as [|b p]; [discriminate|].
  destruct fs as [x|es]; [now destruct q|].
  simpl in H1, H2.
  destruct q as [|c' q].
  - simpl. destruct (String.eqb_spec c b) as [->|NE].
    + simpl in H1. discriminate.
    + now rewrite find_entry_set_other by congruence.
  - cbn [place]. destruct (find_entry c es) as [n|] eqn:F; [|reflexivity].
    cbn [lookup]. destruct (String.eqb_spec c b) as [->|NE].
    + rewrite find_entry_set_same, F. rewrite String.eqb_refl in H2.
      simpl in H1, H2. now apply IH.
    + now rewrite find_entry_set_other by congruence.
Qed.

(** X9.  A turn of the loop of [reorganize_extracted_fastqs] on a file moves
    it: when the turn does not raise and no directory has the place it is
    to take, the file lies in its destination folder afterwards with the
    content it had, also when another file was there before; and in a
    well-formed tree, unless it was in place already, it is gone from where
    it was and the move is recorded. *)
Theorem reorganize_moves_file (tmp_path : Path) (fs : node)
  (log : list (Path * Path)) (p : Path) (c : string)
  (fs' : node) (log' : list (Path * Path)) :
  wf fs ->
  lookup fs p = Some (File c) ->
  is_dir fs (destination tmp_path p ++ [name p]) = false ->
  reorganize_one tmp_path (fs, log) p = Ok (fs', log') ->
  lookup fs' (destination tmp_path p ++ [name p]) = Some (File c)
  /\ (p <> destination tmp_path p ++ [name p] ->
      lookup fs' p = None
      /\ log' = log ++ [(p, destination tmp_path p ++ [name p])]).
Proof.
  intros Hwf Lp Hnd H. rewrite reorganize_one_eq in H. cbn [fst snd] in H.
  set (dest := destination tmp_path p) in *.
  apply bind_inv in H as (fs1 & Hmk & H). cbv zeta in H. unfold resolve in H.
  assert (Hpd : is_prefix p dest = false) by exact (file_not_prefix _ _ _ _ _ Lp Hmk).
  assert (Lp1 : lookup fs1 p = Some (File c)).
  { now rewrite (mkdir_p_lookup _ _ _ _ Hmk Hpd). }
  unfold path_eqb in H.
  destruct (list_eq_dec string_dec p (dest ++ [name p])) as [E|NE]; simpl in H.
  - injection H as <- <-. split; [now rewrite <- E|]. intros Hne. congruence.
  - assert (Hd1 : is_dir fs1 dest = true) by exact (mkdir_p_is_dir _ _ _ Hmk).
    assert (Hpn : is_prefix p (dest ++ [name p]) = false).
    { destruct (is_prefix p (dest ++ [name p])) eqn:P; [|reflexivity].
      apply is_prefix_snoc in P as [P|P]; congruence. }
    assert (Ln : lookup fs1 (dest ++ [name p]) = lookup fs (dest ++ [name p])).
    { apply (mkdir_p_lookup _ _ _ _ Hmk). apply is_prefix_longer. }
    assert (Hren : rename fs1 p (dest ++ [name p])
                   = Ok (place (remove fs1 p) (dest ++ [name p]) (File c))).
    { unfold rename. rewrite Lp1, parent_child.
      unfold is_dir in Hd1. destruct (lookup fs1 dest) as [[x|es]|]; try discriminate.
      rewrite Hpn, Ln. unfold is_dir in Hnd.
      destruct (lookup fs (dest ++ [name p])) as [[x|es']|];
        [reflexivity|discriminate|reflexivity]. }
    rewrite Hren in H. injection H as <- <-.
    split; [|intros _; split; [|reflexivity]].
    + apply lookup_place; [now destruct dest|].
      rewrite parent_child. now apply is_dir_remove.
    + assert (Hne : p <> []).
      { intros ->. simpl in Lp. injection Lp as ->. destruct dest; discriminate. }
      rewrite lookup_place_apart; [| |assumption].
      * apply lookup_remove_self; [|assumption]. exact (mkdir_p_wf _ _ _ Hwf Hmk).
      * destruct (is_prefix (dest ++ [name p]) p) eqn:P; [|reflexivity]. exfalso.
        clear - P Lp Hnd NE.
        assert (Hex : forall q r n, is_prefix q r = true -> lookup fs r = Some n ->
                        q = r \/ is_dir fs q = true).
        { clear. unfold is_dir. intros q. generalize fs.
          induction q as [|a q IH]; intros fs0 r n P L.
          - destruct r; [now left|]. right. simpl.
            destruct fs0; [discriminate|reflexivity].
          - destruct r as [|b r]; [discriminate|]. simpl in P.
            apply andb_true_iff in P as [E P]. apply String.eqb_eq in E as ->.
            destruct fs0 as [x|es]; [discriminate|]. simpl in L. simpl.
            destruct (find_entry b es) as [m|]; [|discriminate].
            destruct (IH _ _ _ P L) as [->|D]; [now left|now right]. }
        destruct (Hex _ _ _ P Lp) as [E|D]; congruence.
Qed.

Lemma reorganize_moves_file_witness :
  lookup Organised.one_file_moved
    (destination ["tmp"] ["tmp"; "raw"; "Day1_v_DrugA_2_S1_R1_001.fastq.gz"]
     ++ [name ["tmp"; "raw"; "Day1_v_DrugA_2_S1_R1_001.fastq.gz"]])
  = Some (File "a")
  /\ (["tmp"; "raw"; "Day1_v_DrugA_2_S1_R1_001.fastq.gz"]
      <> destination ["tmp"] ["tmp"; "raw"; "Day1_v_DrugA_2_S1_R1_001.fastq.gz"]
         ++ [name ["tmp"; "raw"; "Day1_v_DrugA_2_S1_R1_001.fastq.gz"]] ->
      lookup Organised.one_file_moved
        ["tmp"; "raw"; "Day1_v_DrugA_2_S1_R1_001.fastq.gz"] = None
      /\ [(["tmp"; "raw"; "Day1_v_DrugA_2_S1_R1_001.fastq.gz"],
           ["tmp"; "Replica-2"; "Day1_druga"; "Day1_v_DrugA_2_S1_R1_001.fastq.gz"])]
         = [] ++ [(["tmp"; "raw"; "Day1_v_DrugA_2_S1_R1_001.fastq.gz"],
                   destination ["tmp"] ["tmp"; "raw"; "Day1_v_DrugA_2_S1_R1_001.fastq.gz"]
                   ++ [name ["tmp"; "raw"; "Day1_v_DrugA_2_S1_R1_001.fastq.gz"]])]).
Proof.
  apply (reorganize_moves_file ["tmp"] Organised.one_file []
           ["tmp"; "raw"; "Day1_v_DrugA_2_S1_R1_001.fastq.gz"] "a").
  - vm_compute. reflexivity.
  - vm_compute. reflexivity.
  - vm_compute. reflexivity.
  - vm_compute. reflexivity.
Defined.

End MoveFacts.

(** ** Which allele table is read *)

Section AlleleFacts.

Import Str FS Sort Report.

Lemma prefix_app_l p q s : String.prefix (p ++ q) s = true -> String.prefix p s = true.
Proof.
  revert s. induction p as [|a p IH]; intros s H; [now destruct s|].
  destruct s as [|b s]; [discriminate|]. simpl in *.
  destruct (ascii_dec a b); [now apply IH|discriminate].
Qed.

Lemma length_string_app p q : String.length (p ++ q) = (String.length p + String.length q)%nat.
Proof. induction p as [|a p IH]; simpl; [reflexivity|]. now rewrite IH. Qed.

(** A name that matches a pattern matches the pattern of a shorter
    prefix. *)
Lemma wildcard_shorter p q suffix n :
  wildcard (p ++ q) suffix n = true -> wildcard p suffix n = true.
Proof.
  unfold wildcard, startswith. intros H.
  apply andb_true_iff in H as [H H4]. apply andb_true_iff in H as [H H3].
  apply andb_true_iff in H as [H1 H2].
  rewrite H1, H3, (prefix_app_l _ _ _ H2). simpl.
  apply Nat.leb_le. apply Nat.leb_le in H4. rewrite length_string_app in H4. lia.
Qed.

Lemma glob_shorter fs dir p q suffix x :
  In x (glob fs dir (p ++ q) suffix) -> In x (glob fs dir p suffix).
Proof.
  unfold glob. destruct (lookup fs dir) as [[c|es]|]; try tauto.
  rewrite !in_map_iff. intros (e & E & H). exists e. split; [assumption|].
  apply filter_In in H as [H W]. apply filter_In. split; [assumption|].
  exact (wildcard_shorter _ _ _ _ W).
Qed.

(** X10.  The allele table that [process_treatment_folder] reads is the
    least path, in the order of [sorted], that matches
    [Alleles_frequency_table*.txt]: the two longer patterns give the tables
    around the guide or the cut site no precedence. *)
Theorem allele_table_choice (fs : node) (actual_dir : Path) :
  hd_error (sorted (leb_of path_compare) (allele_matches fs actual_dir))
  = hd_error (sorted (leb_of path_compare)
                (glob fs actual_dir "Alleles_frequency_table" ".txt")).
Proof.
  apply sorted_head_same.
  - apply path_leb_total.
  - apply path_leb_trans.
  - apply path_leb_antisym.
  - intros x. unfold allele_matches. rewrite !in_app_iff. split; [|tauto].
    intros [H|[H|H]]; [| |assumption].
    + exact (glob_shorter fs actual_dir "Alleles_frequency_table" "_around_sgRNA_"
               ".txt" x H).
    + exact (glob_shorter fs actual_dir "Alleles_frequency_table" "_around_cut_site_"
               ".txt" x H).
Qed.

End AlleleFacts.

(** ** How [calculate_sensitivity] ends *)

Section OutcomeFacts.

Import Str Report Frame Aggregate.
Local Open Scope float_scope.

Lemma find_index_lt {A} (P : A -> bool) l : forall i,
  find_index P l = Some i -> (i < List.length l)%nat.
Proof.
  induction l as [|a l IH]; intros i; simpl; [discriminate|].
  destruct (P a); [intros [= <-]; lia|].
  destruct (find_index P l) as [j|]; [|discriminate].
  intros [= <-]. specialize (IH j eq_refl). lia.
Qed.

Lemma reference_row_lt T day treat i :
  T <> [] -> reference_row T day treat = Some i -> (i < List.length T)%nat.
Proof.
  intros Hne. unfold reference_row.
  destruct treat as [t|]; [apply find_index_lt|].
  destruct day as [d|].
  - destruct (find_index (eq_str _) T) as [j|] eqn:E.
    + intros [= <-]. exact (find_index_lt _ _ _ E).
    + apply find_index_lt.
  - intros [= <-]. destruct T; [congruence|simpl; lia].
Qed.

Lemma astype_float_length V : forall vs,
  astype_float V = Ok vs -> List.length vs = List.length V.
Proof.
  induction V as [|c V IH]; intros vs H; simpl in H; [now injection H as <-|].
  apply bind_inv in H as (x & _ & H). apply bind_inv in H as (rest & Hr & H).
  injection H as <-. simpl. now rewrite (IH _ Hr).
Qed.

Lemma astype_float_numbers V :
  Forall (fun c => is_num c = true) V -> exists vs, astype_float V = Ok vs.
Proof.
  induction 1 as [|c V Hc _ IH]; [now exists []|].
  destruct IH as (vs & E). destruct c as [|s|x]; try discriminate.
  exists (x :: vs). simpl. now rewrite E.
Qed.

Lemma astype_float_raise V e :
  astype_float V = Raise e -> e = ValueError /\ exists s, In (CStr s) V.
Proof.
  induction V as [|c V IH]; simpl; [discriminate|].
  destruct c as [|s|x]; simpl.
  - destruct (astype_float V); [discriminate|]. intros [= <-].
    destruct (IH eq_refl) as (-> & s & Hs). split; [reflexivity|]. exists s. now right.
  - intros [= <-]. split; [reflexivity|]. exists s. now left.
  - destruct (astype_float V); [discriminate|]. intros [= <-].
    destruct (IH eq_refl) as (-> & s & Hs). split; [reflexivity|]. exists s. now right.
Qed.

Lemma nth_not_default {A} (l : list A) i d c : nth i l d = c -> c <> d -> In c l.
Proof.
  intros E NE. destruct (Nat.lt_ge_cases i (List.length l)) as [Hlt|Hge].
  - rewrite <- E. now apply nth_In.
  - rewrite nth_overflow in E by assumption. congruence.
Qed.

Lemma nth_number i V :
  Forall (fun c => is_num c = true) V -> (i < List.length V)%nat ->
  exists x, nth i V CNone = CNum x.
Proof.
  intros HF Hlt. rewrite Forall_forall in HF.
  specialize (HF _ (nth_In V CNone Hlt)).
  destruct (nth i V CNone) as [|s|x]; try discriminate. now exists x.
Qed.

(** When every value of the column is a number, nothing is raised. *)
Lemma sensitivity_of_numbers df column T V day treat :
  getitem df "Treatment" = Ok T ->
  getitem df column = Ok V ->
  List.length T = nrows df ->
  List.length V = nrows df ->
  nrows df <> 0%nat ->
  Forall (fun c => is_num c = true) V ->
  exists out, calculate_sensitivity df column day treat = Ok out.
Proof.
  intros HT HV LT LV Hrows HF.
  rewrite (@calculate_sensitivity_by_reference df column T V HT HV LT LV Hrows day treat).
  destruct (reference_row T day treat) as [i|] eqn:R; [|now eexists].
  assert (Hi : (i < List.length V)%nat).
  { rewrite LV, <- LT. apply (reference_row_lt T day treat).
    - intros ->. simpl in LT. congruence.
    - exact R. }
  destruct (nth_number i V HF Hi) as (x & ->). simpl.
  destruct (x =? 0); [now eexists|].
  destruct (astype_float_numbers V HF) as (vs & ->). simpl. now eexists.
Qed.

(** X11.  On a table that has rows, the column of treatments and the
    column of values, [calculate_sensitivity] returns one value per row
    when it returns.  It never raises [KeyError]: it raises [TypeError]
    only when the value of the reference row is [None], else [ValueError]
    because the column holds a text; and it raises nothing when every value
    of the column is a number. *)
Theorem calculate_sensitivity_outcome
  (df : DataFrame) (column : string) (T V : list cell)
  (reference_day : option Z) (reference_treatment : option string) :
  getitem df "Treatment" = Ok T ->
  getitem df column = Ok V ->
  List.length T = nrows df ->
  List.length V = nrows df ->
  nrows df <> 0%nat ->
  (forall out,
      calculate_sensitivity df column reference_day reference_treatment = Ok out ->
      List.length out = nrows df)
  /\ (forall e,
        calculate_sensitivity df column reference_day reference_treatment = Raise e ->
        exists i,
          reference_row T reference_day reference_treatment = Some i
          /\ ((e = TypeError /\ nth i V CNone = CNone)
              \/ (e = ValueError /\ exists s, In (CStr s) V)))
  /\ (Forall (fun c => is_num c = true) V ->
      exists out,
        calculate_sensitivity df column reference_day reference_treatment = Ok out).
Proof.
  intros HT HV LT LV Hrows.
  pose proof (@calculate_sensitivity_by_reference df column T V HT HV LT LV Hrows
                reference_day reference_treatment) as H.
  split; [|split].
  - intros out. rewrite H.
    destruct (reference_row T reference_day reference_treatment) as [i|];
      [|intros [= <-]; apply repeat_length].
    destruct (to_float (nth i V CNone)) as [x|]; [|discriminate]. cbn [bind].
    destruct (x =? 0); [intros [= <-]; apply repeat_length|].
    destruct (astype_float V) as [vs|] eqn:A; [|discriminate]. cbn [bind].
    intros [= <-]. unfold scaled. rewrite length_map, (astype_float_length _ _ A).
    exact LV.
  - intros e. rewrite H.
    destruct (reference_row T reference_day reference_treatment) as [i|];
      [|discriminate].
    intros R. exists i. split; [reflexivity|].
    destruct (nth i V CNone) as [|s|x] eqn:N; simpl in R.
    + injection R as <-. left. now split.
    + injection R as <-. right. split; [reflexivity|]. exists s.
      now apply (nth_not_default V i CNone).
    + destruct (x =? 0); [discriminate|].
      destruct (astype_float V) as [vs|e'] eqn:A; [discriminate|].
      simpl in R. injection R as <-. right. exact (astype_float_raise _ _ A).
  - intros HF. exact (sensitivity_of_numbers df column T V _ _ HT HV LT LV Hrows HF).
Qed.

Lemma calculate_sensitivity_outcome_witness :
  (forall out,
      calculate_sensitivity
        (ratios [("Day0_x", 10); ("Day3_druga", 50); ("Day3_untreated", 25)])
        "MUT/WT*%" (Some 3%Z) None = Ok out ->
      List.length out
      = nrows (ratios [("Day0_x", 10); ("Day3_druga", 50); ("Day3_untreated", 25)]))
  /\ (forall e,
        calculate_sensitivity
          (ratios [("Day0_x", 10); ("Day3_druga", 50); ("Day3_untreated", 25)])
          "MUT/WT*%" (Some 3%Z) None = Raise e ->
        exists i,
          reference_row [CStr "Day0_x"; CStr "Day3_druga"; CStr "Day3_untreated"]
            (Some 3%Z) None = Some i
          /\ ((e = TypeError /\ nth i [CNum 10; CNum 50; CNum 25] CNone = CNone)
              \/ (e = ValueError
                  /\ exists s, In (CStr s) [CNum 10; CNum 50; CNum 25])))
  /\ (Forall (fun c => is_num c = true) [CNum 10; CNum 50; CNum 25] ->
      exists out,
        calculate_sensitivity
          (ratios [("Day0_x", 10); ("Day3_druga", 50); ("Day3_untreated", 25)])
          "MUT/WT*%" (Some 3%Z) None = Ok out).
Proof.
  apply (calculate_sensitivity_outcome
           (ratios [("Day0_x", 10); ("Day3_druga", 50); ("Day3_untreated", 25)])
           "MUT/WT*%"
           [CStr "Day0_x"; CStr "Day3_druga"; CStr "Day3_untreated"]
           [CNum 10; CNum 50; CNum 25] (Some 3%Z) None).
  - reflexivity.
  - reflexivity.
  - reflexivity.
  - reflexivity.
  - discriminate.
Defined.

End OutcomeFacts.

(** ** Tables made of uniform records *)

Section TableFacts.

Import Str FS Report Frame Aggregate Tables.
Local Open Scope float_scope.

Lemma record_keys_nodup : NoDup record_keys.
Proof. apply nodupb_NoDup. vm_compute. reflexivity. Qed.

Lemma fold_keys_known (r : record) seen :
  (forall kv, In kv r -> In (fst kv) seen) ->
  fold_left (fun acc kv => if existsb (String.eqb (fst kv)) acc
                           then acc else acc ++ [fst kv]) r seen = seen.
Proof.
  induction r as [|kv r IH]; intros H; simpl; [reflexivity|].
  assert (E : existsb (String.eqb (fst kv)) seen = true).
  { apply existsb_exists. exists (fst kv). split; [|apply String.eqb_refl].
    apply H. now left. }
  rewrite E. apply IH. intros kv' Hin. apply H. now right.
Qed.

Lemma fold_keys_new (r : record) : forall seen,
  NoDup (seen ++ map fst r) ->
  fold_left (fun acc kv => if existsb (String.eqb (fst kv)) acc
                           then acc else acc ++ [fst kv]) r seen
  = seen ++ map fst r.
Proof.
  induction r as [|kv r IH]; intros seen Hnd; simpl; [now rewrite app_nil_r|].
  assert (E : existsb (String.eqb (fst kv)) seen = false).
  { destruct (existsb (String.eqb (fst kv)) seen) eqn:E; [|reflexivity].
    apply existsb_exists in E as (y & Hy & Ey). apply String.eqb_eq in Ey. subst y.
    simpl in Hnd. apply NoDup_remove_2 in Hnd. exfalso. apply Hnd.
    apply in_app_iff. now left. }
  rewrite E, IH; rewrite <- app_assoc; [reflexivity|exact Hnd].
Qed.

Lemma keys_of_known rows : forall seen,
  Forall (fun r : record => map fst r = seen) rows -> keys_of rows seen = seen.
Proof.
  induction rows as [|r rows IH]; intros seen H; simpl; [reflexivity|].
  inversion H as [|? ? Hr Hrows]; subst.
  rewrite fold_keys_known; [now apply IH|].
  intros kv Hin. now apply in_map.
Qed.

Lemma keys_of_uniform rows K :
  rows <> [] -> NoDup K -> Forall (fun r : record => map fst r = K) rows ->
  keys_of rows [] = K.
Proof.
  intros Hne Hnd H. destruct rows as [|r rows]; [congruence|].
  inversion H as [|? ? Hr Hrows]; subst. simpl.
  rewrite (fold_keys_new r []); [|exact Hnd]. simpl. now apply keys_of_known.
Qed.

(** The table of uniform records: one column per key. *)
Lemma of_records_uniform rows :
  rows <> [] -> Forall (fun r : record => map fst r = record_keys) rows ->
  of_records rows
  = {| nrows := List.length rows;
       cols := map (fun k => (k, infer (map (field k) rows))) record_keys |}.
Proof.
  intros Hne H. unfold of_records.
  now rewrite (keys_of_uniform rows record_keys Hne record_keys_nodup H).
Qed.

Lemma infer_length l : List.length (infer l) = List.length l.
Proof. unfold infer. destruct (_ && _); [apply length_map|reflexivity]. Qed.

Lemma infer_texts {A} (f : A -> string) l :
  infer (map (fun a => CStr (f a)) l) = map (fun a => CStr (f a)) l.
Proof.
  unfold infer.
  assert (E : existsb is_num (map (fun a => CStr (f a)) l) = false).
  { induction l as [|a l IH]; simpl; [reflexivity|exact IH]. }
  now rewrite E.
Qed.

Lemma infer_numbers l :
  Forall (fun c => is_num c = true) l -> Forall (fun c => is_num c = true) (infer l).
Proof.
  intros H. unfold infer. destruct (_ && _); [|assumption].
  apply Forall_forall. intros c Hin. apply in_map_iff in Hin as (c' & <- & Hc).
  rewrite Forall_forall in H. specialize (H _ Hc). now destruct c'.
Qed.

(** What the last steps of [build_dfs_by_replicate] make of a table of
    records and its sensitivities, in the branch of a replicate with
    treatment folders and in the branch of a replicate without. *)
Lemma finish_table (n : nat) (col : string -> list cell) (sens : list cell)
  (rep : string) :
  let df0 := {| nrows := n; cols := map (fun k => (k, col k)) record_keys |} in
  let df1 := setitem df0 "Sensitivity" sens in
  exists df,
    (df2 <- insert_first df1 "Replicate" (CStr rep) ;; without_report_path df2) = Ok df
    /\ (let df2 := setitem_scalar df1 "Replicate" (CStr rep) in
        let cols_ :=
          "Replicate"
          :: filter (fun c => negb (String.eqb c "Replicate")) (columns df2) in
        df3 <- loc_columns df2 cols_ ;; without_report_path df3) = Ok df
    /\ columns df = table_columns
    /\ nrows df = n
    /\ getitem df "Treatment" = Ok (col "Treatment")
    /\ getitem df "Replicate" = Ok (repeat (CStr rep) n)
    /\ getitem df "Sensitivity" = Ok (firstn n (sens ++ repeat (CNum nan) n)).
Proof.
  cbv zeta. eexists. split; [reflexivity|]. repeat split.
Qed.

End TableFacts.

(** ** The tables of the replicates *)

Section ReplicateFacts.

Import Str FS Report Frame Aggregate Tables.
Local Open Scope float_scope.

Variable parser : parser_module.
Variable fs : node.
Variable out_root : Path.
Variables wt_seq mut_seq amplicon_seq : string.

Let process (t : Path) : res (option record) :=
  process_treatment_folder parser fs t wt_seq mut_seq amplicon_seq.

Let gives (t : Path) (r : record) : Prop := process t = Ok (Some r).

(** A record has the sixteen keys, the name of the folder as its treatment
    and, as its ratio, what the parser read. *)
Lemma process_record tp r :
  gives tp r ->
  map fst r = record_keys
  /\ field "Treatment" r = CStr (name tp)
  /\ exists path total mw,
       get_mut_wt_reads parser fs path wt_seq mut_seq amplicon_seq total = Ok mw
       /\ field "MUT/WT*%" r = mut_wt_percent mw.
Proof.
  unfold gives, process, process_treatment_folder.
  destruct (actual_dir_of fs tp) as [d|]; [|discriminate].
  destruct (Sort.sorted _ (allele_matches fs d)) as [|a rest]; [discriminate|].
  destruct (negb _); [discriminate|].
  intros H.
  apply bind_inv in H as (total & _ & H).
  apply bind_inv in H as (modif & _ & H).
  apply bind_inv in H as (frame & _ & H).
  apply bind_inv in H as (mw & Hmw & H).
  injection H as <-. split; [reflexivity|]. split; [reflexivity|].
  exists a, total, mw. now split.
Qed.

Lemma some_record_some d r : some_record d = Some r -> d = Some r.
Proof. destruct d as [[|kv r0]|]; simpl; congruence. Qed.

Lemma yields_gives t :
  yields parser fs wt_seq mut_seq amplicon_seq t = true <->
  exists r, gives t r.
Proof.
  unfold yields, gives, process.
  destruct (process_treatment_folder parser fs t wt_seq mut_seq amplicon_seq)
    as [d|e] eqn:E.
  - destruct (some_record d) as [r|] eqn:S.
    + apply some_record_some in S as ->. split; [now exists r|reflexivity].
    + split; [discriminate|]. intros (r & [= ->]).
      assert (G : gives t r) by exact E.
      apply process_record in G as (K & _). destruct r; discriminate.
  - split; [discriminate|]. now intros (r & H).
Qed.

(** The loop over the treatment folders collects the records of the folders
    that give one, in the order of the folders. *)
Lemma collect_rows_spec subdirs : forall rows0 rows,
  collect_rows parser fs wt_seq mut_seq amplicon_seq subdirs rows0 = Ok rows ->
  exists rs,
    rows = rows0 ++ rs
    /\ Forall2 gives (filter (yields parser fs wt_seq mut_seq amplicon_seq) subdirs) rs.
Proof.
  induction subdirs as [|t subdirs IH]; intros rows0 rows H; simpl in H.
  - injection H as <-. exists []. split; [now rewrite app_nil_r|constructor].
  - apply bind_inv in H as (d & Hd & H). simpl.
    unfold yields at 1. rewrite Hd.
    destruct (some_record d) as [r|] eqn:S.
    + apply some_record_some in S as ->.
      destruct (IH _ _ H) as (rs & -> & HF).
      exists (r :: rs). split; [now rewrite <- app_assoc|].
      constructor; [exact Hd|exact HF].
    + exact (IH _ _ H).
Qed.

Lemma collect_rows_total subdirs : forall rows0,
  (forall t, exists d, process t = Ok d) ->
  exists rows, collect_rows parser fs wt_seq mut_seq amplicon_seq subdirs rows0 = Ok rows.
Proof.
  induction subdirs as [|t subdirs IH]; intros rows0 Hp; simpl; [now eexists|].
  destruct (Hp t) as (d & Hd). unfold process in Hd. rewrite Hd. simpl.
  destruct (some_record d); now apply IH.
Qed.

Lemma gives_uniform ts rs :
  Forall2 gives ts rs -> Forall (fun r : record => map fst r = record_keys) rs.
Proof.
  induction 1 as [|t r ts rs G _ IH]; constructor; [|assumption].
  now apply process_record in G.
Qed.

Lemma gives_labels ts rs :
  Forall2 gives ts rs ->
  infer (map (field "Treatment") rs) = map (fun t => CStr (name t)) ts.
Proof.
  intros H.
  assert (E : map (field "Treatment") rs = map (fun t => CStr (name t)) ts).
  { induction H as [|t r ts rs G _ IH]; simpl; [reflexivity|].
    apply process_record in G as (_ & -> & _). now rewrite IH. }
  rewrite E. apply infer_texts.
Qed.

Lemma gives_length ts rs : Forall2 gives ts rs -> List.length rs = List.length ts.
Proof. induction 1; simpl; congruence. Qed.

(** The table of the records of some folders, for either branch of
    [build_dfs_by_replicate]. *)
Lemma table_of_rows ts rows sens rep :
  ts <> [] -> Forall2 gives ts rows ->
  exists df,
    (let df := setitem (of_records rows) "Sensitivity" sens in
     df <- insert_first df "Replicate" (CStr rep) ;; without_report_path df) = Ok df
    /\ (let df := setitem (of_records rows) "Sensitivity" sens in
        let df := setitem_scalar df "Replicate" (CStr rep) in
        let cols_ :=
          "Replicate"
          :: filter (fun c => negb (String.eqb c "Replicate")) (columns df) in
        df <- loc_columns df cols_ ;; without_report_path df) = Ok df
    /\ columns df = table_columns
    /\ nrows df = List.length ts
    /\ getitem df "Treatment" = Ok (map (fun t => CStr (name t)) ts)
    /\ getitem df "Replicate" = Ok (repeat (CStr rep) (List.length ts))
    /\ getitem df "Sensitivity"
       = Ok (firstn (List.length ts) (sens ++ repeat (CNum nan) (List.length ts))).
Proof.
  intros Hne HF.
  assert (Hrows : rows <> []).
  { intros ->. inversion HF. congruence. }
  rewrite (of_records_uniform rows Hrows (gives_uniform _ _ HF)).
  rewrite (gives_length _ _ HF).
  destruct (finish_table (List.length ts) (fun k => infer (map (field k) rows)) sens rep)
    as (df & E1 & E2 & Hc & Hn & Ht & Hr & Hs).
  exists df. rewrite (gives_labels _ _ HF) in Ht.
  repeat split; assumption.
Qed.

(** The two columns [calculate_sensitivity] reads in the table of the
    records of some folders. *)
Lemma rows_columns ts rows :
  ts <> [] -> Forall2 gives ts rows ->
  nrows (of_records rows) = List.length ts
  /\ getitem (of_records rows) "Treatment" = Ok (map (fun t => CStr (name t)) ts)
  /\ exists V, getitem (of_records rows) "MUT/WT*%" = Ok V
               /\ List.length V = List.length ts
               /\ V = infer (map (field "MUT/WT*%") rows).
Proof.
  intros Hne HF.
  assert (Hrows : rows <> []).
  { intros ->. inversion HF. congruence. }
  rewrite (of_records_uniform rows Hrows (gives_uniform _ _ HF)).
  split; [exact (gives_length _ _ HF)|]. split.
  - unfold getitem. cbn. now rewrite (gives_labels _ _ HF).
  - eexists. split; [reflexivity|]. split; [|reflexivity].
    now rewrite infer_length, length_map, (gives_length _ _ HF).
Qed.

Variable reference_day : option Z.
Variable reference_treatment : option string.

Let build (rep : string) : res DataFrame :=
  build_one parser fs out_root wt_seq mut_seq amplicon_seq reference_day
    reference_treatment rep.

Let folders (rep : string) : list Path :=
  filter (yields parser fs wt_seq mut_seq amplicon_seq)
    (treatment_folders fs out_root rep).

(** The table of a replicate, from the folders that give a record. *)
Lemma build_one_table rep df :
  build rep = Ok df ->
  match folders rep with
  | [] => df = empty_frame
  | _ :: _ =>
      exists rows sens,
        Forall2 gives (folders rep) rows
        /\ calculate_sensitivity (of_records rows) "MUT/WT*%" reference_day
             reference_treatment = Ok sens
        /\ columns df = table_columns
        /\ nrows df = List.length (folders rep)
        /\ getitem df "Treatment" = Ok (map (fun t => CStr (name t)) (folders rep))
        /\ getitem df "Replicate" = Ok (repeat (CStr rep) (List.length (folders rep)))
        /\ getitem df "Sensitivity"
           = Ok (firstn (List.length (folders rep))
                   (sens ++ repeat (CNum nan) (List.length (folders rep))))
  end.
Proof.
  unfold build, folders, build_one, treatment_folders. cbv zeta.
  destruct (is_dir fs (out_root ++ [rep])); cbn [negb]; [|now intros [= <-]].
  destruct (subdirs_of fs (out_root ++ [rep])) as [|t ts] eqn:S.
  - intros H. apply bind_inv in H as (data & Hd & H).
    cbn [filter]. unfold yields. rewrite Hd.
    destruct (some_record data) as [r|] eqn:R; [|now injection H as <-].
    apply some_record_some in R as ->.
    apply bind_inv in H as (sens & Hs & H).
    assert (HF : Forall2 gives [out_root ++ [rep]] [r]).
    { constructor; [exact Hd|constructor]. }
    destruct (table_of_rows [out_root ++ [rep]] [r] sens rep ltac:(discriminate) HF)
      as (df' & _ & E2 & Hc & Hn & Ht & Hr & Hse).
    cbv zeta in E2. rewrite E2 in H. injection H as <-.
    exists [r], sens. repeat split; assumption.
  - intros H. apply bind_inv in H as (rows & Hrows & H).
    destruct (collect_rows_spec (t :: ts) [] rows Hrows) as (rs & -> & HF).
    cbn [app] in H.
    destruct (filter _ (t :: ts)) as [|f fl] eqn:F.
    + inversion HF; subst. now injection H as <-.
    + destruct rs as [|r rs]; [inversion HF|].
      apply bind_inv in H as (sens & Hs & H).
      destruct (table_of_rows (f :: fl) (r :: rs) sens rep ltac:(discriminate) HF)
        as (df' & E1 & _ & Hc & Hn & Ht & Hr & Hse).
      cbv zeta in E1. rewrite E1 in H. injection H as <-.
      exists (r :: rs), sens. repeat split; assumption.
Qed.

(** X12.  The table of a replicate has one row for each folder that gives a
    record, in the order of the directory listing: the sub-directories of
    the replicate or, when it has none, the replicate folder itself.  Each
    row is labelled with the name of its folder and with the replicate, and
    the table is the empty one when no folder gives a record or the
    replicate is no directory. *)
Theorem replicate_table_rows (rep : string) (df : DataFrame) :
  build_one parser fs out_root wt_seq mut_seq amplicon_seq reference_day
    reference_treatment rep = Ok df ->
  let found := filter (yields parser fs wt_seq mut_seq amplicon_seq)
                 (treatment_folders fs out_root rep) in
  (found = [] -> df = empty_frame)
  /\ (found <> [] ->
      nrows df = List.length found
      /\ getitem df "Treatment" = Ok (map (fun t => CStr (name t)) found)
      /\ getitem df "Replicate" = Ok (repeat (CStr rep) (List.length found))).
Proof.
  intros H. apply build_one_table in H. unfold folders in H. cbv zeta.
  destruct (filter _ (treatment_folders fs out_root rep)) as [|f fl].
  - split; [auto|congruence].
  - destruct H as (rows & sens & _ & _ & _ & Hn & Ht & Hr & _).
    split; [discriminate|]. intros _. repeat split; assumption.
Qed.

(** X13.  When the reference treatment is the name of no folder that gives
    a record, every sensitivity of the replicate's table is null. *)
Theorem reference_absent_nulls (rep : string) (df : DataFrame) (t : string) :
  reference_treatment = Some t ->
  build_one parser fs out_root wt_seq mut_seq amplicon_seq reference_day
    reference_treatment rep = Ok df ->
  let found := filter (yields parser fs wt_seq mut_seq amplicon_seq)
                 (treatment_folders fs out_root rep) in
  found <> [] ->
  (forall f, In f found -> name f <> t) ->
  getitem df "Sensitivity" = Ok (repeat CNone (List.length found)).
Proof.
  intros Ht H. apply build_one_table in H. unfold folders in H. cbv zeta.
  destruct (filter _ (treatment_folders fs out_root rep)) as [|f fl] eqn:F;
    [congruence|].
  intros _ Hno.
  destruct H as (rows & sens & HF & Hs & _ & _ & _ & _ & ->).
  destruct (rows_columns (f :: fl) rows ltac:(discriminate) HF)
    as (Hn & HT & V & HV & LV & _).
  assert (Hnone : find_index (eq_str t) (map (fun t => CStr (name t)) (f :: fl)) = None).
  { clear - Hno. induction (f :: fl) as [|a l IH]; [reflexivity|]. simpl.
    destruct (String.eqb_spec (name a) t) as [E|NE].
    - exfalso. apply (Hno a); [now left|assumption].
    - rewrite IH; [reflexivity|]. intros g Hg. apply Hno. now right. }
  rewrite (@calculate_sensitivity_by_reference (of_records rows) "MUT/WT*%"
             (map (fun t => CStr (name t)) (f :: fl)) V HT HV) in Hs.
  - rewrite Ht in Hs. unfold reference_row in Hs. rewrite Hnone in Hs.
    injection Hs as <-. unfold nulls. rewrite Hn.
    rewrite firstn_app, repeat_length, Nat.sub_diag, firstn_O, app_nil_r.
    f_equal. apply firstn_all2. now rewrite repeat_length.
  - now rewrite length_map.
  - now rewrite LV.
  - rewrite Hn. discriminate.
Qed.

(** Nothing is raised for a replicate when the parser raises nothing and
    reads a number as every ratio. *)
Lemma build_one_total rep :
  (forall p, exists v, get_total_reads parser fs p = Ok v) ->
  (forall p c, exists v, get_modif_reads parser fs p c = Ok v) ->
  (forall p c, exists v, get_frame_reads parser fs p c = Ok v) ->
  (forall p c, exists v,
      get_mut_wt_reads parser fs p wt_seq mut_seq amplicon_seq c = Ok v
      /\ is_num (mut_wt_percent v) = true) ->
  exists df, build rep = Ok df.
Proof.
  intros Htot Hmod Hfr Hmw.
  assert (Hp : forall t, exists d, process t = Ok d).
  { intros t. unfold process, process_treatment_folder.
    destruct (actual_dir_of fs t) as [d|]; [|now eexists].
    destruct (Sort.sorted _ (allele_matches fs d)) as [|a rest]; [now eexists|].
    destruct (negb _); [now eexists|].
    destruct (Htot (d ++ [MAPPING_STATISTICS])) as (total & ->). cbn [bind].
    destruct (Hmod (d ++ [QUANTIFICATION]) total) as (modif & ->). cbn [bind].
    destruct (Hfr (d ++ [FRAMESHIFT]) total) as (frame & ->). cbn [bind].
    destruct (Hmw a total) as (mw & -> & _). cbn [bind]. now eexists. }
  assert (Hsens : forall ts rows, ts <> [] -> Forall2 gives ts rows ->
            exists sens, calculate_sensitivity (of_records rows) "MUT/WT*%"
                           reference_day reference_treatment = Ok sens).
  { intros ts rows Hne HF.
    destruct (rows_columns ts rows Hne HF) as (Hn & HT & V & HV & LV & EV).
    apply (sensitivity_of_numbers (of_records rows) "MUT/WT*%"
             (map (fun t => CStr (name t)) ts) V); try assumption.
    - now rewrite length_map.
    - now rewrite LV.
    - rewrite Hn. now destruct ts.
    - rewrite EV. apply infer_numbers. clear - HF Hmw.
      induction HF as [|t r ts rs G _ IH]; constructor; [|assumption].
      apply process_record in G as (_ & _ & path & total & mw & Hg & ->).
      destruct (Hmw path total) as (v & Hv & Hnum). congruence. }
  unfold build, build_one. cbv zeta.
  destruct (negb (is_dir fs (out_root ++ [rep]))); [now eexists|].
  destruct (subdirs_of fs (out_root ++ [rep])) as [|t ts] eqn:S.
  - destruct (Hp (out_root ++ [rep])) as (data & Hd). unfold process in Hd.
    rewrite Hd. cbn [bind].
    destruct (some_record data) as [r|] eqn:R; [|now eexists].
    apply some_record_some in R. subst data.
    assert (HF : Forall2 gives [out_root ++ [rep]] [r]).
    { constructor; [exact Hd|constructor]. }
    destruct (Hsens [out_root ++ [rep]] [r] ltac:(discriminate) HF) as (sens & ->).
    cbn [bind].
    destruct (table_of_rows [out_root ++ [rep]] [r] sens rep ltac:(discriminate) HF)
      as (df' & _ & E2 & _).
    cbv zeta in E2. rewrite E2. now eexists.
  - destruct (collect_rows_total (t :: ts) [] Hp) as (rows & Hrows).
    rewrite Hrows. cbn [bind].
    destruct (collect_rows_spec (t :: ts) [] rows Hrows) as (rs & -> & HF). cbn [app].
    destruct rs as [|r rs]; [now eexists|].
    assert (Hne : filter (yields parser fs wt_seq mut_seq amplicon_seq) (t :: ts) <> []).
    { intros E. rewrite E in HF. inversion HF. }
    destruct (Hsens _ _ Hne HF) as (sens & ->). cbn [bind].
    destruct (table_of_rows _ (r :: rs) sens rep Hne HF) as (df' & E1 & _).
    cbv zeta in E1. rewrite E1. now eexists.
Qed.

Lemma mem_in x l : mem x l = true <-> In x l.
Proof.
  unfold mem. rewrite existsb_exists. split.
  - intros (y & Hy & E). now apply String.eqb_eq in E as ->.
  - intros H. exists x. split; [assumption|apply String.eqb_refl].
Qed.

Lemma dict_set_keys k v d :
  map fst (dict_set k v d)
  = if mem k (map fst d) then map fst d else map fst d ++ [k].
Proof.
  induction d as [|[k' w] d IH]; simpl; [reflexivity|].
  rewrite (String.eqb_sym k k').
  destruct (String.eqb k' k); simpl; [reflexivity|].
  rewrite IH. now destruct (mem k (map fst d)).
Qed.

Lemma dict_set_entry k v d k' v' :
  In (k', v') (dict_set k v d) -> (k' = k /\ v' = v) \/ In (k', v') d.
Proof.
  induction d as [|[k0 w] d IH]; simpl.
  - intros [[= <- <-]|[]]. now left.
  - destruct (String.eqb_spec k0 k) as [->|NE].
    + intros [[= <- <-]|H]; [now left|right; now right].
    + intros [E|H]; [right; now left|].
      destruct (IH H) as [?|?]; [now left|right; now right].
Qed.

Lemma unique_from l : forall seen,
  NoDup seen ->
  let out := fold_left (fun seen t => if mem t seen then seen else seen ++ [t]) l seen in
  NoDup out /\ forall x, In x out <-> In x seen \/ In x l.
Proof.
  induction l as [|a l IH]; intros seen Hnd; simpl.
  - split; [assumption|]. intros x. tauto.
  - destruct (mem a seen) eqn:M.
    + destruct (IH seen Hnd) as [H1 H2]. split; [exact H1|].
      intros x. rewrite H2. apply mem_in in M. split; [tauto|].
      intros [H|[<-|H]]; auto.
    + assert (Hnd' : NoDup (seen ++ [a])).
      { apply NoDup_app; [assumption|repeat constructor; tauto|].
        intros x Hx [<-|[]]. apply mem_in in Hx. congruence. }
      destruct (IH _ Hnd') as [H1 H2]. split; [exact H1|].
      intros x. rewrite H2, in_app_iff. simpl. tauto.
Qed.

(** The loop of [build_dfs_by_replicate]: the keys of the [dict] and what
    each key holds. *)
Lemma build_all samples : forall dfs0 dfs,
  for_each (fun dfs rep => df <- build rep ;; Ok (dict_set rep df dfs)) samples dfs0
  = Ok dfs ->
  map fst dfs
  = fold_left (fun seen t => if mem t seen then seen else seen ++ [t]) samples
      (map fst dfs0)
  /\ forall rep df, In (rep, df) dfs ->
       In (rep, df) dfs0 \/ (In rep samples /\ build rep = Ok df).
Proof.
  induction samples as [|s samples IH]; intros dfs0 dfs H; simpl in H.
  - injection H as <-. split; [reflexivity|]. intros rep df Hin. now left.
  - apply bind_inv in H as (dfs1 & H1 & H).
    apply bind_inv in H1 as (df1 & B & [= <-]).
    destruct (IH _ _ H) as [Hk Hin]. split.
    + rewrite Hk, dict_set_keys. reflexivity.
    + intros rep df Hd. destruct (Hin _ _ Hd) as [Hd0|[Hs Hb]].
      * apply dict_set_entry in Hd0 as [[-> ->]|Hd0]; [right|now left].
        split; [now left|exact B].
      * right. split; [now right|exact Hb].
Qed.

(** X14.  [build_dfs_by_replicate] returns one table for each name it is
    given: the keys of the result are the names, each once, in the order
    they first come, and what a key holds is the table of that replicate. *)
Theorem build_dfs_keys (samples : list string) (dfs : list (string * DataFrame)) :
  build_dfs_by_replicate parser fs out_root wt_seq mut_seq amplicon_seq
    reference_day reference_treatment samples = Ok dfs ->
  map fst dfs = unique samples
  /\ NoDup (map fst dfs)
  /\ (forall rep, In rep samples -> exists df, In (rep, df) dfs)
  /\ (forall rep df, In (rep, df) dfs ->
        In rep samples
        /\ build_one parser fs out_root wt_seq mut_seq amplicon_seq reference_day
             reference_treatment rep = Ok df).
Proof.
  intros H. unfold build_dfs_by_replicate in H.
  destruct (build_all samples [] dfs H) as [Hk Hin].
  destruct (unique_from samples [] (NoDup_nil _)) as [Hnd Hmem]. simpl in Hk.
  split; [exact Hk|]. split; [now rewrite Hk|]. split.
  - intros rep Hrep.
    assert (Hr : In rep (map fst dfs)).
    { rewrite Hk. apply Hmem. now right. }
    apply in_map_iff in Hr as ([k df] & E & Hd). simpl in E. subst k. now exists df.
  - intros rep df Hd. destruct (Hin _ _ Hd) as [[]|Hb]. exact Hb.
Qed.

(** X15.  A table that [build_dfs_by_replicate] returns is the empty one or
    has rows and these columns in this order: the replicate, the fields of
    the records but for the report path, and the sensitivity. *)
Theorem replicate_table_columns (samples : list string)
  (dfs : list (string * DataFrame)) :
  build_dfs_by_replicate parser fs out_root wt_seq mut_seq amplicon_seq
    reference_day reference_treatment samples = Ok dfs ->
  forall rep df, In (rep, df) dfs ->
    df = empty_frame
    \/ (columns df = table_columns /\ nrows df <> 0%nat).
Proof.
  intros H rep df Hd. unfold build_dfs_by_replicate in H.
  destruct (build_all samples [] dfs H) as [_ Hin].
  destruct (Hin _ _ Hd) as [[]|[_ Hb]].
  apply build_one_table in Hb.
  destruct (folders rep) as [|f fl]; [now left|].
  destruct Hb as (rows & sens & _ & _ & Hc & Hn & _). right.
  split; [exact Hc|]. rewrite Hn. discriminate.
Qed.

(** X16.  When the functions of the parser raise nothing and give a number
    as every ratio, [build_dfs_by_replicate] raises nothing, whatever the
    names, the tree and the reference. *)
Theorem build_dfs_total (samples : list string) :
  (forall p, exists v, get_total_reads parser fs p = Ok v) ->
  (forall p c, exists v, get_modif_reads parser fs p c = Ok v) ->
  (forall p c, exists v, get_frame_reads parser fs p c = Ok v) ->
  (forall p c, exists v,
      get_mut_wt_reads parser fs p wt_seq mut_seq amplicon_seq c = Ok v
      /\ is_num (mut_wt_percent v) = true) ->
  exists dfs,
    build_dfs_by_replicate parser fs out_root wt_seq mut_seq amplicon_seq
      reference_day reference_treatment samples = Ok dfs.
Proof.
  intros Htot Hmod Hfr Hmw. unfold build_dfs_by_replicate.
  generalize (@nil (string * DataFrame)).
  induction samples as [|s samples IH]; intros dfs0; simpl; [now eexists|].
  destruct (build_one_total s Htot Hmod Hfr Hmw) as (df & E).
  unfold build in E. rewrite E. cbn [bind]. apply IH.
Qed.

End ReplicateFacts.

Lemma replicate_table_rows_witness :
  let found := filter (Tables.yields Aggregate.sample_parser Aggregate.sample_outputs "" "" "")
                 (Tables.treatment_folders Aggregate.sample_outputs ["out"] "Replica-1") in
  (found = [] -> Tables.sample_table = Frame.empty_frame)
  /\ (found <> [] ->
      Frame.nrows Tables.sample_table = List.length found
      /\ Frame.getitem Tables.sample_table "Treatment"
         = Ok (map (fun t => Report.CStr (FS.name t)) found)
      /\ Frame.getitem Tables.sample_table "Replicate"
         = Ok (repeat (Report.CStr "Replica-1") (List.length found))).
Proof.
  apply (replicate_table_rows Aggregate.sample_parser Aggregate.sample_outputs ["out"]
           "" "" "" None (Some "Day0_untreated") "Replica-1" Tables.sample_table).
  vm_compute. reflexivity.
Defined.

Lemma reference_absent_nulls_witness :
  Frame.getitem Tables.unreferenced_table "Sensitivity"
  = Ok (repeat Report.CNone
          (List.length
             (filter (Tables.yields Aggregate.sample_parser Aggregate.sample_outputs "" "" "")
                (Tables.treatment_folders Aggregate.sample_outputs ["out"] "Replica-1")))).
Proof.
  apply (reference_absent_nulls Aggregate.sample_parser Aggregate.sample_outputs ["out"]
           "" "" "" None (Some "Day9_none") "Replica-1" Tables.unreferenced_table
           "Day9_none").
  - reflexivity.
  - vm_compute. reflexivity.
  - vm_compute. discriminate.
  - intros f Hf. vm_compute in Hf.
    repeat (destruct Hf as [<-|Hf]; [vm_compute; discriminate|]). destruct Hf.
Defined.

Lemma build_dfs_keys_witness :
  map fst Aggregate.sample_tables = Tables.unique ["Replica-1"; "Replica-2"]
  /\ NoDup (map fst Aggregate.sample_tables)
  /\ (forall rep, In rep ["Replica-1"; "Replica-2"] ->
        exists df, In (rep, df) Aggregate.sample_tables)
  /\ (forall rep df, In (rep, df) Aggregate.sample_tables ->
        In rep ["Replica-1"; "Replica-2"]
        /\ Aggregate.build_one Aggregate.sample_parser Aggregate.sample_outputs ["out"]
             "" "" "" None (Some "Day0_untreated") rep = Ok df).
Proof.
  apply (build_dfs_keys Aggregate.sample_parser Aggregate.sample_outputs ["out"]
           "" "" "" None (Some "Day0_untreated")).
  vm_compute. reflexivity.
Defined.

Lemma replicate_table_columns_witness :
  Tables.sample_table = Frame.empty_frame
  \/ (Frame.columns Tables.sample_table = Tables.table_columns
      /\ Frame.nrows Tables.sample_table <> 0%nat).
Proof.
  apply (replicate_table_columns Aggregate.sample_parser Aggregate.sample_outputs ["out"]
           "" "" "" None (Some "Day0_untreated") ["Replica-1"; "Replica-2"]
           Aggregate.sample_tables) with (rep := "Replica-1").
  - vm_compute. reflexivity.
  - left. reflexivity.
Defined.

Lemma build_dfs_total_witness :
  exists dfs,
    Aggregate.build_dfs_by_replicate Aggregate.sample_parser Aggregate.sample_outputs
      ["out"] "" "" "" None (Some "Day0_untreated") ["Replica-1"; "Replica-2"] = Ok dfs.
Proof.
  apply (build_dfs_total Aggregate.sample_parser Aggregate.sample_outputs ["out"]
           "" "" "" None (Some "Day0_untreated") ["Replica-1"; "Replica-2"]).
  - intros p. now eexists.
  - intros p c. now eexists.
  - intros p c. now eexists.
  - intros p c. eexists. split; reflexivity.
Defined.

(** ** The log of the server *)

Section LogFacts.

Import Str App.

Lemma append_log_empty msg : _append_log "" msg = msg.
Proof. reflexivity. Qed.

Lemma append_log_more current msg :
  current <> "" -> _append_log current msg = (current ++ newline ++ msg)%string.
Proof. intros H. destruct current; [congruence|reflexivity]. Qed.

Lemma append_nonempty (a b : string) : a <> "" -> (a ++ b)%string <> "".
Proof. destruct a; [congruence|discriminate]. Qed.

Lemma log_from current msgs :
  current <> "" ->
  fold_left _append_log msgs current
  = match msgs with
    | [] => current
    | _ :: _ => (current ++ newline ++ String.concat newline msgs)%string
    end.
Proof.
  revert current. induction msgs as [|m msgs IH]; intros current Hne; [reflexivity|].
  cbn [fold_left]. rewrite (append_log_more _ _ Hne).
  rewrite IH by now apply append_nonempty.
  destruct msgs as [|m' msgs]; [reflexivity|].
  change (String.concat newline (m :: m' :: msgs))
    with (m ++ newline ++ String.concat newline (m' :: msgs))%string.
  now rewrite <- !string_app_assoc.
Qed.

(** X17.  After any messages of which the first is not empty, the log that
    [_append_log] keeps is the messages joined by line feeds, with no line
    feed before the first or after the last. *)
Theorem append_log_joins (first : string) (others : list string) :
  first <> "" ->
  fold_left _append_log (first :: others) "" = String.concat newline (first :: others).
Proof.
  intros Hne. cbn [fold_left]. rewrite append_log_empty, (log_from _ _ Hne).
  now destruct others.
Qed.

Lemma append_log_joins_witness :
  fold_left _append_log ["Starting CRISPResso2 run..."; ""; "done"] ""
  = String.concat newline ["Starting CRISPResso2 run..."; ""; "done"].
Proof.
  apply (append_log_joins "Starting CRISPResso2 run..." [""; "done"]). discriminate.
Defined.

End LogFacts.

(** ** The order of the treatments *)

Section OrderingFacts.

Import Str Tables App Plots.

Lemma fold_left_inv {A B} (f : A -> B -> A) (I : A -> Prop) l :
  (forall a b, I a -> I (f a b)) -> forall a, I a -> I (fold_left f l a).
Proof.
  intros Hf. induction l as [|b l IH]; intros a Ha; simpl; [assumption|].
  apply IH. now apply Hf.
Qed.

Lemma mem_false x l : mem x l = false <-> ~ In x l.
Proof.
  rewrite <- (mem_in x l). destruct (mem x l); split; congruence.
Qed.

Lemma snoc_nodup (l : list string) x : NoDup l -> ~ In x l -> NoDup (l ++ [x]).
Proof.
  intros Hl Hx. apply NoDup_app; [assumption|repeat constructor; tauto|].
  intros y Hy [<-|[]]. contradiction.
Qed.

(** What the last loop of [_current_treatment_order] does: it appends the
    treatments that are not yet in the order. *)
Lemma fill_from base : forall order,
  NoDup order ->
  let out := fold_left (fun order t => if negb (mem t order) then order ++ [t] else order)
               base order in
  NoDup out /\ (forall x, In x out <-> In x order \/ In x base)
  /\ exists rest, out = order ++ rest.
Proof.
  induction base as [|a base IH]; intros order Hnd; simpl.
  - split; [assumption|]. split; [intros x; tauto|]. exists []. now rewrite app_nil_r.
  - destruct (mem a order) eqn:M; simpl.
    + destruct (IH order Hnd) as (H1 & H2 & rest & H3). split; [exact H1|].
      split; [|now exists rest].
      intros x. rewrite H2. apply mem_in in M. split; [tauto|].
      intros [H|[<-|H]]; auto.
    + apply mem_false in M.
      destruct (IH _ (snoc_nodup _ _ Hnd M)) as (H1 & H2 & rest & H3).
      split; [exact H1|]. split.
      * intros x. rewrite H2, in_app_iff. simpl. tauto.
      * exists (a :: rest). rewrite H3, <- app_assoc. reflexivity.
Qed.




(** The order before the last loop: duplicate-free treatments of the
    table. *)
Lemma chosen_order arr (pos : nat -> option string) base :
  let picked :=
    fold_left (fun order t =>
                 if mem t base && negb (mem t order) then order ++ [t] else order)
      arr [] in
  let order :=
    match picked with
    | [] =>
        fold_left (fun order i =>
                     let val := pos (i + 1)%nat in
                     if truthy val
                     then match val with
                          | Some v =>
                              if mem v base && negb (mem v order)
                              then order ++ [v] else order
                          | None => order
                          end
                     else order)
          (seq 0 (List.length base)) []
    | _ :: _ => picked
    end in
  NoDup order /\ forall x, In x order -> In x base.
Proof.
  cbv zeta.
  set (I := fun order : list string => NoDup order /\ forall x, In x order -> In x base).
  assert (Hstep : forall order v, I order ->
            I (if mem v base && negb (mem v order) then order ++ [v] else order)).
  { intros order v [Hnd Hin].
    destruct (mem v base) eqn:Mb; [|now split].
    destruct (mem v order) eqn:Mo; [now split|]. simpl.
    apply mem_in in Mb. apply mem_false in Mo. split; [now apply snoc_nodup|].
    intros x Hx. apply in_app_iff in Hx as [Hx|[<-|[]]]; auto. }
  assert (I0 : I []) by (split; [constructor|intros x []]).
  assert (Hpick : I (fold_left (fun order t =>
                       if mem t base && negb (mem t order) then order ++ [t] else order)
                       arr [])).
  { apply fold_left_inv; [|exact I0]. intros order t. apply Hstep. }
  destruct (fold_left _ arr []) as [|p picked]; [|exact Hpick].
  apply fold_left_inv; [|exact I0].
  intros order i Ho. cbv zeta.
  destruct (truthy (pos (i + 1)%nat)); [|exact Ho].
  destruct (pos (i + 1)%nat) as [v|]; [now apply Hstep|exact Ho].
Qed.

Lemma current_order_members arr pos base :
  NoDup (_current_treatment_order arr pos base)
  /\ forall t, In t (_current_treatment_order arr pos base) <-> In t base.
Proof.
  unfold _current_treatment_order.
  destruct base as [|b base]; [split; [constructor|tauto]|].
  destruct (chosen_order arr pos (b :: base)) as [Hnd Hin]. cbv zeta in Hnd, Hin.
  destruct (fill_from (b :: base) _ Hnd) as (H1 & H2 & _). cbv zeta in H1, H2.
  split; [exact H1|]. intros t. rewrite H2. split; [|tauto].
  intros [H|H]; [now apply Hin|exact H].
Qed.


Lemma filter_all {A} (P : A -> bool) l : (forall x, In x l -> P x = true) -> filter P l = l.
Proof.
  induction l as [|a l IH]; intros H; simpl; [reflexivity|].
  rewrite (H a) by now left. rewrite IH; [reflexivity|]. intros x Hx. apply H. now right.
Qed.

Lemma filter_none {A} (P : A -> bool) l : (forall x, In x l -> P x = false) -> filter P l = [].
Proof.
  induction l as [|a l IH]; intros H; simpl; [reflexivity|].
  rewrite (H a) by now left. apply IH. intros x Hx. apply H. now right.
Qed.

(** An order that holds the treatments present, and no other, is the axis. *)
Lemma axis_of_order present order :
  (forall t, In t order <-> In t present) ->
  treatments_axis present (Some order) = order.
Proof.
  intros H. unfold treatments_axis. destruct order as [|a order].
  - destruct present as [|p present]; [reflexivity|]. destruct (proj2 (H p)). now left.
  - rewrite (filter_all _ (a :: order)), (filter_none _ present); [apply app_nil_r| |].
    + intros x Hx. apply negb_false_iff, mem_in, H, Hx.
    + intros x Hx. apply mem_in, H, Hx.
Qed.

(** X19.  The axis of a plot holds the treatments present in the table and
    no other.  Without an order it is the treatments as the table gives
    them; with an order, the treatments of the order that are present come
    first, in that order, and the others follow; and when order and table
    are both free of duplicates so is the axis. *)
Theorem treatments_axis_spec (present : list string) (treat_order : option (list string)) :
  let axis := treatments_axis present treat_order in
  (forall t, In t axis <-> In t present)
  /\ (treat_order = None \/ treat_order = Some [] -> axis = present)
  /\ (forall order, treat_order = Some order -> NoDup order -> NoDup present ->
        NoDup axis)
  /\ (forall order, treat_order = Some order ->
        (forall t, In t present -> In t order) ->
        axis = filter (fun t => mem t present) order).
Proof.
  cbv zeta. unfold treatments_axis.
  destruct treat_order as [[|a order]|].
  - split; [tauto|]. split; [auto|]. split; [now intros ? [= <-]|].
    intros order [= <-] H. simpl. destruct present as [|p present]; [reflexivity|].
    destruct (H p). now left.
  - split; [|split; [|split]].
    + intros t. rewrite in_app_iff, !filter_In. split.
      * intros [[_ H]|[H _]]; [now apply mem_in|exact H].
      * intros H. destruct (mem t (a :: order)) eqn:M.
        -- left. split; [now apply mem_in|now apply mem_in].
        -- right. now split.
    + intros [H|H]; discriminate.
    + intros order' [= <-] Ho Hp. apply NoDup_app.
      * now apply NoDup_filter.
      * now apply NoDup_filter.
      * intros x H1 H2. apply filter_In in H1 as [H1 _].
        apply filter_In in H2 as [_ H2]. apply negb_true_iff, mem_false in H2.
        contradiction.
    + intros order' [= <-] H. rewrite (filter_none _ present); [apply app_nil_r|].
      intros x Hx. apply negb_false_iff, mem_in, H, Hx.
  - split; [tauto|]. split; [auto|]. split; intros ? [=].
Qed.

(** X20.  Given the order that [_current_treatment_order] returns for the
    treatments of a table, a plot of that table has exactly that order on
    its axis. *)
Theorem plot_follows_order
  (arr : list string) (pos : nat -> option string) (base present : list string) :
  (forall t, In t present <-> In t base) ->
  treatments_axis present (Some (_current_treatment_order arr pos base))
  = _current_treatment_order arr pos base.
Proof.
  intros H. apply axis_of_order. intros t.
  destruct (current_order_members arr pos base) as [_ Hmem].
  rewrite Hmem. symmetry. apply H.
Qed.

Lemma plot_follows_order_witness :
  treatments_axis ["a"; "b"; "c"]
    (Some (_current_treatment_order ["c"; "x"; "a"] (fun _ => None) ["b"; "a"; "c"; "a"]))
  = _current_treatment_order ["c"; "x"; "a"] (fun _ => None) ["b"; "a"; "c"; "a"].
Proof.
  apply (plot_follows_order ["c"; "x"; "a"] (fun _ => None) ["b"; "a"; "c"; "a"]
           ["a"; "b"; "c"]).
  intros t. simpl. tauto.
Defined.

End OrderingFacts.

(** ** The labels of the tables and the treatments offered as reference *)

Section MenuFacts.

Import Str FS Report Frame Aggregate Tables Listing.

(** X21.  In an output tree laid out by replicate, the labels of the table
    of a [Replica-] folder that has treatment folders are names that
    [list_treatments_from_outputs] returns: whatever treatment a table
    shows can be chosen as the reference. *)
Theorem labels_are_offered
  (parser : parser_module) (fs : node) (out_root : Path)
  (wt_seq mut_seq amplicon_seq : string)
  (reference_day : option Z) (reference_treatment : option string)
  (rep : string) (df : DataFrame) (names : list string) (T : list cell) :
  startswith rep "Replica-" = true ->
  subdirs_of fs (out_root ++ [rep]) <> [] ->
  list_treatments_from_outputs fs out_root = Ok names ->
  build_one parser fs out_root wt_seq mut_seq amplicon_seq reference_day
    reference_treatment rep = Ok df ->
  getitem df "Treatment" = Ok T ->
  forall c, In c T -> exists t, c = CStr t /\ In t names.
Proof.
  intros Hrep Hsub Hnames Hb HT c Hc.
  assert (Hd : is_dir fs (out_root ++ [rep]) = true).
  { unfold subdirs_of in Hsub. unfold is_dir.
    destruct (lookup fs (out_root ++ [rep])) as [[x|es]|]; congruence. }
  assert (Hroot : exists es, lookup fs out_root = Some (Dir es)).
  { unfold is_dir in Hd. rewrite lookup_app in Hd.
    destruct (lookup fs out_root) as [[x|es]|]; try discriminate. now exists es. }
  destruct Hroot as (es & L).
  destruct (@list_treatments_dir fs out_root es L) as (names' & E & _ & Hmem).
  rewrite E in Hnames. injection Hnames as <-.
  apply build_one_table in Hb.
  assert (Hfolders : treatment_folders fs out_root rep = subdirs_of fs (out_root ++ [rep])).
  { unfold treatment_folders. cbv zeta. rewrite Hd.
    destruct (subdirs_of fs (out_root ++ [rep])); [congruence|reflexivity]. }
  rewrite Hfolders in Hb.
  destruct (filter _ (subdirs_of fs (out_root ++ [rep]))) as [|f fl] eqn:F.
  - subst df. discriminate.
  - destruct Hb as (rows & sens & _ & _ & _ & _ & Ht & _).
    rewrite Ht in HT. injection HT as <-.
    change (In c (map (fun t => CStr (name t)) (f :: fl))) in Hc.
    apply in_map_iff in Hc as (g & <- & Hg).
    exists (name g). split; [reflexivity|].
    assert (Hin : In g (subdirs_of fs (out_root ++ [rep]))).
    { assert (H : In g (filter (yields parser fs wt_seq mut_seq amplicon_seq)
                          (subdirs_of fs (out_root ++ [rep]))))
        by (rewrite F; exact Hg).
      now apply filter_In in H. }
    unfold subdirs_of in Hin.
    destruct (lookup fs (out_root ++ [rep])) as [[x|es']|]; try destruct Hin.
    apply filter_In in Hin as [Hin Hgd].
    apply in_map_iff in Hin as (e & <- & _).
    rewrite name_child. apply Hmem. left. exists rep. split.
    + apply is_replica_dir_iff. now split.
    + rewrite <- app_assoc in Hgd. exact Hgd.
Qed.

Lemma labels_are_offered_witness :
  exists t, CStr "Day3_druga" = CStr t /\ In t ["Day0_untreated"; "Day3_druga"].
Proof.
  apply (labels_are_offered sample_parser sample_outputs ["out"] "" "" ""
           None (Some "Day0_untreated") "Replica-1" sample_table
           ["Day0_untreated"; "Day3_druga"]
           [CStr "Day0_untreated"; CStr "Day3_druga"]).
  - vm_compute. reflexivity.
  - vm_compute. discriminate.
  - vm_compute. reflexivity.
  - vm_compute. reflexivity.
  - vm_compute. reflexivity.
  - right. left. reflexivity.
Defined.

End MenuFacts.

(** ** The table of the selected replicates *)

Section SelectionFacts.

Import Str FS Report Frame Aggregate Tables App.
Local Open Scope float_scope.

Lemma dict_get_in k d df : dict_get k d = Some df -> In (k, df) d.
Proof.
  induction d as [|[k' v] d IH]; simpl; [discriminate|].
  destruct (String.eqb_spec k' k) as [->|NE].
  - intros [= ->]. now left.
  - intros H. right. now apply IH.
Qed.

Lemma unique_known l : forall seen,
  (forall x, In x l -> In x seen) ->
  fold_left (fun seen t => if mem t seen then seen else seen ++ [t]) l seen = seen.
Proof.
  induction l as [|a l IH]; intros seen H; simpl; [reflexivity|].
  assert (M : mem a seen = true) by (apply mem_in, H; now left).
  rewrite M. apply IH. intros x Hx. apply H. now right.
Qed.

Lemma unique_new l : forall seen,
  NoDup (seen ++ l) ->
  fold_left (fun seen t => if mem t seen then seen else seen ++ [t]) l seen = seen ++ l.
Proof.
  induction l as [|a l IH]; intros seen Hnd; simpl; [now rewrite app_nil_r|].
  assert (M : mem a seen = false).
  { apply mem_false. intros H. apply NoDup_remove_2 in Hnd. apply Hnd.
    apply in_app_iff. now left. }
  rewrite M, IH; rewrite <- app_assoc; [reflexivity|exact Hnd].
Qed.

(** The columns of a concatenation of tables that have the same columns. *)
Lemma unique_same_columns K (frames : list DataFrame) :
  NoDup K -> frames <> [] -> Forall (fun df => columns df = K) frames ->
  unique (flat_map columns frames) = K.
Proof.
  intros Hnd Hne HF. unfold unique.
  destruct frames as [|df frames]; [congruence|].
  inversion HF as [|? ? Hdf Hrest]; subst. simpl.
  rewrite fold_left_app, (unique_new (columns df) []); [|exact Hnd]. simpl.
  apply unique_known. intros x Hx. apply in_flat_map in Hx as (df' & Hin & Hx).
  rewrite Forall_forall in Hrest. now rewrite (Hrest _ Hin) in Hx.
Qed.

(** What [df_selected] does after the concatenation, on a table with the
    columns of the replicates' tables. *)
Lemma finish_selected (n : nat) (g : string -> list cell) :
  let out := {| nrows := n; cols := map (fun c => (c, g c)) table_columns |} in
  (out <- (if negb (has_column out "Replicate") && has_column out "Sample"
           then sample <- getitem out "Sample" ;;
                insert_first_series out "Replicate" sample
           else Ok out) ;;
   if has_column out "Replicate"
   then loc_columns out
          ("Replicate"
           :: filter (fun c => negb (String.eqb c "Replicate")) (columns out))
   else Ok out) = Ok out
  /\ columns out = table_columns
  /\ forall c, In c table_columns -> getitem out c = Ok (g c).
Proof.
  cbv zeta. split; [reflexivity|]. split; [reflexivity|].
  intros c H. unfold table_columns in H.
  repeat (destruct H as [<-|H]; [reflexivity|]). destruct H.
Qed.

(** X22.  [df_selected] is the tables of the selected replicates, or of all
    replicates when none is selected, stacked in that order without the
    empty ones.  On the tables that [build_dfs_by_replicate] returns it
    raises nothing: the result is the empty table when no table is left,
    and else it has the columns of the replicates' tables, as many rows as
    the tables together, and in each column the cells of the tables one
    after the other. *)
Theorem df_selected_stacks
  (parser : parser_module) (fs : node) (out_root : Path)
  (wt_seq mut_seq amplicon_seq : string)
  (reference_day : option Z) (reference_treatment : option string)
  (samples : list string) (dfs : list (string * DataFrame))
  (sel_replicas : list string) :
  build_dfs_by_replicate parser fs out_root wt_seq mut_seq amplicon_seq
    reference_day reference_treatment samples = Ok dfs ->
  let selected :=
    match sel_replicas with [] => map fst dfs | _ :: _ => sel_replicas end in
  let chosen :=
    flat_map (fun r => match dict_get r dfs with
                       | Some df => if negb (is_empty df) then [df] else []
                       | None => []
                       end) selected in
  exists out,
    df_selected dfs sel_replicas = Ok out
    /\ (chosen = [] -> out = empty_frame)
    /\ (chosen <> [] ->
        columns out = table_columns
        /\ nrows out = list_sum (map nrows chosen)
        /\ forall c, In c table_columns ->
             getitem out c = Ok (flat_map (column_or_nan c) chosen)).
Proof.
  intros H. cbv zeta. unfold df_selected. cbv zeta.
  set (selected := match sel_replicas with [] => map fst dfs | _ :: _ => sel_replicas end).
  set (chosen := flat_map _ selected).
  assert (Hcols : Forall (fun df => columns df = table_columns) chosen).
  { apply Forall_forall. intros df Hdf. unfold chosen in Hdf.
    apply in_flat_map in Hdf as (r & _ & Hdf).
    destruct (dict_get r dfs) as [df'|] eqn:G; [|destruct Hdf].
    destruct (is_empty df') eqn:E; simpl in Hdf; [destruct Hdf|].
    destruct Hdf as [<-|[]]. apply dict_get_in in G.
    unfold build_dfs_by_replicate in H.
    destruct (build_all parser fs out_root wt_seq mut_seq amplicon_seq reference_day
                reference_treatment samples [] dfs H) as [_ Hin].
    destruct (Hin _ _ G) as [[]|[_ Hb]].
    apply build_one_table in Hb.
    destruct (filter _ (treatment_folders fs out_root r)) as [|f fl].
    - subst df'. discriminate.
    - now destruct Hb as (rows & sens & _ & _ & Hc & _). }
  destruct chosen as [|df0 rest] eqn:C.
  - exists empty_frame. split; [reflexivity|]. split; [reflexivity|congruence].
  - assert (Hne : df0 :: rest <> []) by discriminate.
    unfold concat. cbn [bind].
    rewrite (unique_same_columns table_columns (df0 :: rest)
               ltac:(apply nodupb_NoDup; vm_compute; reflexivity) Hne Hcols).
    destruct (finish_selected (list_sum (map nrows (df0 :: rest)))
                (fun c => flat_map (column_or_nan c) (df0 :: rest)))
      as (E & Hc & Hg).
    cbv zeta in E, Hc, Hg. eexists. split; [exact E|].
    split; [congruence|]. intros _. split; [exact Hc|]. split; [reflexivity|exact Hg].
Qed.

Lemma df_selected_stacks_witness :
  exists out,
    df_selected sample_tables ["Replica-1"; "Replica-2"; "Replica-1"] = Ok out
    /\ (flat_map (fun r => match dict_get r sample_tables with
                           | Some df => if negb (is_empty df) then [df] else []
                           | None => []
                           end) ["Replica-1"; "Replica-2"; "Replica-1"] = [] ->
        out = empty_frame)
    /\ (flat_map (fun r => match dict_get r sample_tables with
                           | Some df => if negb (is_empty df) then [df] else []
                           | None => []
                           end) ["Replica-1"; "Replica-2"; "Replica-1"] <> [] ->
        columns out = table_columns
        /\ nrows out
           = list_sum
               (map nrows
                  (flat_map (fun r => match dict_get r sample_tables with
                                      | Some df => if negb (is_empty df) then [df] else []
                                      | None => []
                                      end) ["Replica-1"; "Replica-2"; "Replica-1"]))
        /\ forall c, In c table_columns ->
             getitem out c
             = Ok (flat_map (column_or_nan c)
                     (flat_map (fun r => match dict_get r sample_tables with
                                         | Some df => if negb (is_empty df) then [df] else []
                                         | None => []
                                         end) ["Replica-1"; "Replica-2"; "Replica-1"]))).
Proof.
  apply (df_selected_stacks sample_parser sample_outputs ["out"] "" "" "" None
           (Some "Day0_untreated") ["Replica-1"; "Replica-2"] sample_tables
           ["Replica-1"; "Replica-2"; "Replica-1"]).
  vm_compute. reflexivity.
Defined.

End SelectionFacts.

